(** * app.py: the deadline-bounded task pipeline

    A shallow embedding of [src/app.py] (a FastAPI service that accepts build
    tasks, generates a small web application, publishes it to a GitHub
    repository and notifies an evaluation server), followed by the properties
    of the pipeline.

    Conventions of the model.
    - Python [str] values are [string]s (UTF-8 bytes).  [str.lower], slices
      and [str.strip] are modelled on bytes, which agrees with Python on ASCII
      text; a property for which the difference matters carries the
      hypothesis [isascii].
    - Python [int] is [Z]; wall-clock time (seconds) is [nat].
    - A Python [dict] whose iteration order is observable (the artifact set
      handed to the publisher) is an association list in insertion order; the
      [tasks] dict and the files of a repository are [gmap]s.
    - [async] functions are computations in a state-and-exception monad [M]
      whose state is the process memory together with the outside world
      (clock, GitHub, the replies of the HTTP endpoints).  Every run also
      returns the list of events it emitted, in order.
    - A coroutine is suspended only where the source awaits an HTTP request
      or asyncio.sleep; the PyGithub calls are synchronous.  CancelledError is
      a BaseException (Python 3.8 and later): [except Exception] lets it
      pass. *)

From Stdlib Require Import ZArith List String Ascii Bool Lia.
From stdpp Require Import base strings pretty gmap list.

Local Open Scope string_scope.

(** ** Python string operations used by the source *)

Module PyStr.

(** The double-quote character (code 34). *)
Definition dq : string :=
    String (Ascii false true false false false true false false) EmptyString.

(** chr(10) *)
Definition nl : string :=
    String (Ascii false true false true false false false false) EmptyString.

Definition lower_ascii (c : ascii) : ascii :=
    let n := nat_of_ascii c in
    if (65 <=? n)%nat && (n <=? 90)%nat then ascii_of_nat (n + 32) else c.

(** s.lower() on ASCII text: the letters A to Z are lowered and every other
    byte is kept.  (Python also lowers the letters outside ASCII.) *)
Fixpoint lower (s : string) : string :=
    match s with
    | EmptyString => EmptyString
    | String c s' => String (lower_ascii c) (lower s')
    end.

(** s.startswith(p) *)
Fixpoint startswith (p s : string) : bool :=
    match p, s with
    | EmptyString, _ => true
    | String _ _, EmptyString => false
    | String a p', String b s' => if ascii_dec a b then startswith p' s' else false
    end.

(** p in s *)
Fixpoint contains (p s : string) : bool :=
    startswith p s ||
    match s with
    | EmptyString => false
    | String _ s' => contains p s'
    end.

(** s[:n] on ASCII text, where a character is a byte. *)
Fixpoint take (n : nat) (s : string) : string :=
    match n, s with
    | O, _ => EmptyString
    | S _, EmptyString => EmptyString
    | S n', String c s' => String c (take n' s')
    end.

(** sep.join(l) *)
Fixpoint join (sep : string) (l : list string) : string :=
    match l with
    | [] => EmptyString
    | [x] => x
    | x :: l' => x +:+ sep +:+ join sep l'
    end.

(** s.isascii(): every character is below 128.  The operations of this
    module work on bytes; on text that is ASCII they are those of Python. *)
Fixpoint isascii (s : string) : bool :=
    match s with
    | EmptyString => true
    | String c s' => (nat_of_ascii c <? 128)%nat && isascii s'
    end.

End PyStr.

Import PyStr.

(** ** Data models *)

(** class Attachment(BaseModel) *)
Record Attachment := mkAttachment {
  att_name : string;
  att_url : string
}.

(** class TaskRequest(BaseModel) *)
Record TaskRequest := mkTaskRequest {
  email : string;
  secret : string;
  task : string;
  round : Z;
  nonce : string;
  brief : string;
  checks : list string;
  evaluation_url : string;
  attachments : list Attachment
}.

(** class TaskResponse(BaseModel): the notification payload. *)
Record TaskResponse := mkTaskResponse {
  resp_email : string;
  resp_task : string;
  resp_round : Z;
  resp_nonce : string;
  resp_repo_url : string;
  resp_commit_sha : string;
  resp_pages_url : string
}.

(** An artifact set, Dict[str, str], in insertion order. *)
Abbreviation Files := (list (string * string)).

(** ** Canned content: the literal texts of the source *)

Module Templates.

(** The calculator page of generate_fallback_app. *)
Definition calculator_html : string :=
  "<!DOCTYPE html>
<html lang=" +:+ dq +:+ "en" +:+ dq +:+ ">
<head>
    <meta charset=" +:+ dq +:+ "UTF-8" +:+ dq +:+ ">
    <meta name=" +:+ dq +:+ "viewport" +:+ dq +:+ " content=" +:+ dq +:+ "width=device-width, initial-scale=1.0" +:+ dq +:+ ">
    <title>Calculator</title>
    <style>
        .calculator {
            max-width: 300px;
            margin: 50px auto;
            padding: 20px;
            border: 1px solid #ccc;
            border-radius: 10px;
            background: #f9f9f9;
        }
        .display {
            width: 100%;
            height: 50px;
            margin-bottom: 15px;
            text-align: right;
            padding: 10px;
            font-size: 24px;
            border: 1px solid #ccc;
            border-radius: 5px;
            background: white;
        }
        .buttons {
            display: grid;
            grid-template-columns: repeat(4, 1fr);
            gap: 8px;
        }
        button {
            padding: 15px;
            font-size: 18px;
            border: 1px solid #ccc;
            border-radius: 5px;
            cursor: pointer;
            background: white;
        }
        button:hover {
            background-color: #e0e0e0;
        }
        .equals {
            background: #4CAF50;
            color: white;
        }
        .equals:hover {
            background: #45a049;
        }
    </style>
</head>
<body>
    <div class=" +:+ dq +:+ "calculator" +:+ dq +:+ ">
        <input type=" +:+ dq +:+ "text" +:+ dq +:+ " class=" +:+ dq +:+ "display" +:+ dq +:+ " id=" +:+ dq +:+ "display" +:+ dq +:+ " readonly>
        <div class=" +:+ dq +:+ "buttons" +:+ dq +:+ ">
            <button onclick=" +:+ dq +:+ "clearDisplay()" +:+ dq +:+ ">C</button>
            <button onclick=" +:+ dq +:+ "appendToDisplay('/')" +:+ dq +:+ ">/</button>
            <button onclick=" +:+ dq +:+ "appendToDisplay('*')" +:+ dq +:+ ">×</button>
            <button onclick=" +:+ dq +:+ "appendToDisplay('-')" +:+ dq +:+ ">-</button>
            <button onclick=" +:+ dq +:+ "appendToDisplay('7')" +:+ dq +:+ ">7</button>
            <button onclick=" +:+ dq +:+ "appendToDisplay('8')" +:+ dq +:+ ">8</button>
            <button onclick=" +:+ dq +:+ "appendToDisplay('9')" +:+ dq +:+ ">9</button>
            <button onclick=" +:+ dq +:+ "appendToDisplay('+')" +:+ dq +:+ ">+</button>
            <button onclick=" +:+ dq +:+ "appendToDisplay('4')" +:+ dq +:+ ">4</button>
            <button onclick=" +:+ dq +:+ "appendToDisplay('5')" +:+ dq +:+ ">5</button>
            <button onclick=" +:+ dq +:+ "appendToDisplay('6')" +:+ dq +:+ ">6</button>
            <button onclick=" +:+ dq +:+ "calculate()" +:+ dq +:+ " class=" +:+ dq +:+ "equals" +:+ dq +:+ " style=" +:+ dq +:+ "grid-row: span 2" +:+ dq +:+ ">=</button>
            <button onclick=" +:+ dq +:+ "appendToDisplay('1')" +:+ dq +:+ ">1</button>
            <button onclick=" +:+ dq +:+ "appendToDisplay('2')" +:+ dq +:+ ">2</button>
            <button onclick=" +:+ dq +:+ "appendToDisplay('3')" +:+ dq +:+ ">3</button>
            <button onclick=" +:+ dq +:+ "appendToDisplay('0')" +:+ dq +:+ " style=" +:+ dq +:+ "grid-column: span 2" +:+ dq +:+ ">0</button>
            <button onclick=" +:+ dq +:+ "appendToDisplay('.')" +:+ dq +:+ ">.</button>
        </div>
    </div>

    <script>
        function appendToDisplay(value) {
            document.getElementById('display').value += value;
        }

        function clearDisplay() {
            document.getElementById('display').value = '';
        }

        function calculate() {
            try {
                const expression = document.getElementById('display').value.replace('×', '*');
                const result = eval(expression);
                document.getElementById('display').value = result;
            } catch (error) {
                document.getElementById('display').value = 'Error';
            }
        }

        // Keyboard support
        document.addEventListener('keydown', function(event) {
            const key = event.key;
            if ('0123456789/*-+.'.includes(key)) {
                appendToDisplay(key);
            } else if (key === 'Enter') {
                calculate();
            } else if (key === 'Escape' || key === 'c' || key === 'C') {
                clearDisplay();
            } else if (key === 'Backspace') {
                const display = document.getElementById('display');
                display.value = display.value.slice(0, -1);
            }
        });
    </script>
</body>
</html>".

(** The captcha-solver page of generate_fallback_app. *)
Definition captcha_html : string :=
  "<!DOCTYPE html>
<html lang=" +:+ dq +:+ "en" +:+ dq +:+ ">
<head>
    <meta charset=" +:+ dq +:+ "UTF-8" +:+ dq +:+ ">
    <meta name=" +:+ dq +:+ "viewport" +:+ dq +:+ " content=" +:+ dq +:+ "width=device-width, initial-scale=1.0" +:+ dq +:+ ">
    <title>Captcha Solver</title>
    <style>
        body {
            font-family: Arial, sans-serif;
            max-width: 600px;
            margin: 50px auto;
            padding: 20px;
            background: #f5f5f5;
        }
        .container {
            background: white;
            border: 1px solid #ddd;
            padding: 30px;
            border-radius: 10px;
            box-shadow: 0 2px 10px rgba(0,0,0,0.1);
        }
        input, button {
            padding: 12px;
            margin: 8px 0;
            font-size: 16px;
            border: 1px solid #ccc;
            border-radius: 5px;
        }
        input {
            width: 70%;
        }
        button {
            background: #007bff;
            color: white;
            border: none;
            cursor: pointer;
        }
        button:hover {
            background: #0056b3;
        }
        #captchaImage {
            max-width: 100%;
            height: auto;
            border: 1px solid #ddd;
            margin: 15px 0;
            border-radius: 5px;
        }
        #result {
            margin-top: 15px;
            padding: 10px;
            border-radius: 5px;
            background: #e7f3ff;
        }
    </style>
</head>
<body>
    <div class=" +:+ dq +:+ "container" +:+ dq +:+ ">
        <h1>🔍 Captcha Solver</h1>
        <div>
            <label for=" +:+ dq +:+ "imageUrl" +:+ dq +:+ "><strong>Image URL:</strong></label><br>
            <input type=" +:+ dq +:+ "text" +:+ dq +:+ " id=" +:+ dq +:+ "imageUrl" +:+ dq +:+ " placeholder=" +:+ dq +:+ "Enter captcha image URL" +:+ dq +:+ ">
            <button onclick=" +:+ dq +:+ "loadImage()" +:+ dq +:+ ">Load Image</button>
        </div>
        <div id=" +:+ dq +:+ "imageContainer" +:+ dq +:+ "></div>
        <div>
            <label for=" +:+ dq +:+ "captchaText" +:+ dq +:+ "><strong>Captcha Text:</strong></label><br>
            <input type=" +:+ dq +:+ "text" +:+ dq +:+ " id=" +:+ dq +:+ "captchaText" +:+ dq +:+ " placeholder=" +:+ dq +:+ "Enter the text you see" +:+ dq +:+ ">
            <button onclick=" +:+ dq +:+ "solveCaptcha()" +:+ dq +:+ ">Solve Captcha</button>
        </div>
        <div id=" +:+ dq +:+ "result" +:+ dq +:+ "></div>
    </div>

    <script>
        function loadImage() {
            const url = document.getElementById('imageUrl').value;
            if (url) {
                const img = document.createElement('img');
                img.id = 'captchaImage';
                img.src = url;
                img.alt = 'Captcha Image';
                img.onerror = function() {
                    alert('❌ Failed to load image. Please check the URL.');
                };
                document.getElementById('imageContainer').innerHTML = '';
                document.getElementById('imageContainer').appendChild(img);
            }
        }

        function solveCaptcha() {
            const text = document.getElementById('captchaText').value;
            if (text) {
                document.getElementById('result').innerHTML = 
                    `<p>✅ Captcha solved: <strong>${text}</strong></p>`;
            } else {
                document.getElementById('result').innerHTML = 
                    '<p>❌ Please enter the captcha text</p>';
            }
        }

        // Load URL parameter if present
        const urlParams = new URLSearchParams(window.location.search);
        const imageUrl = urlParams.get('url');
        if (imageUrl) {
            document.getElementById('imageUrl').value = imageUrl;
            setTimeout(loadImage, 500);
        }
    </script>
</body>
</html>".

(** The markdown-converter page of generate_fallback_app. *)
Definition markdown_html : string :=
  "<!DOCTYPE html>
<html lang=" +:+ dq +:+ "en" +:+ dq +:+ ">
<head>
    <meta charset=" +:+ dq +:+ "UTF-8" +:+ dq +:+ ">
    <meta name=" +:+ dq +:+ "viewport" +:+ dq +:+ " content=" +:+ dq +:+ "width=device-width, initial-scale=1.0" +:+ dq +:+ ">
    <title>Markdown to HTML Converter</title>
    <style>
        body {
            font-family: Arial, sans-serif;
            max-width: 1000px;
            margin: 0 auto;
            padding: 20px;
            background: #f5f5f5;
        }
        .container {
            display: grid;
            grid-template-columns: 1fr 1fr;
            gap: 20px;
            margin-top: 20px;
        }
        .editor, .preview {
            background: white;
            border: 1px solid #ddd;
            border-radius: 8px;
            padding: 15px;
        }
        textarea {
            width: 100%;
            height: 400px;
            border: 1px solid #ccc;
            border-radius: 4px;
            padding: 10px;
            font-family: monospace;
            resize: vertical;
        }
        #preview {
            height: 400px;
            overflow-y: auto;
            border: 1px solid #ccc;
            border-radius: 4px;
            padding: 15px;
            background: #fafafa;
        }
        h1 {
            color: #333;
            text-align: center;
        }
    </style>
</head>
<body>
    <h1>📝 Markdown to HTML Converter</h1>
    <div class=" +:+ dq +:+ "container" +:+ dq +:+ ">
        <div class=" +:+ dq +:+ "editor" +:+ dq +:+ ">
            <h3>Markdown Input</h3>
            <textarea id=" +:+ dq +:+ "markdownInput" +:+ dq +:+ " placeholder=" +:+ dq +:+ "# Enter your markdown here...&#10;&#10;- List item 1&#10;- List item 2&#10;&#10;**Bold text** and *italic text*" +:+ dq +:+ "># Welcome to Markdown Converter

## Features
- Convert **markdown** to HTML
- Live preview
- Easy to use

### Try it out!
1. Type markdown on the left
2. See HTML preview on the right

**Enjoy!**</textarea>
        </div>
        <div class=" +:+ dq +:+ "preview" +:+ dq +:+ ">
            <h3>HTML Preview</h3>
            <div id=" +:+ dq +:+ "preview" +:+ dq +:+ "></div>
        </div>
    </div>

    <script>
        function convertMarkdown(md) {
            // Simple markdown to HTML conversion
            return md
                .replace(/^# (.*$)/gim, '<h1>$1</h1>')
                .replace(/^## (.*$)/gim, '<h2>$1</h2>')
                .replace(/^### (.*$)/gim, '<h3>$1</h3>')
                .replace(/\*\*(.*)\*\*/gim, '<strong>$1</strong>')
                .replace(/\*(.*)\*/gim, '<em>$1</em>')
                .replace(/^- (.*$)/gim, '<li>$1</li>')
                .replace(/(<li>.*<\/li>)/gims, '<ul>$1</ul>')
                .replace(/
/g, '<br>');
        }

        function updatePreview() {
            const markdown = document.getElementById('markdownInput').value;
            const html = convertMarkdown(markdown);
            document.getElementById('preview').innerHTML = html;
        }

        document.getElementById('markdownInput').addEventListener('input', updatePreview);

        // Initial preview
        updatePreview();
    </script>
</body>
</html>".

(** def generate_mit_license() *)
Definition generate_mit_license : string :=
  "MIT License

Copyright (c) 2024 Generated Application

Permission is hereby granted, free of charge, to any person obtaining a copy
of this software and associated documentation files (the " +:+ dq +:+ "Software" +:+ dq +:+ "), to deal
in the Software without restriction, including without limitation the rights
to use, copy, modify, merge, publish, distribute, sublicense, and/or sell
copies of the Software, and to permit persons to whom the Software is
furnished to do so, subject to the following conditions:

The above copyright notice and this permission notice shall be included in all
copies or substantial portions of the Software.

THE SOFTWARE IS PROVIDED " +:+ dq +:+ "AS IS" +:+ dq +:+ ", WITHOUT WARRANTY OF ANY KIND, EXPRESS OR
IMPLIED, INCLUDING BUT NOT LIMITED TO THE WARRANTIES OF MERCHANTABILITY,
FITNESS FOR A PARTICULAR PURPOSE AND NONINFRINGEMENT. IN NO EVENT SHALL THE
AUTHORS OR COPYRIGHT HOLDERS BE LIABLE FOR ANY CLAIM, DAMAGES OR OTHER
LIABILITY, WHETHER IN AN ACTION OF CONTRACT, TORT OR OTHERWISE, ARISING FROM,
OUT OF OR IN CONNECTION WITH THE SOFTWARE OR THE USE OR OTHER DEALINGS IN THE
SOFTWARE.".

(** def generate_gitignore() *)
Definition generate_gitignore : string :=
  "# Dependencies
node_modules/
.env

# Build outputs
dist/
build/

# OS files
.DS_Store
Thumbs.db

# IDE
.vscode/
.idea/
*.swp
*.swo

# Logs
*.log
".

(** def generate_fallback_html(brief) *)
Definition generate_fallback_html (brief : string) : string :=
    "<!DOCTYPE html>
<html lang=" +:+ dq +:+ "en" +:+ dq +:+ ">
<head>
    <meta charset=" +:+ dq +:+ "UTF-8" +:+ dq +:+ ">
    <meta name=" +:+ dq +:+ "viewport" +:+ dq +:+ " content=" +:+ dq +:+ "width=device-width, initial-scale=1.0" +:+ dq +:+ ">
    <title>Generated App - " +:+ take 50 brief +:+ "</title>
    <style>
        body {
            font-family: Arial, sans-serif;
            max-width: 800px;
            margin: 0 auto;
            padding: 20px;
            line-height: 1.6;
        }
        .container {
            background: #f5f5f5;
            padding: 20px;
            border-radius: 8px;
            margin-top: 20px;
        }
        h1 {
            color: #333;
        }
    </style>
</head>
<body>
    <h1>Generated Web Application</h1>
    <div class=" +:+ dq +:+ "container" +:+ dq +:+ ">
        <h2>Application Brief</h2>
        <p>" +:+ brief +:+ "</p>
        <p><em>This is a placeholder application. The AI code generation will be implemented next.</em></p>
    </div>

    <script>
        console.log('Application loaded for:', '" +:+ take 50 brief +:+ "');
    </script>
</body>
</html>".

(** generate_readme(brief, checks, task) *)
Definition generate_readme (brief : string) (checks : list string) (task : string) : string :=
    "# " +:+ task +:+ "

## Description
Automatically generated web application.

**Brief**: " +:+ brief +:+ "

## Features
- Responsive web application
- Deployed on GitHub Pages
- AI-generated code

## Evaluation Criteria
" +:+ join nl (map (fun check => "- " +:+ check) checks) +:+ "

## Setup
This is a static web application. No setup required.

## License
MIT License
".

(** generate_updated_readme(original_brief, modification_brief, task) *)
Definition generate_updated_readme (original_brief modification_brief task : string) : string :=
    "# " +:+ task +:+ "

## Description
Automatically generated and modified web application.

**Original Brief**: " +:+ original_brief +:+ "

**Modification**: " +:+ modification_brief +:+ "

## History
- **Round 1**: Initial application created
- **Round 2**: Application modified with new features

## License
MIT License
".

End Templates.

Import Templates.

(** def generate_fallback_app(request) *)
Definition generate_fallback_app (request : TaskRequest) : Files :=
  let brief_lower := lower (brief request) in
  let html_content :=
    if contains "calculator" brief_lower then calculator_html
    else if contains "captcha" brief_lower then captcha_html
    else if contains "markdown" brief_lower || contains "html" brief_lower then markdown_html
    else generate_fallback_html (brief request) in
  [ ("index.html", html_content);
    ("README.md", generate_readme (brief request) (checks request) (task request));
    ("LICENSE", generate_mit_license);
    (".gitignore", generate_gitignore) ].

(** ** Response parsing helpers *)

Module Extract.

(** str.isspace on one ASCII character: what str.strip() removes from ASCII
    text.  (Python also strips the white space outside ASCII.) *)
Definition is_space (c : ascii) : bool :=
  let n := nat_of_ascii c in
  ((9 <=? n)%nat && (n <=? 13)%nat) || ((28 <=? n)%nat && (n <=? 32)%nat).

Fixpoint lstrip (s : string) : string :=
  match s with
  | EmptyString => EmptyString
  | String c s' => if is_space c then lstrip s' else s
  end.

Fixpoint rstrip (s : string) : string :=
  match s with
  | EmptyString => EmptyString
  | String c s' =>
      match rstrip s' with
      | EmptyString => if is_space c then EmptyString else String c EmptyString
      | t => String c t
      end
  end.

(** s.strip() *)
Definition strip (s : string) : string := rstrip (lstrip s).

(** s.split(sep) for a non-empty sep: [skip] counts the characters of a
    separator just matched that are still to be dropped, [acc] is the current
    piece, reversed. *)
Fixpoint split_go (sep s : string) (acc : list ascii) (skip : nat) : list string :=
  match s with
  | EmptyString => [string_of_list_ascii (rev acc)]
  | String c s' =>
      match skip with
      | S k => split_go sep s' acc k
      | O =>
          if startswith sep s
          then string_of_list_ascii (rev acc) :: split_go sep s' [] (String.length sep - 1)
          else split_go sep s' (c :: acc) O
      end
  end.

Definition split (sep s : string) : list string := split_go sep s [] O.

(** One element of a list-valued content. *)
Inductive Item :=
| ItemText (text : string)   (* a dict with a 'text' entry *)
| ItemStr (s : string)       (* a str *)
| ItemOther.                 (* anything else: skipped *)

(** The [content] argument of extract_html_code, by the cases the function
    distinguishes.  Where the source applies str() to a value that need not
    be a string, the constructor carries the result of that str(). *)
Inductive Content :=
| ContentList (items : list Item)
| ContentDictText (text : string)      (* dict with 'text'; str(content['text']) *)
| ContentDictOutput (output : string)  (* dict with 'output' and no 'text' *)
| ContentDictOther (repr : string)     (* any other dict; str(content) *)
| ContentStr (s : string).             (* a str, or any other value through str() *)

Definition fence : string := "```".
Definition fence_html : string := "```html".

(** def extract_html_code(content) *)
Definition extract_html_code (content : Content) : string :=
  let content :=
    match content with
    | ContentList items =>
        fold_left (fun text_content item =>
                     match item with
                     | ItemText t => text_content +:+ t +:+ nl
                     | ItemStr s => text_content +:+ s +:+ nl
                     | ItemOther => text_content
                     end) items EmptyString
    | ContentDictText t => t
    | ContentDictOutput o => o
    | ContentDictOther r => r
    | ContentStr s => s
    end in
  let content :=
    if contains fence_html content
    then strip (nth 0 (split fence (nth 1 (split fence_html content) EmptyString)) EmptyString)
    else if contains fence content
    then strip (nth 0 (split fence (nth 1 (split fence content) EmptyString)) EmptyString)
    else content in
  if contains "<!DOCTYPE" content || contains "<html" content
  then strip content
  else strip content.

End Extract.

Import Extract.

(** ** The process state and the outside world *)

(** The value stored in [tasks] by round 1. *)
Record RoundRecord := mkRoundRecord {
  rec_repo_url : string;
  rec_email : string;
  rec_brief : string
}.

(** A GitHub repository as this program sees it: the files of branch main
    and the number of commits on it.  No other branch ever exists in a
    repository the program created. *)
Record Repo := mkRepo {
  repo_files : gmap string string;
  repo_commits : nat
}.

Record World := mkWorld {
  tasks : gmap string RoundRecord;  (* the module-level dict *)
  now : nat;                        (* time.time(), in seconds *)
  timer : option nat;               (* when the enclosing asyncio.wait_for fires *)
  github : gmap string Repo;        (* repositories on GitHub, by "owner/name" *)
  ai_posts : nat;                   (* requests made so far to the AI endpoint *)
  eval_posts : nat;                 (* requests made so far to evaluation urls *)
  gh_requests : nat                 (* requests made so far to the GitHub API *)
}.

Definition set_tasks (f : gmap string RoundRecord → gmap string RoundRecord) (w : World) : World :=
  mkWorld (f (tasks w)) (now w) (timer w) (github w) (ai_posts w) (eval_posts w) (gh_requests w).
Definition set_now (t : nat) (w : World) : World :=
  mkWorld (tasks w) t (timer w) (github w) (ai_posts w) (eval_posts w) (gh_requests w).
Definition set_timer (t : option nat) (w : World) : World :=
  mkWorld (tasks w) (now w) t (github w) (ai_posts w) (eval_posts w) (gh_requests w).
Definition set_github (f : gmap string Repo → gmap string Repo) (w : World) : World :=
  mkWorld (tasks w) (now w) (timer w) (f (github w)) (ai_posts w) (eval_posts w) (gh_requests w).
Definition bump_ai (w : World) : World :=
  mkWorld (tasks w) (now w) (timer w) (github w) (S (ai_posts w)) (eval_posts w) (gh_requests w).
Definition bump_eval (w : World) : World :=
  mkWorld (tasks w) (now w) (timer w) (github w) (ai_posts w) (S (eval_posts w)) (gh_requests w).
Definition bump_gh (w : World) : World :=
  mkWorld (tasks w) (now w) (timer w) (github w) (ai_posts w) (eval_posts w) (S (gh_requests w)).

(** Python exceptions, by the classes the except clauses of the source
    tell apart.  The string is str(e). *)
Inductive Exn :=
| Exception (msg : string)        (* Exception and its subclasses not listed below *)
| GithubException (msg : string)  (* github.GithubException *)
| TimeoutError                    (* asyncio.TimeoutError *)
| HTTPException (status_code : Z) (detail : string)
| CancelledError.                 (* asyncio.CancelledError, a BaseException *)

(** isinstance(e, Exception) *)
Definition is_Exception (e : Exn) : bool :=
  match e with CancelledError => false | _ => true end.

(** str(e) *)
Definition str (e : Exn) : string :=
  match e with
  | Exception msg => msg
  | GithubException msg => msg
  | TimeoutError => EmptyString
  | HTTPException c d => pretty c +:+ ": " +:+ d
  | CancelledError => EmptyString
  end.

(** What an HTTP client call comes back with. *)
Inductive HttpReply (B : Type) :=
| HttpResponse (status_code : Z) (body : B)
| HttpError (msg : string).   (* httpx raises: no connection, timeout, ...; str(e) *)
Arguments HttpResponse {B} _ _.
Arguments HttpError {B} _.

(** A 200 body of the AI endpoint, by the cases the source distinguishes. *)
Inductive AiJson :=
| JsonOutput (content : Content)   (* "output" in result *)
| JsonChoices (content : Content)  (* non-empty "choices"; choices[0].message.content *)
| JsonOther (repr : string)        (* neither; str(result) *)
| JsonRaises (msg : string)        (* response.json() raises *)
| JsonBadShape (msg : string).     (* inspecting the decoded value raises *)

(** CONFIG *)
Record Config := mkConfig {
  SECRET : string;
  GITHUB_TOKEN : option string;
  AIPIPE_API_KEY : option string
}.

(** Everything outside the process that the program depends on. *)
Record Env := mkEnv {
  CONFIG : Config;
  ai_server : nat → HttpReply AiJson;  (* reply to the n-th request *)
  ai_latency : nat → nat;              (* and how long it takes *)
  eval_server : nat → HttpReply unit;
  eval_latency : nat → nat;
  gh_fault : nat → option string;      (* the n-th GitHub request fails for an outside reason *)
  gh_latency : nat → nat;
  gh_login : string;                   (* login of the owner of GITHUB_TOKEN *)
  generate_repo_name : string → Z → nat → string;
    (* generate_repo_name(task, round) at a given time: cleaned task name
       and 8 hex digits of an md5 over task, round and datetime.now() *)
  sha_of_commit : string → nat → string  (* sha of the n-th commit of a repository *)
}.

(** MAX_PROCESSING_TIME = 9 * 60 *)
Definition MAX_PROCESSING_TIME : nat := 9 * 60.
(** TASK_TIMEOUT = 60 * 8 *)
Definition TASK_TIMEOUT : nat := 60 * 8.

(** ** Events *)

Inductive Level := INFO | WARNING | ERROR.

(** The logger calls of the source, one constructor per message. *)
Inductive LogMsg :=
(* handle_task, store_received_task *)
| ReceivedTask (task : string) (round : Z)
| InvalidSecretAttempt (secret : string)
| ImmediateOkSent
| StoreFailed (msg : string)
(* process_task_with_deadline *)
| StartingBackground
| TaskCompleted (secs : nat)
| TaskTimedOut
| TaskFailed (msg : string)
| DeadlineMissed (total : nat)
(* process_round1, process_round2 *)
| ProcessingRound1 (task : string)
| ProcessingRound2 (task : string)
(* generate_app_with_ai, modify_existing_app *)
| AiNotConfigured
| AiResponseReceived
| AiSuccessOutput
| AiSuccessChoices
| AiUnexpectedFormat (repr : string)
| AiReturnedStatus (status_code : Z)
| AiConnectionFailed (msg : string)
| AiApiError (status_code : Z)
| AiModificationFailed (msg : string)
(* create_github_repository *)
| CreatingRepository (task : string)
| RepositoryName (name : string)
| RepositoryCreated (url : string)
| FileCreated (filename : string)
| EnablingPages
| PagesViaDocs
| PagesDocsFailed (msg : string)
| PagesViaBranch
| PagesBranchFailed (msg : string)
| NoJekyllAdded
| NoJekyllFailed (msg : string)
| SetupComplete (url : string)
| PagesUrl (url : string)
| GithubApiError (msg : string)
| UnexpectedCreateError (msg : string)
(* update_github_repository, get_existing_code_from_github *)
| UpdatingRepository (task : string)
| FoundRepository (url : string)
| FileUpdated (filename : string)
| NewFileCreated (filename : string)
| UpdateFailed (msg : string)
| IndexNotFound
| GetExistingFailed (msg : string)
(* send_evaluation *)
| SendingEvaluation (url : string)
| EvaluationSent (url : string)
| EvaluationReturned (status_code : Z)
| AttemptFailed (number : nat) (msg : string)
| Retrying (delay : nat)
| EvaluationGaveUp.

(** The functions of the source whose calls are recorded. *)
Inductive Fn :=
| FnStoreReceivedTask
| FnProcessTaskWithDeadline
| FnProcessRound1
| FnProcessRound2
| FnGenerateAppWithAi
| FnModifyExistingApp
| FnGetExistingCode
| FnCreateGithubRepository
| FnUpdateGithubRepository
| FnSendEvaluation.

Inductive Branch := BranchMain | BranchGhPages.

(** Requests to the GitHub API (through PyGithub). *)
Inductive GhOp :=
| GhCreateRepo (name : string)
| GhGetRepo (full_name : string)
| GhGetUser
| GhCreateFile (repo path content : string) (branch : Branch)
| GhGetContents (repo path : string)
| GhUpdateFile (repo path content : string)
| GhGetCommits (repo : string).

(** The acknowledgment returned by handle_task. *)
Record TaskAck := mkTaskAck {
  status : string;
  message : string;
  ack_task : string;
  ack_round : Z
}.

(** The awaits of the source at which a coroutine is really suspended. *)
Inductive Suspension :=
| AwaitAiPost       (* client.post to the AI endpoint *)
| AwaitPagesSleep   (* asyncio.sleep(3) of create_github_repository *)
| AwaitEvalPost     (* client.post to the evaluation url *)
| AwaitRetrySleep.  (* asyncio.sleep(delay) of send_evaluation *)

Inductive Event :=
| Log (level : Level) (msg : LogMsg)
| Call (f : Fn)                                   (* the body of f starts *)
| AiPost (n : nat)                                (* POST to the AI endpoint starts *)
| EvalPost (url : string) (payload : TaskResponse)  (* POST to the callback starts *)
| Github (op : GhOp)                              (* a GitHub API request starts *)
| Sleep (secs : nat)                              (* asyncio.sleep starts *)
| Cancelled (at_await : Suspension)               (* the wait_for timer cancels the pending await *)
| Responded (ack : TaskAck)                       (* the 200 response leaves the server *)
| Rejected (status_code : Z) (detail : string).   (* an error response leaves the server *)

(** Calls of the Content Generator, the Repository Publisher, the Notifier. *)
Definition is_generator_call (e : Event) : bool :=
  match e with Call FnGenerateAppWithAi | Call FnModifyExistingApp => true | _ => false end.
Definition is_publisher_call (e : Event) : bool :=
  match e with Call FnCreateGithubRepository | Call FnUpdateGithubRepository => true | _ => false end.
Definition is_notifier_call (e : Event) : bool :=
  match e with Call FnSendEvaluation => true | _ => false end.
Definition is_eval_post (e : Event) : bool :=
  match e with EvalPost _ _ => true | _ => false end.

(** ** The monad of the pipeline *)

(** A run: the events emitted, the world afterwards, and either the
    exception raised or the value returned. *)
Record Run (A : Type) := mkRun {
  events : list Event;
  world : World;
  result : Exn + A
}.
Arguments mkRun {A} _ _ _.
Arguments events {A} _.
Arguments world {A} _.
Arguments result {A} _.

Definition M (A : Type) : Type := World → Run A.

Definition ret {A} (a : A) : M A := λ w, mkRun [] w (inr a).

(** The run [r] with the events [evs] put before its own. *)
Definition after {A} (evs : list Event) (r : Run A) : Run A :=
  match r with
  | mkRun evs' w res => mkRun (evs ++ evs') w res
  end.

Definition bind {A B} (m : M A) (k : A → M B) : M B := λ w,
  match m w with
  | mkRun evs w1 (inl e) => mkRun evs w1 (inl e)
  | mkRun evs w1 (inr a) => after evs (k a w1)
  end.

#[global] Instance M_ret : MRet M := @ret.
#[global] Instance M_bind : MBind M := λ A B k m, bind m k.

(** raise e *)
Definition raise {A} (e : Exn) : M A := λ w, mkRun [] w (inl e).

(** try: m except ...: the handler picks the clause that catches e, or
    None when no clause does. *)
Definition try_except {A} (m : M A) (handler : Exn → option (M A)) : M A := λ w,
  match m w with
  | mkRun evs w1 (inl e) =>
      match handler e with
      | Some k => after evs (k w1)
      | None => mkRun evs w1 (inl e)
      end
  | mkRun evs w1 (inr a) => mkRun evs w1 (inr a)
  end.

(** except Exception as e: *)
Definition except_Exception {A} (k : Exn → M A) (e : Exn) : option (M A) :=
  if is_Exception e then Some (k e) else None.

Definition emit (e : Event) : M unit := λ w, mkRun [e] w (inr tt).
Definition log (level : Level) (msg : LogMsg) : M unit := emit (Log level msg).
Definition get_world : M World := λ w, mkRun [] w (inr w).
Definition modify (f : World → World) : M unit := λ w, mkRun [] (f w) (inr tt).

(** time.time() *)
Definition time : M nat := λ w, mkRun [] w (inr (now w)).

(** A synchronous call lasting d seconds.  It holds the event loop, so the
    timer of wait_for cannot fire inside it. *)
Definition block (d : nat) : M unit := modify (λ w, set_now (now w + d) w).

(** Awaiting something that completes after d seconds.  If the timer of the
    enclosing wait_for fires no later than that, the coroutine is cancelled
    here instead: CancelledError is raised at this await. *)
Definition await (site : Suspension) (d : nat) : M unit := λ w,
  match timer w with
  | Some t =>
      if (t <=? now w + d)%nat
      then mkRun [Cancelled site] (set_now (now w `max` t) w) (inl CancelledError)
      else mkRun [] (set_now (now w + d) w) (inr tt)
  | None => mkRun [] (set_now (now w + d) w) (inr tt)
  end.

(** await asyncio.sleep(secs) *)
Definition sleep (site : Suspension) (secs : nat) : M unit :=
  emit (Sleep secs) ;; await site secs.

(** await asyncio.wait_for(m, timeout): m runs with the timer armed; a
    cancellation by the timer comes out as TimeoutError. *)
Definition wait_for {A} (m : M A) (timeout : nat) : M A := λ w,
  match m (set_timer (Some (now w + timeout)) w) with
  | mkRun evs w1 res =>
      mkRun evs (set_timer (timer w) w1)
            match res with
            | inl CancelledError => inl TimeoutError
            | x => x
            end
  end.

(** ** The collaborators *)

Section Pipeline.

Variable env : Env.

(** await client.post(CONFIG["AIPIPE_API_URL"], ...): the reply depends on
    the endpoint, not on the model; the prompt is therefore not represented. *)
Definition ai_post : M (Z * AiJson) :=
  w ← get_world;
  let n := ai_posts w in
  emit (AiPost n) ;;
  modify bump_ai ;;
  await AwaitAiPost (ai_latency env n) ;;
  match ai_server env n with
  | HttpResponse status_code body => mret (status_code, body)
  | HttpError msg => raise (Exception msg)
  end.

(** await client.post(evaluation_url, json=response.dict(), ...) *)
Definition eval_post (evaluation_url : string) (response : TaskResponse) : M Z :=
  w ← get_world;
  let n := eval_posts w in
  emit (EvalPost evaluation_url response) ;;
  modify bump_eval ;;
  await AwaitEvalPost (eval_latency env n) ;;
  match eval_server env n with
  | HttpResponse status_code _ => mret status_code
  | HttpError msg => raise (Exception msg)
  end.

(** One request of PyGithub: synchronous; it may fail for reasons outside
    the repository state (network, rate limit, credentials). *)
Definition gh_request (op : GhOp) : M unit :=
  w ← get_world;
  let n := gh_requests w in
  emit (Github op) ;;
  modify bump_gh ;;
  block (gh_latency env n) ;;
  match gh_fault env n with
  | Some msg => raise (GithubException msg)
  | None => mret tt
  end.

Definition html_url (full_name : string) : string :=
  "https://github.com/" +:+ full_name.

(** user.create_repo(name=..., private=False, auto_init=False); the result
    stands for the Repository object and is its full name. *)
Definition gh_create_repo (name : string) : M string :=
  gh_request (GhCreateRepo name) ;;
  w ← get_world;
  let full_name := gh_login env +:+ "/" +:+ name in
  match github w !! full_name with
  | Some _ => raise (GithubException "422 name already exists on this account")
  | None =>
      modify (set_github (insert full_name (mkRepo ∅ 0))) ;;
      mret full_name
  end.

(** gh.get_repo(full_name) *)
Definition gh_get_repo (full_name : string) : M string :=
  gh_request (GhGetRepo full_name) ;;
  w ← get_world;
  match github w !! full_name with
  | Some _ => mret full_name
  | None => raise (GithubException "404 Not Found")
  end.

(** user.login *)
Definition gh_user_login : M string :=
  gh_request GhGetUser ;; mret (gh_login env).

(** repo.create_file(path, message, content, branch) *)
Definition gh_create_file (repo path content : string) (branch : Branch) : M unit :=
  gh_request (GhCreateFile repo path content branch) ;;
  w ← get_world;
  match github w !! repo with
  | None => raise (GithubException "404 Not Found")
  | Some r =>
      match branch with
      | BranchGhPages => raise (GithubException "404 Branch gh-pages not found")
      | BranchMain =>
          match repo_files r !! path with
          | Some _ => raise (GithubException "422 Invalid request: sha was not supplied")
          | None =>
              modify (set_github (insert repo
                (mkRepo (<[path := content]> (repo_files r)) (S (repo_commits r)))))
          end
      end
  end.

(** repo.get_contents(path): the content of the file (its sha is kept by
    the returned object and handed back to update_file). *)
Definition gh_get_contents (repo path : string) : M string :=
  gh_request (GhGetContents repo path) ;;
  w ← get_world;
  match github w !! repo with
  | None => raise (GithubException "404 Not Found")
  | Some r =>
      match repo_files r !! path with
      | Some content => mret content
      | None => raise (GithubException "404 Not Found")
      end
  end.

(** repo.update_file(path, message, content, sha=existing_file.sha, branch="main") *)
Definition gh_update_file (repo path content : string) : M unit :=
  gh_request (GhUpdateFile repo path content) ;;
  w ← get_world;
  match github w !! repo with
  | None => raise (GithubException "404 Not Found")
  | Some r =>
      match repo_files r !! path with
      | None => raise (GithubException "404 Not Found")
      | Some _ =>
          modify (set_github (insert repo
            (mkRepo (<[path := content]> (repo_files r)) (S (repo_commits r)))))
      end
  end.

(** repo.get_commits()[0].sha *)
Definition gh_latest_commit_sha (repo : string) : M string :=
  gh_request (GhGetCommits repo) ;;
  w ← get_world;
  match github w !! repo with
  | None => raise (GithubException "404 Not Found")
  | Some r =>
      match repo_commits r with
      | O => raise (GithubException "409 Git Repository is empty.")
      | S _ => mret (sha_of_commit env repo (repo_commits r))
      end
  end.

(** repo_url.split("/")[-1] and repo_url.split("/")[-2], joined as
    f"{username}/{repo_name}"; IndexError when the url has no "/". *)
Definition repo_of_url (repo_url : string) : M (string * string) :=
  match rev (split "/" repo_url) with
  | repo_name :: username :: _ => mret (username, repo_name)
  | _ => raise (Exception "list index out of range")
  end.

(** ** The functions of app.py *)

(** def store_received_task(request).  app.py never imports sqlite3, so the
    first statement that mentions it raises NameError inside the try; the
    handler logs it and the function returns. *)
Definition store_received_task (request : TaskRequest) : M unit :=
  emit (Call FnStoreReceivedTask) ;;
  try_except
    (raise (Exception "name 'sqlite3' is not defined"))
    (except_Exception (λ e, log WARNING (StoreFailed (str e)))).

(** The key test of generate_app_with_ai:
    not CONFIG["AIPIPE_API_KEY"] or CONFIG["AIPIPE_API_KEY"] == "your_aipipe_key_here" *)
Definition ai_not_configured (key : option string) : bool :=
  match key with
  | None => true
  | Some k => String.eqb k EmptyString || String.eqb k "your_aipipe_key_here"
  end.

(** The dict returned by generate_app_with_ai on success. *)
Definition generated_files (request : TaskRequest) (html_content : string) : Files :=
  [ ("index.html", html_content);
    ("README.md", generate_readme (brief request) (checks request) (task request));
    ("LICENSE", generate_mit_license);
    (".gitignore", generate_gitignore) ].

(** async def generate_app_with_ai(request) *)
Definition generate_app_with_ai (request : TaskRequest) : M Files :=
  emit (Call FnGenerateAppWithAi) ;;
  if ai_not_configured (AIPIPE_API_KEY (CONFIG env)) then
    log INFO AiNotConfigured ;;
    mret (generate_fallback_app request)
  else
    try_except
      ('(status_code, result) ← ai_post;
       if (status_code =? 200)%Z then
         match result with
         | JsonRaises msg => raise (Exception msg)
         | JsonBadShape msg =>
             log INFO AiResponseReceived ;;
             raise (Exception msg)
         | JsonOutput content =>
             log INFO AiResponseReceived ;;
             let html_content := extract_html_code content in
             log INFO AiSuccessOutput ;;
             mret (generated_files request html_content)
         | JsonChoices content =>
             log INFO AiResponseReceived ;;
             let html_content := extract_html_code content in
             log INFO AiSuccessChoices ;;
             mret (generated_files request html_content)
         | JsonOther repr =>
             log INFO AiResponseReceived ;;
             log WARNING (AiUnexpectedFormat repr) ;;
             mret (generate_fallback_app request)
         end
       else
         log WARNING (AiReturnedStatus status_code) ;;
         mret (generate_fallback_app request))
      (except_Exception (λ e,
         log WARNING (AiConnectionFailed (str e)) ;;
         mret (generate_fallback_app request))).

(** async def get_existing_code_from_github(repo_url) *)
Definition get_existing_code_from_github (repo_url : string) : M Files :=
  emit (Call FnGetExistingCode) ;;
  try_except
    ('(username, repo_name) ← repo_of_url repo_url;
     repo ← gh_get_repo (username +:+ "/" +:+ repo_name);
     try_except
       (html_content ← gh_get_contents repo "index.html";
        mret [("index.html", html_content)])
       (λ _, Some (log WARNING IndexNotFound ;; mret [])))
    (except_Exception (λ e,
       log ERROR (GetExistingFailed (str e)) ;;
       mret [])).

(** async def modify_existing_app(request, round1_data) *)
Definition modify_existing_app (request : TaskRequest) (round1_data : RoundRecord) : M Files :=
  emit (Call FnModifyExistingApp) ;;
  existing_code ← get_existing_code_from_github (rec_repo_url round1_data);
  try_except
    ('(status_code, result) ← ai_post;
     (if negb (status_code =? 200)%Z then
        log ERROR (AiApiError status_code) ;;
        raise (Exception "AIPipe API request failed")
      else mret tt) ;;
     updated_html ←
       match result with
       | JsonRaises msg => raise (Exception msg)
       | JsonBadShape msg => raise (Exception msg)
       | JsonOutput content => mret (extract_html_code content)
       | JsonChoices content => mret (extract_html_code content)
       | JsonOther repr => mret (extract_html_code (ContentStr repr))
       end;
     mret [ ("index.html", updated_html);
            ("README.md",
             generate_updated_readme (rec_brief round1_data) (brief request) (task request)) ])
    (except_Exception (λ e,
       log ERROR (AiModificationFailed (str e)) ;;
       raise (Exception ("Failed to modify application: " +:+ str e)))).

(** The dict returned by the two publishing functions. *)
Record PublishInfo := mkPublishInfo {
  repo_url : string;
  commit_sha : string;
  pages_url : string
}.

(** for filename, content in files.items(): repo.create_file(...) *)
Fixpoint create_all_files (repo : string) (files : Files) : M unit :=
  match files with
  | [] => mret tt
  | (filename, content) :: rest =>
      gh_create_file repo filename content BranchMain ;;
      log INFO (FileCreated filename) ;;
      create_all_files repo rest
  end.

(** The loop variable [content] once the loop is over: the content of the
    last file, and unbound when there was no file. *)
Definition content_after_loop (files : Files) : option string :=
  last (map snd files).

Definition read_content (content : option string) : M string :=
  match content with
  | Some c => mret c
  | None => raise (Exception "local variable 'content' referenced before assignment")
  end.

(** The "Enable GitHub Pages" block of create_github_repository: three
    nested attempts, each failure logged. *)
Definition enable_pages (repo : string) (content : option string) : M unit :=
  log INFO EnablingPages ;;
  try_except
    (c ← read_content content;
     gh_create_file repo "docs/index.html" c BranchMain ;;
     log INFO PagesViaDocs)
    (except_Exception (λ e,
       log WARNING (PagesDocsFailed (str e)) ;;
       try_except
         (c ← read_content content;
          gh_create_file repo "index.html" c BranchGhPages ;;
          log INFO PagesViaBranch)
         (except_Exception (λ e2,
            log WARNING (PagesBranchFailed (str e2)) ;;
            try_except
              (gh_create_file repo ".nojekyll" EmptyString BranchMain ;;
               log INFO NoJekyllAdded)
              (except_Exception (λ e3,
                 log WARNING (NoJekyllFailed (str e3)))))))).

(** not CONFIG["GITHUB_TOKEN"] *)
Definition token_missing (token : option string) : bool :=
  match token with
  | None => true
  | Some t => String.eqb t EmptyString
  end.

(** async def create_github_repository(request, files) *)
Definition create_github_repository (request : TaskRequest) (files : Files) : M PublishInfo :=
  emit (Call FnCreateGithubRepository) ;;
  try_except
    ((if token_missing (GITHUB_TOKEN (CONFIG env))
      then raise (Exception "GitHub token not configured")
      else mret tt) ;;
     log INFO (CreatingRepository (task request)) ;;
     w ← get_world;
     let repo_name := generate_repo_name env (task request) (round request) (now w) in
     log INFO (RepositoryName repo_name) ;;
     repo ← gh_create_repo repo_name;
     log INFO (RepositoryCreated (html_url repo)) ;;
     create_all_files repo files ;;
     enable_pages repo (content_after_loop files) ;;
     sleep AwaitPagesSleep 3 ;;
     latest_commit ← gh_latest_commit_sha repo;
     login ← gh_user_login;
     let pages := "https://" +:+ login +:+ ".github.io/" +:+ repo_name in
     log INFO (SetupComplete (html_url repo)) ;;
     log INFO (PagesUrl pages) ;;
     mret (mkPublishInfo (html_url repo) latest_commit pages))
    (λ e,
       match e with
       | GithubException _ =>
           Some (log ERROR (GithubApiError (str e)) ;;
                 raise (Exception ("GitHub operation failed: " +:+ str e)))
       | _ =>
           except_Exception (λ e,
             log ERROR (UnexpectedCreateError (str e)) ;;
             raise (Exception ("Failed to create repository: " +:+ str e))) e
       end).

(** except GithubException: *)
Definition except_GithubException {A} (k : M A) (e : Exn) : option (M A) :=
  match e with
  | GithubException _ => Some k
  | _ => None
  end.

(** The "Update each file" loop of update_github_repository. *)
Fixpoint update_all_files (repo : string) (files : Files) : M unit :=
  match files with
  | [] => mret tt
  | (filename, new_content) :: rest =>
      try_except
        (existing_file ← gh_get_contents repo filename;
         gh_update_file repo filename new_content ;;
         log INFO (FileUpdated filename))
        (except_GithubException
           (gh_create_file repo filename new_content BranchMain ;;
            log INFO (NewFileCreated filename))) ;;
      update_all_files repo rest
  end.

(** async def update_github_repository(request, files) *)
Definition update_github_repository (request : TaskRequest) (files : Files) : M PublishInfo :=
  emit (Call FnUpdateGithubRepository) ;;
  try_except
    (log INFO (UpdatingRepository (task request)) ;;
     w ← get_world;
     round1_data ←
       match tasks w !! task request with
       | Some r => mret r
       | None => raise (Exception ("'" +:+ task request +:+ "'"))   (* KeyError *)
       end;
     '(username, repo_name) ← repo_of_url (rec_repo_url round1_data);
     repo ← gh_get_repo (username +:+ "/" +:+ repo_name);
     log INFO (FoundRepository (html_url repo)) ;;
     update_all_files repo files ;;
     latest_commit ← gh_latest_commit_sha repo;
     mret (mkPublishInfo (html_url repo) latest_commit
             ("https://" +:+ username +:+ ".github.io/" +:+ repo_name)))
    (except_Exception (λ e,
       log ERROR (UpdateFailed (str e)) ;;
       raise (Exception ("Failed to update repository: " +:+ str e)))).

(** The body of [for attempt in range(3)] of send_evaluation, over the
    attempts still to make. *)
Fixpoint send_attempts (response : TaskResponse) (evaluation_url : string)
    (attempts : list nat) : M unit :=
  match attempts with
  | [] => log ERROR EvaluationGaveUp
  | attempt :: rest =>
      sent ← try_except
        (status_code ← eval_post evaluation_url response;
         if (status_code =? 200)%Z then
           log INFO (EvaluationSent evaluation_url) ;;
           mret true                                (* return *)
         else
           log WARNING (EvaluationReturned status_code) ;;
           mret false)
        (except_Exception (λ e,
           log WARNING (AttemptFailed (attempt + 1) (str e)) ;;
           mret false));
      if sent : bool then mret tt
      else
        (if (attempt <? 2)%nat then
           log INFO (Retrying 1) ;;
           sleep AwaitRetrySleep 1
         else mret tt) ;;
        send_attempts response evaluation_url rest
  end.

(** async def send_evaluation(response, evaluation_url) *)
Definition send_evaluation (response : TaskResponse) (evaluation_url : string) : M unit :=
  emit (Call FnSendEvaluation) ;;
  log INFO (SendingEvaluation evaluation_url) ;;
  send_attempts response evaluation_url (seq 0 3).

(** async def process_round1(request) *)
Definition process_round1 (request : TaskRequest) : M unit :=
  emit (Call FnProcessRound1) ;;
  log INFO (ProcessingRound1 (task request)) ;;
  app_files ← generate_app_with_ai request;
  repo_info ← create_github_repository request app_files;
  modify (set_tasks (insert (task request)
    (mkRoundRecord (repo_url repo_info) (email request) (brief request)))) ;;
  let response :=
    mkTaskResponse (email request) (task request) 1 (nonce request)
      (repo_url repo_info) (commit_sha repo_info) (pages_url repo_info) in
  send_evaluation response (evaluation_url request).

(** async def process_round2(request) *)
Definition process_round2 (request : TaskRequest) : M unit :=
  emit (Call FnProcessRound2) ;;
  log INFO (ProcessingRound2 (task request)) ;;
  w ← get_world;
  match tasks w !! task request with
  | None => raise (Exception "No Round 1 data found for this task")
  | Some round1_data =>
      updated_files ← modify_existing_app request round1_data;
      repo_info ← update_github_repository request updated_files;
      let response :=
        mkTaskResponse (email request) (task request) 2 (nonce request)
          (repo_url repo_info) (commit_sha repo_info) (pages_url repo_info) in
      send_evaluation response (evaluation_url request)
  end.

(** async def process_task_with_deadline(request).  The try block yields
    true when it runs to its end and false when a handler returned. *)
Definition process_task_with_deadline (request : TaskRequest) : M unit :=
  emit (Call FnProcessTaskWithDeadline) ;;
  start_time ← time;
  log INFO StartingBackground ;;
  completed ← try_except
    ((if (round request =? 1)%Z
      then wait_for (process_round1 request) TASK_TIMEOUT
      else wait_for (process_round2 request) TASK_TIMEOUT) ;;
     t ← time;
     log INFO (TaskCompleted (t - start_time)) ;;
     mret true)
    (λ e,
       match e with
       | TimeoutError => Some (log ERROR TaskTimedOut ;; mret false)
       | _ => except_Exception (λ e, log ERROR (TaskFailed (str e)) ;; mret false) e
       end);
  if completed : bool then
    t ← time;
    let total_time := t - start_time in
    if (MAX_PROCESSING_TIME <? total_time)%nat
    then log ERROR (DeadlineMissed total_time)
    else mret tt
  else mret tt.

(** What BackgroundTasks holds: the functions to call once the response
    has been sent, with their arguments. *)
Inductive BackgroundTask :=
| BgProcessTaskWithDeadline (request : TaskRequest).

(** async def handle_task(request, background_tasks).  add_task appends to
    the BackgroundTasks object; the function returns that object's new
    content next to its own return value. *)
Definition handle_task (request : TaskRequest) (background_tasks : list BackgroundTask)
    : M (TaskAck * list BackgroundTask) :=
  log INFO (ReceivedTask (task request) (round request)) ;;
  if negb (String.eqb (secret request) (SECRET (CONFIG env))) then
    log WARNING (InvalidSecretAttempt (secret request)) ;;
    raise (HTTPException 401 "Invalid secret")
  else
    store_received_task request ;;
    let background_tasks := (background_tasks ++ [BgProcessTaskWithDeadline request])%list in
    log INFO ImmediateOkSent ;;
    mret (mkTaskAck "accepted"
            ("Round " +:+ pretty (round request) +:+ " processing started")
            (task request) (round request),
          background_tasks).

(** ** The request cycle of the framework

    How the ASGI server drives the route, after Starlette's BackgroundTasks:
    the endpoint runs; an HTTPException becomes an error response; otherwise
    the response is sent and only then the background tasks run, in order. *)

Definition run_background (t : BackgroundTask) : M unit :=
  match t with
  | BgProcessTaskWithDeadline request => process_task_with_deadline request
  end.

Fixpoint run_all_background (l : list BackgroundTask) : M unit :=
  match l with
  | [] => mret tt
  | t :: rest => run_background t ;; run_all_background rest
  end.

Definition post_api_task (request : TaskRequest) : M unit :=
  try_except
    ('(ack, background_tasks) ← handle_task request [];
     emit (Responded ack) ;;
     run_all_background background_tasks)
    (λ e,
       match e with
       | HTTPException status_code detail => Some (emit (Rejected status_code detail))
       | _ => None
       end).

End Pipeline.

(** ** Repository names *)

Module RepoName.

(** A character of the class [a-zA-Z0-9-]. *)
Definition is_name_char (c : ascii) : bool :=
  let n := nat_of_ascii c in
  ((97 <=? n)%nat && (n <=? 122)%nat) || ((65 <=? n)%nat && (n <=? 90)%nat)
  || ((48 <=? n)%nat && (n <=? 57)%nat) || (n =? 45)%nat.

Definition is_dash (c : ascii) : bool := (nat_of_ascii c =? 45)%nat.

(** re.sub(r'[^a-zA-Z0-9-]', '-', s) *)
Fixpoint sub_others (s : string) : string :=
  match s with
  | EmptyString => EmptyString
  | String c s' => String (if is_name_char c then c else "-"%char) (sub_others s')
  end.

Definition starts_with_dash (s : string) : bool :=
  match s with
  | EmptyString => false
  | String c _ => is_dash c
  end.

(** re.sub(r'-+', '-', s): of a run of dashes the last one is kept. *)
Fixpoint squeeze (s : string) : string :=
  match s with
  | EmptyString => EmptyString
  | String c s' =>
      if is_dash c && starts_with_dash s' then squeeze s' else String c (squeeze s')
  end.

Fixpoint lstrip_dash (s : string) : string :=
  match s with
  | EmptyString => EmptyString
  | String c s' => if is_dash c then lstrip_dash s' else s
  end.

Fixpoint rstrip_dash (s : string) : string :=
  match s with
  | EmptyString => EmptyString
  | String c s' =>
      match rstrip_dash s' with
      | EmptyString => if is_dash c then EmptyString else String c EmptyString
      | t => String c t
      end
  end.

(** s.strip('-') *)
Definition strip_dash (s : string) : string := rstrip_dash (lstrip_dash s).

(** The two re.sub lines of generate_repo_name, for a task id of ASCII text. *)
Definition clean_task (task : string) : string :=
  strip_dash (squeeze (sub_others (lower task))).

(** f"{task}-{round_num}-{datetime.now().isoformat()}" *)
Definition hash_input (task : string) (round_num : Z) (now_iso : string) : string :=
  task +:+ "-" +:+ pretty round_num +:+ "-" +:+ now_iso.

(** def generate_repo_name(task, round_num), for a given hashlib.md5(..).hexdigest()
    and a given text of datetime.now().isoformat(). *)
Definition generate_repo_name (md5_hexdigest : string → string) (now_iso : string)
    (task : string) (round_num : Z) : string :=
  let clean_task := clean_task task in
  let task_hash := take 8 (md5_hexdigest (hash_input task round_num now_iso)) in
  take 100 (clean_task +:+ "-" +:+ task_hash).

End RepoName.

(** ** The read-only endpoints *)

(** "configured" if value and value != placeholder else "not_configured" *)
Definition service_status (value : option string) (placeholder : string) : string :=
  match value with
  | Some v =>
      if negb (String.eqb v EmptyString) && negb (String.eqb v placeholder)
      then "configured" else "not_configured"
  | None => "not_configured"
  end.

(** The reply of GET /health; the timestamp is the clock reading, not its
    ISO text. *)
Record Health := mkHealth {
  health_status : string;
  timestamp : nat;
  active_tasks : nat;
  github_service : string;
  aipipe_service : string;
  deadline : string
}.

(** async def health() *)
Definition health (env : Env) (w : World) : Health :=
  let github_status := service_status (GITHUB_TOKEN (CONFIG env)) "YOUR_GITHUB_TOKEN_HERE" in
  let aipipe_status := service_status (AIPIPE_API_KEY (CONFIG env)) "your_aipipe_key_here" in
  mkHealth "healthy" (now w) (size (tasks w)) github_status aipipe_status
    "10-minute processing guarantee".

(** async def get_tasks() *)
Definition get_tasks (w : World) : gmap string RoundRecord := tasks w.

(** * Properties of the pipeline *)

Local Open Scope list_scope.
Local Open Scope nat_scope.

(** ** Sample inputs *)

Module Sample.

(** An environment in which the AI endpoint is not configured, GitHub
    answers at once and the evaluation server accepts every notification. *)
Definition env_ok : Env :=
  mkEnv (mkConfig "hvk1995" (Some "ghp_token") None)
        (λ _, HttpError "connection refused") (λ _, 0)
        (λ _, HttpResponse 200 tt) (λ _, 0)
        (λ _, None) (λ _, 0)
        "harshvk25"
        (λ task _ t, task +:+ "-" +:+ pretty t)
        (λ _ n, "sha" +:+ pretty n).

(** A freshly started process: nothing stored, no repository, no timer. *)
Definition boot : World := mkWorld ∅ 0 None ∅ 0 0 0.

Definition round1_request : TaskRequest :=
  mkTaskRequest "student@example.com" "hvk1995" "t1" 1 "nonce-1"
    "build a calculator" ["has buttons"] "http://eval.example/notify" [].

Definition round2_request : TaskRequest :=
  mkTaskRequest "student@example.com" "hvk1995" "t1" 2 "nonce-2"
    "add a dark mode" [] "http://eval.example/notify" [].

Definition bad_secret_request : TaskRequest :=
  mkTaskRequest "student@example.com" "guess" "t1" 1 "nonce-1"
    "build a calculator" ["has buttons"] "http://eval.example/notify" [].

(** The brief, checks and task of [round1_request] from another submitter,
    with another nonce, round and callback. *)
Definition resubmitted_request : TaskRequest :=
  mkTaskRequest "other@example.com" "hvk1995" "t1" 2 "nonce-9"
    "build a calculator" ["has buttons"] "http://other.example/hook" [].

End Sample.

(** ** The model on the sample inputs *)

Example lower_brief : lower "Build a CALCULATOR app" = "build a calculator app".
Proof. reflexivity. Qed.

Example fallback_selects_calculator :
  generate_fallback_app Sample.round1_request
  = [ ("index.html", calculator_html);
      ("README.md", generate_readme "build a calculator" ["has buttons"] "t1");
      ("LICENSE", generate_mit_license);
      (".gitignore", generate_gitignore) ].
Proof. reflexivity. Qed.

Example fallback_default_page :
  map fst (generate_fallback_app Sample.round2_request)
  = ["index.html"; "README.md"; "LICENSE"; ".gitignore"]
  ∧ (generate_fallback_app Sample.round2_request) !! 0
    = Some ("index.html", generate_fallback_html "add a dark mode").
Proof. split; reflexivity. Qed.

Example extract_fenced_page :
  extract_html_code (ContentStr "Here it is: ```html
<html>ok</html>
``` enjoy") = "<html>ok</html>".
Proof. reflexivity. Qed.

Example split_repo_url :
  rev (split "/" "https://github.com/harshvk25/t1-0")
  = ["t1-0"; "harshvk25"; "github.com"; EmptyString; "https:"].
Proof. reflexivity. Qed.

(** Round 1 of the sample task: audited and acknowledged, then generated by
    the fallback, published in five commits and notified at the first
    attempt. *)
Example sample_round1_run :
  let run := post_api_task Sample.env_ok Sample.round1_request Sample.boot in
  result run = inr tt
  ∧ List.filter (λ e, match e with
                      | Responded _ | Call _ | EvalPost _ _ | Sleep _ => true
                      | _ => false
                      end) (events run)
    = [ Call FnStoreReceivedTask;
        Responded (mkTaskAck "accepted" "Round 1 processing started" "t1" 1);
        Call FnProcessTaskWithDeadline; Call FnProcessRound1;
        Call FnGenerateAppWithAi; Call FnCreateGithubRepository; Sleep 3;
        Call FnSendEvaluation;
        EvalPost "http://eval.example/notify"
          (mkTaskResponse "student@example.com" "t1" 1 "nonce-1"
             "https://github.com/harshvk25/t1-0" "sha5"
             "https://harshvk25.github.io/t1-0") ]
  ∧ tasks (world run) !! "t1"
    = Some (mkRoundRecord "https://github.com/harshvk25/t1-0" "student@example.com"
              "build a calculator").
Proof. vm_compute. split; [|split]; reflexivity. Qed.

(** ** Unfolding the monad *)

Ltac run_monad :=
  cbv [mbind mret M_bind M_ret bind after ret raise try_except except_Exception
       except_GithubException emit log modify get_world time block sleep];
  cbn [events world result is_Exception app].

Lemma set_timer_restore (w : World) (t : option nat) :
  set_timer (timer w) (set_timer t w) = w.
Proof. destruct w; reflexivity. Qed.

(** ** Fallback generation *)

(** C8: generate_fallback_app is a function of the brief, checks and task of
    the request alone: two requests that agree on them (and on the
    attachments) get the same artifact set, file names and contents alike,
    and the file names are always the same four. *)
Theorem generate_fallback_app_deterministic (r1 r2 : TaskRequest) :
  brief r1 = brief r2 → checks r1 = checks r2 → task r1 = task r2 →
  attachments r1 = attachments r2 →
  generate_fallback_app r1 = generate_fallback_app r2
  ∧ map fst (generate_fallback_app r1) = map fst (generate_fallback_app r2)
  ∧ map fst (generate_fallback_app r1) = ["index.html"; "README.md"; "LICENSE"; ".gitignore"].
Proof.
  intros Hb Hc Ht _. unfold generate_fallback_app.
  rewrite Hb, Hc, Ht. repeat split; reflexivity.
Qed.

Lemma generate_fallback_app_deterministic_witness :
  generate_fallback_app Sample.round1_request = generate_fallback_app Sample.resubmitted_request
  ∧ map fst (generate_fallback_app Sample.round1_request)
    = map fst (generate_fallback_app Sample.resubmitted_request)
  ∧ map fst (generate_fallback_app Sample.round1_request)
    = ["index.html"; "README.md"; "LICENSE"; ".gitignore"].
Proof.
  apply (generate_fallback_app_deterministic Sample.round1_request Sample.resubmitted_request);
    reflexivity.
Defined.

(** ** The request path *)

Definition no_collaborator_call (e : Event) : Prop :=
  is_generator_call e = false ∧ is_publisher_call e = false ∧ is_notifier_call e = false.

(** C1: with the configured secret, handle_task returns the acknowledgment
    (status accepted, task and round of the request) having emitted no
    generator or publisher call and changed nothing; process_task_with_deadline
    is only appended to the background tasks.  In the request cycle the
    response leaves before the first generator or publisher call. *)
Theorem handle_task_acknowledges_first (env : Env) (r : TaskRequest)
    (bts : list BackgroundTask) (w : World) :
  secret r = SECRET (CONFIG env) →
  let ack := mkTaskAck "accepted" ("Round " +:+ pretty (round r) +:+ " processing started")
               (task r) (round r) in
  result (handle_task env r bts w) = inr (ack, (bts ++ [BgProcessTaskWithDeadline r])%list)
  ∧ status ack = "accepted" ∧ ack_task ack = task r ∧ ack_round ack = round r
  ∧ Forall no_collaborator_call (events (handle_task env r bts w))
  ∧ world (handle_task env r bts w) = w
  ∧ ∃ rest, events (post_api_task env r w)
            = (events (handle_task env r [] w) ++ Responded ack
                 :: events (process_task_with_deadline env r w) ++ rest)%list.
Proof.
  intros Hs ack. apply String.eqb_eq in Hs.
  assert (Hrun : ∀ l, handle_task env r l w =
    mkRun [Log INFO (ReceivedTask (task r) (round r)); Call FnStoreReceivedTask;
           Log WARNING (StoreFailed "name 'sqlite3' is not defined");
           Log INFO ImmediateOkSent]
          w (inr (ack, (l ++ [BgProcessTaskWithDeadline r])%list))).
  { intros l. unfold handle_task, store_received_task. run_monad.
    rewrite Hs. reflexivity. }
  rewrite Hrun. cbn [result events world].
  split; [reflexivity|]. do 3 (split; [reflexivity|]).
  split. { repeat constructor. }
  split; [reflexivity|].
  unfold post_api_task. run_monad. rewrite Hrun. cbn [result events world app].
  unfold run_all_background, run_background. run_monad.
  destruct (process_task_with_deadline env r w) as [evs w' [e|[]]]; cbn.
  - destruct e; cbn;
      first [ by (exists []; rewrite app_nil_r) | by eexists ].
  - exists []. by rewrite !app_nil_r.
Qed.

Lemma handle_task_acknowledges_first_witness :
  result (handle_task Sample.env_ok Sample.round1_request [] Sample.boot)
  = inr (mkTaskAck "accepted" "Round 1 processing started" "t1" 1,
         [BgProcessTaskWithDeadline Sample.round1_request]).
Proof.
  apply (handle_task_acknowledges_first Sample.env_ok Sample.round1_request [] Sample.boot).
  reflexivity.
Defined.

(** C7: with any other secret, handle_task raises HTTPException 401 after
    two log lines and nothing else: store_received_task is not called, no
    background task is added, the world is unchanged; the request cycle ends
    with the 401 response and runs no pipeline. *)
Theorem handle_task_rejects_bad_secret (env : Env) (r : TaskRequest)
    (bts : list BackgroundTask) (w : World) :
  secret r ≠ SECRET (CONFIG env) →
  handle_task env r bts w
  = mkRun [Log INFO (ReceivedTask (task r) (round r));
           Log WARNING (InvalidSecretAttempt (secret r))]
          w (inl (HTTPException 401 "Invalid secret"))
  ∧ post_api_task env r w
    = mkRun [Log INFO (ReceivedTask (task r) (round r));
             Log WARNING (InvalidSecretAttempt (secret r));
             Rejected 401 "Invalid secret"]
            w (inr tt)
  ∧ tasks (world (post_api_task env r w)) = tasks w
  ∧ Forall no_collaborator_call (events (post_api_task env r w))
  ∧ (Call FnStoreReceivedTask ∉ events (post_api_task env r w))
  ∧ (Call FnProcessTaskWithDeadline ∉ events (post_api_task env r w)).
Proof.
  intros Hs. apply String.eqb_neq in Hs.
  assert (Hrun : ∀ l, handle_task env r l w
    = mkRun [Log INFO (ReceivedTask (task r) (round r));
             Log WARNING (InvalidSecretAttempt (secret r))]
            w (inl (HTTPException 401 "Invalid secret"))).
  { intros l. unfold handle_task. run_monad. rewrite Hs. reflexivity. }
  assert (Hpost : post_api_task env r w
    = mkRun [Log INFO (ReceivedTask (task r) (round r));
             Log WARNING (InvalidSecretAttempt (secret r));
             Rejected 401 "Invalid secret"]
            w (inr tt)).
  { unfold post_api_task. run_monad. rewrite Hrun. reflexivity. }
  split; [apply Hrun|]. split; [exact Hpost|].
  rewrite Hpost. cbn [events world].
  split; [reflexivity|].
  split. { repeat constructor. }
  split; intros Hin; repeat (apply elem_of_cons in Hin as [Hin|Hin]; [discriminate|]);
    by apply elem_of_nil in Hin.
Qed.

Lemma handle_task_rejects_bad_secret_witness :
  result (handle_task Sample.env_ok Sample.bad_secret_request [] Sample.boot)
  = inl (HTTPException 401 "Invalid secret").
Proof.
  pose proof (handle_task_rejects_bad_secret Sample.env_ok Sample.bad_secret_request []
                Sample.boot) as H.
  destruct H as [H _]; [discriminate|].
  rewrite H. reflexivity.
Defined.

(** ** Round 2 without round 1 *)

Definition no_notifier_or_publisher (e : Event) : Prop :=
  is_notifier_call e = false ∧ is_eval_post e = false ∧ is_publisher_call e = false
  ∧ (∀ op, e ≠ Github op).

(** C2: a round-2 task whose id is not in [tasks] fails in process_round2
    with "No Round 1 data found for this task"; process_task_with_deadline
    catches and logs it and returns; the run contains no send_evaluation call,
    no notification request and no publisher call, and changes nothing. *)
Theorem round2_without_round1 (env : Env) (r : TaskRequest) (w : World) :
  round r = 2%Z → tasks w !! task r = None →
  result (process_round2 env r w) = inl (Exception "No Round 1 data found for this task")
  ∧ process_task_with_deadline env r w
    = mkRun [Call FnProcessTaskWithDeadline; Log INFO StartingBackground;
             Call FnProcessRound2; Log INFO (ProcessingRound2 (task r));
             Log ERROR (TaskFailed "No Round 1 data found for this task")]
            w (inr tt)
  ∧ Forall no_notifier_or_publisher (events (process_task_with_deadline env r w)).
Proof.
  intros Hr Hnone.
  assert (H2 : ∀ w', tasks w' = tasks w → process_round2 env r w'
    = mkRun [Call FnProcessRound2; Log INFO (ProcessingRound2 (task r))] w'
            (inl (Exception "No Round 1 data found for this task"))).
  { intros w' Hw'. unfold process_round2. run_monad. rewrite Hw', Hnone. reflexivity. }
  assert (H : process_task_with_deadline env r w
    = mkRun [Call FnProcessTaskWithDeadline; Log INFO StartingBackground;
             Call FnProcessRound2; Log INFO (ProcessingRound2 (task r));
             Log ERROR (TaskFailed "No Round 1 data found for this task")]
            w (inr tt)).
  { unfold process_task_with_deadline, wait_for. run_monad. rewrite Hr.
    cbn [Z.eqb Pos.eqb]. rewrite H2 by (destruct w; reflexivity).
    cbn. rewrite set_timer_restore. reflexivity. }
  split; [rewrite H2; reflexivity|]. split; [exact H|].
  rewrite H. cbn [events].
  repeat constructor; discriminate.
Qed.

Lemma round2_without_round1_witness :
  result (process_round2 Sample.env_ok Sample.round2_request Sample.boot)
  = inl (Exception "No Round 1 data found for this task").
Proof.
  apply (round2_without_round1 Sample.env_ok Sample.round2_request Sample.boot); reflexivity.
Defined.

(** ** What a computation emits, and where it can be cancelled *)

(** [obeys P C m]: every event of a run of [m] satisfies [P], except that a
    run cancelled by the timer ends with the one event [Cancelled s], for a
    suspension [s] allowed by [C]; and [m] never raises TimeoutError itself. *)
Definition obeys {T} (P : Event → Prop) (C : Suspension → Prop) (m : M T) : Prop :=
  ∀ w, match result (m w) with
       | inl CancelledError =>
           ∃ pre s, events (m w) = (pre ++ [Cancelled s])%list ∧ Forall P pre ∧ C s
       | inl TimeoutError => False
       | _ => Forall P (events (m w))
       end.

(** [keeps f m]: a run of [m] leaves the component [f] of the world as it was. *)
Definition keeps {S T} (f : World → S) (m : M T) : Prop :=
  ∀ w, f (world (m w)) = f w.

Section Combinators.

Context (P : Event → Prop) (C : Suspension → Prop).

Lemma obeys_ret {T} (a : T) : obeys P C (mret a).
Proof. intros w. constructor. Qed.

Lemma obeys_raise {T} (e : Exn) :
  e ≠ CancelledError → e ≠ TimeoutError → obeys P C (@raise T e).
Proof. intros He1 He2 w. destruct e; try constructor; congruence. Qed.

Lemma obeys_emit (e : Event) : P e → obeys P C (emit e).
Proof. intros He w. cbn. by repeat constructor. Qed.

Lemma obeys_log (l : Level) (msg : LogMsg) : P (Log l msg) → obeys P C (log l msg).
Proof. apply obeys_emit. Qed.

Lemma obeys_modify (f : World → World) : obeys P C (modify f).
Proof. intros w. constructor. Qed.

Lemma obeys_get_world : obeys P C get_world.
Proof. intros w. constructor. Qed.

Lemma obeys_time : obeys P C time.
Proof. intros w. constructor. Qed.

Lemma obeys_block (d : nat) : obeys P C (block d).
Proof. intros w. constructor. Qed.

Lemma obeys_await (s : Suspension) (d : nat) : C s → obeys P C (await s d).
Proof.
  intros Hs w. unfold await.
  destruct (timer w) as [t|]; [destruct (t <=? now w + d)%nat|]; cbn; try constructor.
  exists [], s. by repeat split.
Qed.

Lemma obeys_bind {T U} (m : M T) (k : T → M U) :
  obeys P C m → (∀ a, obeys P C (k a)) → obeys P C (m ≫= k).
Proof.
  intros Hm Hk w. specialize (Hm w).
  unfold mbind, M_bind, bind.
  destruct (m w) as [evs w1 [e|a]]; cbn in *; [exact Hm|].
  specialize (Hk a w1). destruct (k a w1) as [evs' w2 [e'|b]]; cbn in *.
  - destruct e'; try done; try (by apply Forall_app).
    destruct Hk as (pre & s & -> & Hpre & Hs).
    exists (evs ++ pre)%list, s. rewrite app_assoc. repeat split; auto.
    by apply Forall_app.
  - by apply Forall_app.
Qed.

Lemma obeys_sleep (s : Suspension) (d : nat) : P (Sleep d) → C s → obeys P C (sleep s d).
Proof.
  intros HP Hs. unfold sleep. apply obeys_bind; [by apply obeys_emit|].
  intros _. by apply obeys_await.
Qed.

Lemma obeys_try {T} (m : M T) (handler : Exn → option (M T)) :
  obeys P C m → handler CancelledError = None →
  (∀ e k, handler e = Some k → obeys P C k) →
  obeys P C (try_except m handler).
Proof.
  intros Hm Hnone Hk w. specialize (Hm w). unfold try_except.
  destruct (m w) as [evs w1 [e|a]]; cbn in *; [|exact Hm].
  destruct (handler e) as [k|] eqn:Hh; cbn; [|exact Hm].
  assert (e ≠ CancelledError) as He by congruence.
  assert (Forall P evs) as Hevs by (destruct e; first [congruence | exact Hm | done]).
  specialize (Hk e k Hh w1). destruct (k w1) as [evs' w2 [e'|b]]; cbn in *.
  - destruct e'; try done; try (by apply Forall_app).
    destruct Hk as (pre & s & -> & Hpre & Hs).
    exists (evs ++ pre)%list, s. rewrite app_assoc. repeat split; auto.
    by apply Forall_app.
  - by apply Forall_app.
Qed.

Lemma obeys_try_Exception {T} (m : M T) (k : Exn → M T) :
  obeys P C m → (∀ e, obeys P C (k e)) →
  obeys P C (try_except m (except_Exception k)).
Proof.
  intros Hm Hk. apply obeys_try; [done|done|].
  intros e k'. unfold except_Exception. destruct (is_Exception e); [|done].
  intros [= <-]. apply Hk.
Qed.

Lemma obeys_try_GithubException {T} (m k : M T) :
  obeys P C m → obeys P C k →
  obeys P C (try_except m (except_GithubException k)).
Proof.
  intros Hm Hk. apply obeys_try; [done|done|].
  intros e k'. destruct e; cbn; try done. by intros [= <-].
Qed.

(** A try whose body has no suspension point: whatever the handler catches. *)
Lemma obeys_try_uncut {T} (m : M T) (handler : Exn → option (M T)) :
  obeys P (λ _, False) m →
  (∀ e k, handler e = Some k → obeys P C k) →
  obeys P C (try_except m handler).
Proof.
  intros Hm Hk w. specialize (Hm w). unfold try_except.
  destruct (m w) as [evs w1 [e|a]]; cbn in *; [|exact Hm].
  assert (e ≠ CancelledError ∧ Forall P evs) as [He Hevs].
  { destruct e; try done; try (split; [discriminate|exact Hm]).
    by destruct Hm as (? & ? & ? & ? & []). }
  destruct (handler e) as [k|] eqn:Hh; cbn; [|by destruct e].
  specialize (Hk e k Hh w1). destruct (k w1) as [evs' w2 [e'|b]]; cbn in *.
  - destruct e'; try done; try (by apply Forall_app).
    destruct Hk as (pre & s & -> & Hpre & Hs).
    exists (evs ++ pre)%list, s. rewrite app_assoc. repeat split; auto.
    by apply Forall_app.
  - by apply Forall_app.
Qed.

End Combinators.

Section Frame.

Context {S : Type} (f : World → S).

Lemma keeps_ret {T} (a : T) : keeps f (mret a).
Proof. by intros w. Qed.

Lemma keeps_raise {T} (e : Exn) : keeps f (@raise T e).
Proof. by intros w. Qed.

Lemma keeps_emit (e : Event) : keeps f (emit e).
Proof. by intros w. Qed.

Lemma keeps_log (l : Level) (msg : LogMsg) : keeps f (log l msg).
Proof. by intros w. Qed.

Lemma keeps_get_world : keeps f get_world.
Proof. by intros w. Qed.

Lemma keeps_time : keeps f time.
Proof. by intros w. Qed.

Lemma keeps_modify (g : World → World) : (∀ w, f (g w) = f w) → keeps f (modify g).
Proof. intros Hg w. apply Hg. Qed.

Lemma keeps_bind {T U} (m : M T) (k : T → M U) :
  keeps f m → (∀ a, keeps f (k a)) → keeps f (m ≫= k).
Proof.
  intros Hm Hk w. specialize (Hm w). unfold mbind, M_bind, bind.
  destruct (m w) as [evs w1 [e|a]]; cbn in *; [exact Hm|].
  specialize (Hk a w1). destruct (k a w1) as [evs' w2 res]; cbn in *. congruence.
Qed.

Lemma keeps_try {T} (m : M T) (handler : Exn → option (M T)) :
  keeps f m → (∀ e k, handler e = Some k → keeps f k) → keeps f (try_except m handler).
Proof.
  intros Hm Hk w. specialize (Hm w). unfold try_except.
  destruct (m w) as [evs w1 [e|a]]; cbn in *; [|exact Hm].
  destruct (handler e) as [k|] eqn:Hh; cbn; [|exact Hm].
  specialize (Hk e k Hh w1). destruct (k w1) as [evs' w2 res]; cbn in *. congruence.
Qed.

Lemma keeps_try_Exception {T} (m : M T) (k : Exn → M T) :
  keeps f m → (∀ e, keeps f (k e)) → keeps f (try_except m (except_Exception k)).
Proof.
  intros Hm Hk. apply keeps_try; [done|].
  intros e k'. unfold except_Exception. destruct (is_Exception e); [|done].
  intros [= <-]. apply Hk.
Qed.

Lemma keeps_try_GithubException {T} (m k : M T) :
  keeps f m → keeps f k → keeps f (try_except m (except_GithubException k)).
Proof.
  intros Hm Hk. apply keeps_try; [done|].
  intros e k'. destruct e; cbn; try done. by intros [= <-].
Qed.

(** The components that the clock does not touch. *)
Hypothesis f_now : ∀ t w, f (set_now t w) = f w.

Lemma keeps_block (d : nat) : keeps f (block d).
Proof. intros w. apply f_now. Qed.

Lemma keeps_await (s : Suspension) (d : nat) : keeps f (await s d).
Proof.
  intros w. unfold await.
  destruct (timer w) as [t|]; [destruct (t <=? now w + d)%nat|]; cbn; apply f_now.
Qed.

Lemma keeps_sleep (s : Suspension) (d : nat) : keeps f (sleep s d).
Proof.
  unfold sleep. apply keeps_bind; [apply keeps_emit|]. intros _. apply keeps_await.
Qed.

End Frame.

(** ** The alphabets of the collaborators *)

Create HintDb obeys.
Create HintDb frame.

Ltac obeys_leaf :=
  solve [ exact I | reflexivity | discriminate | assumption
        | left; reflexivity | right; reflexivity | auto with obeys ].

Ltac obeys_step :=
  lazymatch goal with
  | |- obeys _ _ (mret _) => apply obeys_ret
  | |- obeys _ _ (raise _) => apply obeys_raise; discriminate
  | |- obeys _ _ (emit _) => apply obeys_emit; obeys_leaf
  | |- obeys _ _ (log _ _) => apply obeys_log; obeys_leaf
  | |- obeys _ _ (modify _) => apply obeys_modify
  | |- obeys _ _ get_world => apply obeys_get_world
  | |- obeys _ _ time => apply obeys_time
  | |- obeys _ _ (block _) => apply obeys_block
  | |- obeys _ _ (await _ _) => apply obeys_await; obeys_leaf
  | |- obeys _ _ (sleep _ _) => apply obeys_sleep; obeys_leaf
  | |- obeys _ _ (try_except _ (except_Exception _)) =>
      apply obeys_try_Exception; [|intros ?]
  | |- obeys _ _ (try_except _ (except_GithubException _)) =>
      apply obeys_try_GithubException
  | |- obeys _ _ (mbind _ _) => apply obeys_bind; [|intros ?]
  | |- obeys _ _ (match ?x with _ => _ end) => destruct x
  | |- obeys _ _ _ => solve [eauto with obeys]
  end.

Ltac keeps_step :=
  lazymatch goal with
  | |- keeps _ (mret _) => apply keeps_ret
  | |- keeps _ (raise _) => apply keeps_raise
  | |- keeps _ (emit _) => apply keeps_emit
  | |- keeps _ (log _ _) => apply keeps_log
  | |- keeps _ (modify _) => apply keeps_modify; solve [auto with frame]
  | |- keeps _ get_world => apply keeps_get_world
  | |- keeps _ time => apply keeps_time
  | |- keeps _ (block _) => apply keeps_block; solve [auto with frame]
  | |- keeps _ (await _ _) => apply keeps_await; solve [auto with frame]
  | |- keeps _ (sleep _ _) => apply keeps_sleep; solve [auto with frame]
  | |- keeps _ (try_except _ (except_Exception _)) =>
      apply keeps_try_Exception; [|intros ?]
  | |- keeps _ (try_except _ (except_GithubException _)) =>
      apply keeps_try_GithubException
  | |- keeps _ (mbind _ _) => apply keeps_bind; [|intros ?]
  | |- keeps _ (match ?x with _ => _ end) => destruct x
  | |- keeps _ _ => solve [eauto with frame]
  end.

Section Alphabets.

Variable env : Env.

(** An alphabet that lets through every log line but the one of the timeout
    handler, every GitHub and AI request and every sleep; each lemma below
    asks in addition for the calls its function makes. *)
Context (P : Event → Prop).
Hypothesis P_log : ∀ l msg, msg ≠ TaskTimedOut → P (Log l msg).
Hypothesis P_github : ∀ op, P (Github op).
Hypothesis P_ai : ∀ n, P (AiPost n).
Hypothesis P_sleep : ∀ d, P (Sleep d).
Hypothesis P_generate : P (Call FnGenerateAppWithAi).
Hypothesis P_modify : P (Call FnModifyExistingApp).
Hypothesis P_existing : P (Call FnGetExistingCode).
Hypothesis P_create : P (Call FnCreateGithubRepository).
Hypothesis P_update : P (Call FnUpdateGithubRepository).

Local Hint Extern 1 (P (Log _ _)) => apply P_log; discriminate : obeys.
Local Hint Resolve P_github P_ai P_sleep P_generate P_modify P_existing P_create
  P_update : obeys.

Lemma gh_request_obeys C op : obeys P C (gh_request env op).
Proof. unfold gh_request. repeat obeys_step. Qed.
Local Hint Resolve gh_request_obeys : obeys.

Lemma gh_create_repo_obeys C name : obeys P C (gh_create_repo env name).
Proof. unfold gh_create_repo. repeat obeys_step. Qed.

Lemma gh_get_repo_obeys C full_name : obeys P C (gh_get_repo env full_name).
Proof. unfold gh_get_repo. repeat obeys_step. Qed.

Lemma gh_user_login_obeys C : obeys P C (gh_user_login env).
Proof. unfold gh_user_login. repeat obeys_step. Qed.

Lemma gh_create_file_obeys C repo path content branch :
  obeys P C (gh_create_file env repo path content branch).
Proof. unfold gh_create_file. repeat obeys_step. Qed.

Lemma gh_get_contents_obeys C repo path : obeys P C (gh_get_contents env repo path).
Proof. unfold gh_get_contents. repeat obeys_step. Qed.

Lemma gh_update_file_obeys C repo path content :
  obeys P C (gh_update_file env repo path content).
Proof. unfold gh_update_file. repeat obeys_step. Qed.

Lemma gh_latest_commit_sha_obeys C repo : obeys P C (gh_latest_commit_sha env repo).
Proof. unfold gh_latest_commit_sha. repeat obeys_step. Qed.

Lemma repo_of_url_obeys C url : obeys P C (repo_of_url url).
Proof. unfold repo_of_url. repeat obeys_step. Qed.

Local Hint Resolve gh_create_repo_obeys gh_get_repo_obeys gh_user_login_obeys
  gh_create_file_obeys gh_get_contents_obeys gh_update_file_obeys
  gh_latest_commit_sha_obeys repo_of_url_obeys : obeys.

Lemma ai_post_obeys C : C AwaitAiPost → obeys P C (ai_post env).
Proof. intros HC. unfold ai_post. repeat obeys_step. Qed.
Local Hint Resolve ai_post_obeys : obeys.

Lemma generate_app_with_ai_obeys C r :
  C AwaitAiPost → obeys P C (generate_app_with_ai env r).
Proof. intros HC. unfold generate_app_with_ai. repeat obeys_step. Qed.

Lemma get_existing_code_from_github_obeys C url :
  obeys P C (get_existing_code_from_github env url).
Proof.
  unfold get_existing_code_from_github.
  repeat obeys_step.
  apply obeys_try_uncut; [repeat obeys_step|].
  intros e k [= <-]. repeat obeys_step.
Qed.
Local Hint Resolve get_existing_code_from_github_obeys : obeys.

Lemma modify_existing_app_obeys C r d :
  C AwaitAiPost → obeys P C (modify_existing_app env r d).
Proof. intros HC. unfold modify_existing_app. repeat obeys_step. Qed.

Lemma create_all_files_obeys C repo files : obeys P C (create_all_files env repo files).
Proof.
  induction files as [|[filename content] rest IH]; cbn [create_all_files];
    repeat obeys_step.
Qed.

Lemma update_all_files_obeys C repo files : obeys P C (update_all_files env repo files).
Proof.
  induction files as [|[filename content] rest IH]; cbn [update_all_files];
    repeat obeys_step.
Qed.

Lemma read_content_obeys C c : obeys P C (read_content c).
Proof. unfold read_content. repeat obeys_step. Qed.
Local Hint Resolve create_all_files_obeys update_all_files_obeys read_content_obeys : obeys.

Lemma enable_pages_obeys C repo content : obeys P C (enable_pages env repo content).
Proof. unfold enable_pages. repeat obeys_step. Qed.
Local Hint Resolve enable_pages_obeys : obeys.

Lemma create_github_repository_obeys C r files :
  C AwaitPagesSleep → obeys P C (create_github_repository env r files).
Proof.
  intros HC. unfold create_github_repository.
  obeys_step; [obeys_step|].
  apply obeys_try; [repeat obeys_step|done|].
  intros e k He. destruct e; cbn in He; simplify_eq; repeat obeys_step.
Qed.

Lemma update_github_repository_obeys C r files :
  obeys P C (update_github_repository env r files).
Proof. unfold update_github_repository. repeat obeys_step. Qed.

(** send_evaluation adds its own call and its requests, all carrying the
    payload and the url it was given. *)
Lemma send_attempts_obeys C response url attempts :
  C AwaitEvalPost → C AwaitRetrySleep → P (EvalPost url response) →
  obeys P C (send_attempts env response url attempts).
Proof.
  intros HC1 HC2 HP.
  induction attempts as [|attempt rest IH]; cbn [send_attempts];
    unfold eval_post; repeat obeys_step.
Qed.

Lemma send_evaluation_obeys C response url :
  C AwaitEvalPost → C AwaitRetrySleep →
  P (Call FnSendEvaluation) → P (EvalPost url response) →
  obeys P C (send_evaluation env response url).
Proof.
  intros HC1 HC2 HP1 HP2. unfold send_evaluation.
  pose proof (send_attempts_obeys C response url (seq 0 3) HC1 HC2 HP2).
  repeat obeys_step.
Qed.

End Alphabets.

(** ** What the collaborators leave alone *)

Section Frames.

Variable env : Env.

Context {S : Type} (f : World → S).
Hypothesis f_now : ∀ t w, f (set_now t w) = f w.
Hypothesis f_github : ∀ g w, f (set_github g w) = f w.
Hypothesis f_bump_gh : ∀ w, f (bump_gh w) = f w.
Hypothesis f_bump_ai : ∀ w, f (bump_ai w) = f w.
Hypothesis f_bump_eval : ∀ w, f (bump_eval w) = f w.

Local Hint Resolve f_now f_github f_bump_gh f_bump_ai f_bump_eval : frame.
Local Hint Extern 1 (∀ w, f (set_now _ w) = f w) => intros; apply f_now : frame.

Lemma gh_request_keeps op : keeps f (gh_request env op).
Proof. unfold gh_request. repeat keeps_step. Qed.
Local Hint Resolve gh_request_keeps : frame.

Lemma gh_create_repo_keeps name : keeps f (gh_create_repo env name).
Proof. unfold gh_create_repo. repeat keeps_step. Qed.

Lemma gh_get_repo_keeps full_name : keeps f (gh_get_repo env full_name).
Proof. unfold gh_get_repo. repeat keeps_step. Qed.

Lemma gh_user_login_keeps : keeps f (gh_user_login env).
Proof. unfold gh_user_login. repeat keeps_step. Qed.

Lemma gh_create_file_keeps repo path content branch :
  keeps f (gh_create_file env repo path content branch).
Proof. unfold gh_create_file. repeat keeps_step. Qed.

Lemma gh_get_contents_keeps repo path : keeps f (gh_get_contents env repo path).
Proof. unfold gh_get_contents. repeat keeps_step. Qed.

Lemma gh_update_file_keeps repo path content :
  keeps f (gh_update_file env repo path content).
Proof. unfold gh_update_file. repeat keeps_step. Qed.

Lemma gh_latest_commit_sha_keeps repo : keeps f (gh_latest_commit_sha env repo).
Proof. unfold gh_latest_commit_sha. repeat keeps_step. Qed.

Lemma repo_of_url_keeps url : keeps f (repo_of_url url).
Proof. unfold repo_of_url. repeat keeps_step. Qed.

Local Hint Resolve gh_create_repo_keeps gh_get_repo_keeps gh_user_login_keeps
  gh_create_file_keeps gh_get_contents_keeps gh_update_file_keeps
  gh_latest_commit_sha_keeps repo_of_url_keeps : frame.

Lemma ai_post_keeps : keeps f (ai_post env).
Proof. unfold ai_post. repeat keeps_step. Qed.
Local Hint Resolve ai_post_keeps : frame.

Lemma eval_post_keeps url response : keeps f (eval_post env url response).
Proof. unfold eval_post. repeat keeps_step. Qed.
Local Hint Resolve eval_post_keeps : frame.

Lemma generate_app_with_ai_keeps r : keeps f (generate_app_with_ai env r).
Proof. unfold generate_app_with_ai. repeat keeps_step. Qed.

Lemma get_existing_code_from_github_keeps url :
  keeps f (get_existing_code_from_github env url).
Proof.
  unfold get_existing_code_from_github. repeat keeps_step.
  apply keeps_try; [repeat keeps_step|].
  intros e k [= <-]. repeat keeps_step.
Qed.
Local Hint Resolve get_existing_code_from_github_keeps : frame.

Lemma modify_existing_app_keeps r d : keeps f (modify_existing_app env r d).
Proof. unfold modify_existing_app. repeat keeps_step. Qed.

Lemma create_all_files_keeps repo files : keeps f (create_all_files env repo files).
Proof.
  induction files as [|[filename content] rest IH]; cbn [create_all_files];
    repeat keeps_step.
Qed.

Lemma update_all_files_keeps repo files : keeps f (update_all_files env repo files).
Proof.
  induction files as [|[filename content] rest IH]; cbn [update_all_files];
    repeat keeps_step.
Qed.

Lemma read_content_keeps c : keeps f (read_content c).
Proof. unfold read_content. repeat keeps_step. Qed.
Local Hint Resolve create_all_files_keeps update_all_files_keeps read_content_keeps : frame.

Lemma enable_pages_keeps repo content : keeps f (enable_pages env repo content).
Proof. unfold enable_pages. repeat keeps_step. Qed.
Local Hint Resolve enable_pages_keeps : frame.

Lemma create_github_repository_keeps r files :
  keeps f (create_github_repository env r files).
Proof.
  unfold create_github_repository.
  keeps_step; [keeps_step|].
  apply keeps_try; [repeat keeps_step|].
  intros e k He. destruct e; cbn in He; simplify_eq; repeat keeps_step.
Qed.

Lemma update_github_repository_keeps r files :
  keeps f (update_github_repository env r files).
Proof. unfold update_github_repository. repeat keeps_step. Qed.

Lemma send_attempts_keeps response url attempts :
  keeps f (send_attempts env response url attempts).
Proof.
  induction attempts as [|attempt rest IH]; cbn [send_attempts]; repeat keeps_step.
Qed.
Local Hint Resolve send_attempts_keeps : frame.

Lemma send_evaluation_keeps response url : keeps f (send_evaluation env response url).
Proof. unfold send_evaluation. repeat keeps_step. Qed.


End Frames.

Lemma process_round2_keeps_tasks (env : Env) (r : TaskRequest) :
  keeps tasks (process_round2 env r).
Proof.
  unfold process_round2. repeat keeps_step.
  - apply modify_existing_app_keeps; done.
  - apply update_github_repository_keeps; done.
  - apply send_evaluation_keeps; done.
Qed.

(** ** The notifier *)

(** The attempt succeeded: resp.status_code == 200. *)
Definition accepted (reply : HttpReply unit) : bool :=
  match reply with
  | HttpResponse status_code _ => (status_code =? 200)%Z
  | HttpError _ => false
  end.

Definition is_post_or_sleep (e : Event) : bool :=
  match e with EvalPost _ _ | Sleep _ => true | _ => false end.

(** Case analysis on the innermost scrutinee the goal is stuck on. *)
Ltac break_match :=
  match goal with
  | |- context [match ?x with _ => _ end] =>
      lazymatch x with
      | context [match _ with _ => _ end] => fail
      | _ => destruct x eqn:?
      end
  end.

Lemma send_attempts_bound (env : Env) (response : TaskResponse) (url : string)
    (attempts : list nat) (w : World) :
  length (List.filter is_eval_post (events (send_attempts env response url attempts w)))
    ≤ length attempts
  ∧ (result (send_attempts env response url attempts w) = inr tt
     ∨ result (send_attempts env response url attempts w) = inl CancelledError).
Proof.
  revert w. induction attempts as [|attempt rest IH]; intros w.
  - cbn. split; [lia|by left].
  - cbn [send_attempts]. unfold eval_post. run_monad. unfold await.
    repeat (break_match; cbn [events result world List.filter is_eval_post length app];
            simplify_eq);
      repeat match goal with
        | H : send_attempts _ _ _ rest ?w' = _ |- _ =>
            let IHw := fresh "IHw" in
            pose proof (IH w') as IHw; rewrite H in IHw; cbn in IHw; clear H
        end;
      try (rewrite ?List.filter_app; cbn; rewrite ?length_app; cbn);
      try (split; [lia|tauto]); try (split; [lia|auto]).
Qed.

Lemma send_evaluation_untimed (env : Env) (response : TaskResponse) (url : string)
    (w : World) :
  timer w = None →
  let run := send_evaluation env response url w in
  let n := eval_posts w in
  let post := EvalPost url response in
  result run = inr tt
  ∧ List.filter is_post_or_sleep (events run)
    = (if accepted (eval_server env n) then [post]
       else if accepted (eval_server env (S n)) then [post; Sleep 1; post]
       else [post; Sleep 1; post; Sleep 1; post])
  ∧ last (events run)
    = Some (if accepted (eval_server env n) || accepted (eval_server env (S n))
               || accepted (eval_server env (S (S n)))
            then Log INFO (EvaluationSent url)
            else Log ERROR EvaluationGaveUp).
Proof.
  destruct w as [tk nw tm gh na ne ng]. cbn [timer eval_posts]. intros ->.
  unfold send_evaluation. cbn [seq send_attempts]. unfold eval_post.
  run_monad. unfold await.
  cbn [timer eval_posts bump_eval set_now now Nat.ltb Nat.leb Nat.add].
  destruct (eval_server env ne) as [c0 []|m0] eqn:E0;
    destruct (eval_server env (S ne)) as [c1 []|m1] eqn:E1;
    destruct (eval_server env (S (S ne))) as [c2 []|m2] eqn:E2;
    repeat (cbn; rewrite ?E0, ?E1, ?E2; first [done | break_match]).
Qed.

(** The requests and sleeps of a run of send_evaluation that is not cut
    short, from the replies of the evaluation server to the next three
    requests. *)
Definition retry_law (env : Env) (n : nat) (post : Event) : list Event :=
  if accepted (eval_server env n) then [post]
  else if accepted (eval_server env (S n)) then [post; Sleep 1; post]
  else [post; Sleep 1; post; Sleep 1; post].

Lemma send_evaluation_run (env : Env) (response : TaskResponse) (url : string)
    (w : World) :
  let run := send_evaluation env response url w in
  let n := eval_posts w in
  let post := EvalPost url response in
  match result run with
  | inr _ =>
      List.filter is_post_or_sleep (events run) = retry_law env n post
      ∧ last (events run)
        = Some (if accepted (eval_server env n) || accepted (eval_server env (S n))
                   || accepted (eval_server env (S (S n)))
                then Log INFO (EvaluationSent url)
                else Log ERROR EvaluationGaveUp)
  | inl e =>
      e = CancelledError
      ∧ List.filter is_post_or_sleep (events run) `prefix_of` retry_law env n post
      ∧ (last (events run) = Some (Cancelled AwaitEvalPost)
         ∨ last (events run) = Some (Cancelled AwaitRetrySleep))
  end.
Proof.
  destruct w as [tk nw tm gh na ne ng]. cbn [timer eval_posts].
  unfold send_evaluation, retry_law. cbn [seq send_attempts]. unfold eval_post.
  run_monad. unfold await.
  cbn [timer eval_posts bump_eval set_now now Nat.ltb Nat.leb Nat.add].
  destruct (eval_server env ne) as [c0 []|m0] eqn:E0;
    destruct (eval_server env (S ne)) as [c1 []|m1] eqn:E1;
    destruct (eval_server env (S (S ne))) as [c2 []|m2] eqn:E2;
    repeat (cbn; rewrite ?E0, ?E1, ?E2;
            first [ done
                  | by (split; [done|split; [by eexists|by auto]])
                  | break_match]).
Qed.

(** C5: send_evaluation makes at most three requests and raises nothing to
    its caller: it returns, or the timer of an enclosing wait_for cancels it
    at one of its awaits; it leaves the published repositories and the task
    store as they are; a non-2xx status and a network failure are failed
    attempts.  Every run that returns, with or without a timer, has stopped at
    the first accepted request, has slept one second between two requests and
    not after the last one, and after three failures has logged the failure
    as its last event.  A run that the timer cuts short has made a first part
    of these requests and sleeps and nothing after the cancellation. *)
Theorem send_evaluation_retry_law (env : Env) (response : TaskResponse) (url : string)
    (w : World) :
  let run := send_evaluation env response url w in
  let n := eval_posts w in
  let post := EvalPost url response in
  length (List.filter is_eval_post (events run)) ≤ 3
  ∧ (result run = inr tt ∨ result run = inl CancelledError ∧ timer w ≠ None)
  ∧ github (world run) = github w
  ∧ tasks (world run) = tasks w
  ∧ (∀ c b, ¬ (200 ≤ c < 300)%Z → accepted (HttpResponse c b) = false)
  ∧ (∀ msg, accepted (HttpError msg) = false)
  ∧ (result run = inr tt →
       List.filter is_post_or_sleep (events run)
       = (if accepted (eval_server env n) then [post]
          else if accepted (eval_server env (S n)) then [post; Sleep 1; post]
          else [post; Sleep 1; post; Sleep 1; post])
       ∧ last (events run)
         = Some (if accepted (eval_server env n) || accepted (eval_server env (S n))
                    || accepted (eval_server env (S (S n)))
                 then Log INFO (EvaluationSent url)
                 else Log ERROR EvaluationGaveUp))
  ∧ (result run = inl CancelledError →
       List.filter is_post_or_sleep (events run)
         `prefix_of` (if accepted (eval_server env n) then [post]
                      else if accepted (eval_server env (S n)) then [post; Sleep 1; post]
                      else [post; Sleep 1; post; Sleep 1; post])
       ∧ (last (events run) = Some (Cancelled AwaitEvalPost)
          ∨ last (events run) = Some (Cancelled AwaitRetrySleep))).
Proof.
  intros run n post.
  assert (Hrun : run = after [Call FnSendEvaluation; Log INFO (SendingEvaluation url)]
                         (send_attempts env response url (seq 0 3) w)).
  { subst run. unfold send_evaluation. run_monad.
    by destruct (send_attempts env response url (seq 0 3) w). }
  destruct (send_attempts_bound env response url (seq 0 3) w) as [Hlen Hres].
  pose proof (send_evaluation_run env response url w) as Hlaw.
  cbn zeta in Hlaw. fold run n post in Hlaw. unfold retry_law in Hlaw.
  split; [|split; [|split; [|split; [|split; [|split; [|split]]]]]].
  - rewrite Hrun. destruct (send_attempts env response url (seq 0 3) w); exact Hlen.
  - destruct (timer w) eqn:Ht.
    + rewrite Hrun. destruct (send_attempts env response url (seq 0 3) w).
      cbn in *. destruct Hres; [by left|by right].
    + left. by apply send_evaluation_untimed.
  - by apply send_evaluation_keeps.
  - by apply send_evaluation_keeps.
  - intros c b Hc. cbn. apply Z.eqb_neq. lia.
  - done.
  - intros Hret. by rewrite Hret in Hlaw.
  - intros Hcut. rewrite Hcut in Hlaw. by destruct Hlaw as (_ & ? & ?).
Qed.

(** ** Content generation failures *)

(** A reply of the AI endpoint from which no page can be taken: no reply at
    all (connection failure, timeout), a status other than 200, or a 200
    whose body is not of an expected shape. *)
Definition ai_reply_unusable (reply : HttpReply AiJson) : bool :=
  match reply with
  | HttpError _ => true
  | HttpResponse status_code body =>
      negb (status_code =? 200)%Z ||
      match body with
      | JsonOutput _ | JsonChoices _ => false
      | JsonOther _ | JsonRaises _ | JsonBadShape _ => true
      end
  end.

Lemma generate_app_with_ai_falls_back (env : Env) (r : TaskRequest) (w : World) :
  (∀ e, result (generate_app_with_ai env r w) = inl e → e = CancelledError ∧ timer w ≠ None)
  ∧ (ai_not_configured (AIPIPE_API_KEY (CONFIG env)) = true
     ∨ ai_reply_unusable (ai_server env (ai_posts w)) = true →
     ∀ files, result (generate_app_with_ai env r w) = inr files →
              files = generate_fallback_app r).
Proof.
  unfold generate_app_with_ai, ai_post. run_monad. unfold await.
  destruct w as [tk nw tm gh na ne ng]. cbn [timer ai_posts bump_ai set_now now].
  repeat (cbn; break_match); cbn;
    (split; [intros e' He; by simplify_eq
            |intros [H|H] files Hf; by simplify_eq]).
Qed.

Lemma get_existing_code_from_github_returns (env : Env) (url : string) (w : World) :
  ∃ files, result (get_existing_code_from_github env url w) = inr files.
Proof.
  unfold get_existing_code_from_github, gh_get_repo, gh_get_contents, gh_request,
    repo_of_url.
  run_monad.
  repeat (cbn; break_match); cbn; simplify_eq; eauto.
Qed.

(** The texts with which the round-2 path gives up. *)
Definition modify_failed (msg : string) : Exn :=
  Exception ("Failed to modify application: " +:+ msg).

Lemma modify_existing_app_outcome (env : Env) (r : TaskRequest) (d : RoundRecord)
    (w : World) :
  timer w = None →
  result (modify_existing_app env r d w) =
    match ai_server env (ai_posts w) with
    | HttpError msg => inl (modify_failed msg)
    | HttpResponse status_code body =>
        if (status_code =? 200)%Z then
          match body with
          | JsonRaises msg | JsonBadShape msg => inl (modify_failed msg)
          | JsonOther repr =>
              inr [("index.html", extract_html_code (ContentStr repr));
                   ("README.md", generate_updated_readme (rec_brief d) (brief r) (task r))]
          | JsonOutput content | JsonChoices content =>
              inr [("index.html", extract_html_code content);
                   ("README.md", generate_updated_readme (rec_brief d) (brief r) (task r))]
          end
        else inl (modify_failed "AIPipe API request failed")
    end.
Proof.
  intros Htimer.
  pose proof (get_existing_code_from_github_returns env (rec_repo_url d) w) as [files Hres].
  pose proof (get_existing_code_from_github_keeps env (λ w, (timer w, ai_posts w))
                (λ _ _, eq_refl) (λ _, eq_refl) (rec_repo_url d) w) as Hkeep.
  unfold modify_existing_app, ai_post. run_monad. unfold await.
  destruct (get_existing_code_from_github env (rec_repo_url d) w) as [evs w1 res].
  cbn in Hres, Hkeep. subst res. injection Hkeep as Ht Hn.
  destruct w1 as [tk nw tm gh na ne ng]. cbn in Ht, Hn. cbn.
  rewrite Ht, Htimer, Hn. cbn.
  destruct (ai_server env (ai_posts w)) as [c body|msg]; cbn; [|done].
  destruct (c =? 200)%Z; cbn; [|done].
  destruct body; done.
Qed.

(** Every event of a run obeying an alphabet that also allows the
    cancellation marks is in the alphabet. *)
Lemma obeys_all {T} (P : Event → Prop) (C : Suspension → Prop) (m : M T) (w : World) :
  (∀ s, P (Cancelled s)) → obeys P C m → Forall P (events (m w)).
Proof.
  intros HP Hm. specialize (Hm w).
  destruct (result (m w)) as [e|a]; [destruct e|]; try done.
  destruct Hm as (pre & s & -> & Hpre & _). apply Forall_app. split; [done|].
  by repeat constructor.
Qed.

(** Neither a publisher call nor anything of the notifier. *)
Definition no_publish_or_notify (e : Event) : Prop :=
  is_publisher_call e = false ∧ is_notifier_call e = false ∧ is_eval_post e = false.

Lemma process_round2_generation_error (env : Env) (r : TaskRequest) (d : RoundRecord)
    (w : World) (e : Exn) :
  tasks w !! task r = Some d →
  result (modify_existing_app env r d w) = inl e →
  result (process_round2 env r w) = inl e
  ∧ events (process_round2 env r w)
    = Call FnProcessRound2 :: Log INFO (ProcessingRound2 (task r))
        :: events (modify_existing_app env r d w).
Proof.
  intros Hd He. unfold process_round2. run_monad. rewrite Hd.
  destruct (modify_existing_app env r d w) as [evs w1 res]. cbn in *. by subst res.
Qed.

Module SampleRuns.

(** The world once round 1 of the sample task has run to its end. *)
Definition after_round1 : World :=
  world (process_task_with_deadline Sample.env_ok Sample.round1_request Sample.boot).

End SampleRuns.

(** In the sample environment the AI endpoint refuses connections.  Round 1
    is served by the fallback; round 2 of the same task ends with the error
    of modify_existing_app, without any publisher or notifier call. *)
Lemma round2_generation_failure_is_fatal :
  tasks SampleRuns.after_round1 !! "t1"
  = Some (mkRoundRecord "https://github.com/harshvk25/t1-0" "student@example.com"
            "build a calculator")
  ∧ ai_server Sample.env_ok 0 = HttpError "connection refused"
  ∧ result (process_round2 Sample.env_ok Sample.round2_request SampleRuns.after_round1)
    = inl (Exception "Failed to modify application: connection refused")
  ∧ List.filter (λ e, is_publisher_call e || is_notifier_call e || is_eval_post e)
      (events (process_task_with_deadline Sample.env_ok Sample.round2_request
                 SampleRuns.after_round1))
    = []
  ∧ last (events (process_task_with_deadline Sample.env_ok Sample.round2_request
                    SampleRuns.after_round1))
    = Some (Log ERROR (TaskFailed "Failed to modify application: connection refused")).
Proof. vm_compute. repeat split. Qed.

(** ** The background operation *)

(** The round that process_task_with_deadline hands to wait_for. *)
Definition selected_round (env : Env) (r : TaskRequest) : M unit :=
  if (round r =? 1)%Z then process_round1 env r else process_round2 env r.

(** What process_task_with_deadline logs once wait_for is over, from the
    outcome of the round and the seconds elapsed. *)
Definition epilogue (res : Exn + unit) (elapsed : nat) : list Event :=
  match res with
  | inl CancelledError | inl TimeoutError => [Log ERROR TaskTimedOut]
  | inl e => [Log ERROR (TaskFailed (str e))]
  | inr _ =>
      Log INFO (TaskCompleted elapsed)
        :: (if MAX_PROCESSING_TIME <? elapsed then [Log ERROR (DeadlineMissed elapsed)] else [])
  end.

Lemma process_task_with_deadline_unfold (env : Env) (r : TaskRequest) (w : World) :
  let inner := selected_round env r (set_timer (Some (now w + TASK_TIMEOUT)) w) in
  process_task_with_deadline env r w
  = mkRun (Call FnProcessTaskWithDeadline :: Log INFO StartingBackground
             :: events inner ++ epilogue (result inner) (now (world inner) - now w))
          (set_timer (timer w) (world inner))
          (inr tt).
Proof.
  unfold process_task_with_deadline, selected_round, wait_for. run_monad.
  destruct (round r =? 1)%Z;
    match goal with |- context [?f env r ?w'] => destruct (f env r w') as [evs w1 [e|[]]] end;
    try destruct e; destruct w1; cbn -[Nat.ltb Nat.sub MAX_PROCESSING_TIME];
    rewrite ?app_nil_r, <- ?app_assoc; try reflexivity;
    destruct (_ <? _); cbn -[Nat.ltb Nat.sub MAX_PROCESSING_TIME];
    rewrite ?app_nil_r, <- ?app_assoc; reflexivity.
Qed.

(** ** Generation failures in the two rounds *)

(** The timer of the enclosing wait_for, if any, fires no later than [t]. *)
Definition fires_by (w : World) (t : nat) : bool :=
  match timer w with
  | Some d => d <=? t
  | None => false
  end.

(** What modify_existing_app makes of a reply of the AI endpoint: the text
    of the exception its try block raises (no reply, a status other than 200,
    a 200 whose body cannot be decoded or inspected), or the page it takes
    from the body. *)
Definition reading (reply : HttpReply AiJson) : string + string :=
  match reply with
  | HttpError msg => inl msg
  | HttpResponse status_code body =>
      if (status_code =? 200)%Z then
        match body with
        | JsonRaises msg | JsonBadShape msg => inl msg
        | JsonOutput content | JsonChoices content => inr (extract_html_code content)
        | JsonOther repr => inr (extract_html_code (ContentStr repr))
        end
      else inl "AIPipe API request failed"
  end.

Lemma modify_existing_app_result (env : Env) (r : TaskRequest) (d : RoundRecord)
    (w : World) :
  let asked := now (world (get_existing_code_from_github env (rec_repo_url d) w)) in
  result (modify_existing_app env r d w)
  = if fires_by w (asked + ai_latency env (ai_posts w)) then inl CancelledError
    else match reading (ai_server env (ai_posts w)) with
         | inl msg => inl (modify_failed msg)
         | inr page =>
             inr [("index.html", page);
                  ("README.md", generate_updated_readme (rec_brief d) (brief r) (task r))]
         end.
Proof.
  cbn zeta.
  pose proof (get_existing_code_from_github_returns env (rec_repo_url d) w) as [files Hres].
  pose proof (get_existing_code_from_github_keeps env (λ w, (timer w, ai_posts w))
                (λ _ _, eq_refl) (λ _, eq_refl) (rec_repo_url d) w) as Hkeep.
  unfold modify_existing_app, ai_post, fires_by. run_monad. unfold await.
  destruct (get_existing_code_from_github env (rec_repo_url d) w) as [evs w1 res].
  cbn in Hres, Hkeep. subst res. injection Hkeep as Ht Hn.
  destruct w1 as [tk nw tm gh na ne ng]. cbn in Ht, Hn. subst tm na. cbn.
  destruct (timer w) as [t|]; cbn;
    [destruct (t <=? nw + ai_latency env (ai_posts w)); cbn; [done|]|];
    (destruct (ai_server env (ai_posts w)) as [c body|msg]; cbn; [|done];
     destruct (c =? 200)%Z; cbn; [|done];
     destruct body; done).
Qed.

Lemma fires_by_timer (w : World) (t : nat) : fires_by w t = true → timer w ≠ None.
Proof. unfold fires_by. by destruct (timer w). Qed.

Lemma process_round2_generation_world (env : Env) (r : TaskRequest) (d : RoundRecord)
    (w : World) (e : Exn) :
  tasks w !! task r = Some d →
  result (modify_existing_app env r d w) = inl e →
  world (process_round2 env r w) = world (modify_existing_app env r d w).
Proof.
  intros Hd He. unfold process_round2. run_monad. rewrite Hd.
  destruct (modify_existing_app env r d w) as [evs w1 res]. cbn in *. by subst res.
Qed.

(** The background operation on a round-2 task whose generation fails. *)
Lemma round2_generation_failure (env : Env) (r : TaskRequest) (d : RoundRecord) (w : World)
    (msg : string) :
  round r ≠ 1%Z → tasks w !! task r = Some d →
  reading (ai_server env (ai_posts w)) = inl msg →
  let run := process_task_with_deadline env r w in
  Forall no_publish_or_notify (events run)
  ∧ github (world run) = github w
  ∧ tasks (world run) = tasks w
  ∧ (last (events run)
       = Some (Log ERROR (TaskFailed ("Failed to modify application: " +:+ msg)))
     ∨ last (events run) = Some (Log ERROR TaskTimedOut) ∧ Cancelled AwaitAiPost ∈ events run).
Proof.
  intros Hr Hd Hmsg. apply Z.eqb_neq in Hr. cbn zeta.
  rewrite process_task_with_deadline_unfold. cbn zeta. cbn [events world].
  unfold selected_round. rewrite Hr.
  set (w' := set_timer (Some (now w + TASK_TIMEOUT)) w).
  assert (tasks w' !! task r = Some d) as Hd' by (by destruct w).
  pose proof (modify_existing_app_result env r d w') as Hres. cbn zeta in Hres.
  replace (ai_posts w') with (ai_posts w) in Hres by (by destruct w).
  rewrite Hmsg in Hres.
  assert (∃ e, result (modify_existing_app env r d w') = inl e
               ∧ (e = modify_failed msg ∨ e = CancelledError)) as (e & He & Hcase).
  { rewrite Hres. destruct (fires_by _ _); eauto. }
  destruct (process_round2_generation_error env r d w' e Hd' He) as [Hfail Hevs].
  pose proof (process_round2_generation_world env r d w' e Hd' He) as Hworld.
  pose proof (modify_existing_app_keeps env (λ w, (github w, tasks w))
                (λ _ _, eq_refl) (λ _, eq_refl) (λ _, eq_refl) r d w') as Hkeep.
  assert (Forall no_publish_or_notify (events (modify_existing_app env r d w'))) as Hquiet.
  { apply (obeys_all _ (λ _, True)); [done|]. by apply modify_existing_app_obeys. }
  rewrite Hfail, Hworld, Hevs. injection Hkeep as Hgh Htk.
  split; [|split; [|split]].
  - repeat (constructor; [done|]). apply Forall_app. split; [done|].
    destruct Hcase as [-> | ->]; by repeat constructor.
  - exact Hgh.
  - exact Htk.
  - destruct Hcase as [-> | ->]; cbn [epilogue modify_failed str app].
    + left. by rewrite !last_cons, last_snoc.
    + right. split; [by rewrite !last_cons, last_snoc|].
      pose proof (modify_existing_app_obeys env (λ _, True) (λ _ _ _, I) (λ _, I) (λ _, I)
                    I I (λ s, s = AwaitAiPost) r d eq_refl w') as Hcut.
      rewrite He in Hcut. destruct Hcut as (pre & s & -> & _ & ->).
      do 4 apply list_elem_of_further. rewrite <- app_assoc.
      apply elem_of_app. right. apply list_elem_of_here.
Qed.

(** What generate_app_with_ai makes of a reply of the AI endpoint: the page
    of a 200 body with an output or a first choice, and otherwise nothing. *)
Definition generated_page (reply : HttpReply AiJson) : option string :=
  match reply with
  | HttpResponse status_code (JsonOutput content)
  | HttpResponse status_code (JsonChoices content) =>
      if (status_code =? 200)%Z then Some (extract_html_code content) else None
  | _ => None
  end.

Lemma generate_app_with_ai_result (env : Env) (r : TaskRequest) (w : World) :
  result (generate_app_with_ai env r w)
  = if ai_not_configured (AIPIPE_API_KEY (CONFIG env)) then inr (generate_fallback_app r)
    else if fires_by w (now w + ai_latency env (ai_posts w)) then inl CancelledError
    else match generated_page (ai_server env (ai_posts w)) with
         | Some page => inr (generated_files r page)
         | None => inr (generate_fallback_app r)
         end.
Proof.
  unfold generate_app_with_ai, ai_post, fires_by. run_monad. unfold await.
  destruct w as [tk nw tm gh na ne ng]. cbn [timer ai_posts bump_ai set_now now].
  destruct (ai_not_configured _); [done|].
  destruct tm as [t|]; cbn;
    [destruct (t <=? nw + ai_latency env na); cbn; [done|]|];
    (destruct (ai_server env na) as [c body|msg]; cbn; [|done];
     destruct (c =? 200)%Z eqn:Hc; cbn; [|by destruct body];
     destruct body; done).
Qed.

(** C3, as the code has it.  Round 1: generate_app_with_ai raises no error of
    its own (only the timer of wait_for can cancel its request), and when the
    AI endpoint is not configured, does not answer, answers with a status
    other than 200 or with a 200 body of unexpected shape, what it returns is
    generate_fallback_app(request).  Round 2 has no fallback: unless the timer
    cancels the request first, modify_existing_app raises "Failed to modify
    application: ..." when the endpoint does not answer, answers with a status
    other than 200, or with a 200 body that cannot be decoded or inspected; a
    200 body that decodes to a value with neither an output nor a first choice
    is no error: its text is used as the page, through extract_html_code.
    Either error ends process_round2 before any publisher or notifier call,
    and the background operation of such a task logs the failure, or the
    timeout when the request was cancelled, with GitHub and [tasks] unchanged. *)
Theorem generation_failure_handling (env : Env) (r : TaskRequest) (d : RoundRecord)
    (w : World) :
  let reply := ai_server env (ai_posts w) in
  (∀ e, result (generate_app_with_ai env r w) = inl e → e = CancelledError ∧ timer w ≠ None)
  ∧ (ai_not_configured (AIPIPE_API_KEY (CONFIG env)) = true ∨ ai_reply_unusable reply = true →
     ∀ files, result (generate_app_with_ai env r w) = inr files →
              files = generate_fallback_app r)
  ∧ result (generate_app_with_ai env r w)
    = (if ai_not_configured (AIPIPE_API_KEY (CONFIG env))
       then inr (generate_fallback_app r)
       else if fires_by w (now w + ai_latency env (ai_posts w)) then inl CancelledError
       else match generated_page reply with
            | Some page => inr (generated_files r page)
            | None => inr (generate_fallback_app r)
            end)
  ∧ result (modify_existing_app env r d w)
    = (if fires_by w (now (world (get_existing_code_from_github env (rec_repo_url d) w))
                      + ai_latency env (ai_posts w))
       then inl CancelledError
       else match reading reply with
            | inl msg => inl (Exception ("Failed to modify application: " +:+ msg))
            | inr page =>
                inr [("index.html", page);
                     ("README.md",
                      generate_updated_readme (rec_brief d) (brief r) (task r))]
            end)
  ∧ (∀ msg, reply = HttpError msg → reading reply = inl msg)
  ∧ (∀ c body, reply = HttpResponse c body → c ≠ 200%Z →
       reading reply = inl "AIPipe API request failed")
  ∧ (∀ msg, reply = HttpResponse 200 (JsonRaises msg)
            ∨ reply = HttpResponse 200 (JsonBadShape msg) →
       reading reply = inl msg)
  ∧ (∀ repr, reply = HttpResponse 200 (JsonOther repr) →
       reading reply = inr (extract_html_code (ContentStr repr)))
  ∧ (tasks w !! task r = Some d →
     ∀ e, result (modify_existing_app env r d w) = inl e →
          result (process_round2 env r w) = inl e
          ∧ Forall no_publish_or_notify (events (process_round2 env r w)))
  ∧ (round r ≠ 1%Z → tasks w !! task r = Some d →
     ∀ msg, reading reply = inl msg →
       let run := process_task_with_deadline env r w in
       Forall no_publish_or_notify (events run)
       ∧ github (world run) = github w
       ∧ tasks (world run) = tasks w
       ∧ (last (events run)
            = Some (Log ERROR (TaskFailed ("Failed to modify application: " +:+ msg)))
          ∨ last (events run) = Some (Log ERROR TaskTimedOut)
            ∧ Cancelled AwaitAiPost ∈ events run)).
Proof.
  cbn zeta.
  split; [apply generate_app_with_ai_falls_back|].
  split; [apply generate_app_with_ai_falls_back|].
  split; [apply generate_app_with_ai_result|].
  split; [apply modify_existing_app_result|].
  split; [by intros msg ->|].
  split.
  { intros c body -> Hc. apply Z.eqb_neq in Hc. cbn. by rewrite Hc. }
  split; [by intros msg [-> | ->]|].
  split; [by intros repr ->|].
  split.
  - intros Hd e He.
    destruct (process_round2_generation_error env r d w e Hd He) as [Hres Hevs].
    split; [done|]. rewrite Hevs.
    repeat (constructor; [done|]).
    apply (obeys_all _ (λ _, True)); [done|].
    by apply modify_existing_app_obeys.
  - intros Hr Hd msg Hmsg. by apply (round2_generation_failure env r d w msg).
Qed.

(** ** The two rounds, stage by stage *)

(** process_round1 up to the notification: generation, publication and the
    write to [tasks]. *)
Definition round1_stages (env : Env) (request : TaskRequest) : M PublishInfo :=
  emit (Call FnProcessRound1) ;;
  log INFO (ProcessingRound1 (task request)) ;;
  app_files ← generate_app_with_ai env request;
  repo_info ← create_github_repository env request app_files;
  modify (set_tasks (insert (task request)
    (mkRoundRecord (repo_url repo_info) (email request) (brief request)))) ;;
  mret repo_info.

(** process_round2 up to the notification. *)
Definition round2_stages (env : Env) (request : TaskRequest) : M PublishInfo :=
  emit (Call FnProcessRound2) ;;
  log INFO (ProcessingRound2 (task request)) ;;
  w ← get_world;
  match tasks w !! task request with
  | None => raise (Exception "No Round 1 data found for this task")
  | Some round1_data =>
      updated_files ← modify_existing_app env request round1_data;
      update_github_repository env request updated_files
  end.

(** The last statement of both rounds. *)
Definition notify (env : Env) (request : TaskRequest) (n : Z) (repo_info : PublishInfo)
    : M unit :=
  send_evaluation env
    (mkTaskResponse (email request) (task request) n (nonce request)
       (repo_url repo_info) (commit_sha repo_info) (pages_url repo_info))
    (evaluation_url request).

Lemma process_round1_split (env : Env) (r : TaskRequest) (w : World) :
  process_round1 env r w = (round1_stages env r ≫= notify env r 1) w.
Proof.
  unfold process_round1, round1_stages, notify. run_monad.
  destruct (generate_app_with_ai env r w) as [evs1 w1 [e|files]]; [done|].
  cbn. destruct (create_github_repository env r files w1) as [evs2 w2 [e|info]]; [done|].
  cbn. destruct (send_evaluation _ _ _ _) as [evs3 w3 res]. cbn.
  by rewrite app_nil_r, <- !app_assoc.
Qed.

Lemma process_round2_split (env : Env) (r : TaskRequest) (w : World) :
  process_round2 env r w = (round2_stages env r ≫= notify env r 2) w.
Proof.
  unfold process_round2, round2_stages, notify. run_monad.
  destruct (tasks w !! task r) as [d|]; [|done].
  destruct (modify_existing_app env r d w) as [evs1 w1 [e|files]]; [done|].
  cbn. destruct (update_github_repository env r files w1) as [evs2 w2 [e|info]]; [done|].
  cbn. destruct (send_evaluation _ _ _ _) as [evs3 w3 res]. cbn.
  by rewrite <- !app_assoc.
Qed.

Section Rounds.

Variable env : Env.
Variable r : TaskRequest.

Context (P : Event → Prop) (C : Suspension → Prop).
Hypothesis P_log : ∀ l msg, msg ≠ TaskTimedOut → P (Log l msg).
Hypothesis P_github : ∀ op, P (Github op).
Hypothesis P_ai : ∀ n, P (AiPost n).
Hypothesis P_sleep : ∀ d, P (Sleep d).
Hypothesis P_call : ∀ f, f ≠ FnSendEvaluation → f ≠ FnProcessRound1 →
                         f ≠ FnProcessRound2 → P (Call f).
Hypothesis P_round1 : P (Call FnProcessRound1).
Hypothesis P_round2 : P (Call FnProcessRound2).
Hypothesis C_ai : C AwaitAiPost.
Hypothesis C_pages : C AwaitPagesSleep.

Local Hint Extern 1 (P (Log _ _)) => apply P_log; discriminate : obeys.
Local Hint Extern 1 (P (Call _)) => apply P_call; discriminate : obeys.
Local Hint Resolve P_github P_ai P_sleep P_round1 P_round2 C_ai C_pages : obeys.
Local Hint Resolve generate_app_with_ai_obeys create_github_repository_obeys
  modify_existing_app_obeys update_github_repository_obeys : obeys.

Lemma round1_stages_obeys : obeys P C (round1_stages env r).
Proof. unfold round1_stages. repeat obeys_step. Qed.

Lemma round2_stages_obeys : obeys P C (round2_stages env r).
Proof. unfold round2_stages. repeat obeys_step. Qed.

Lemma notify_obeys (n : Z) (info : PublishInfo) :
  C AwaitEvalPost → C AwaitRetrySleep → P (Call FnSendEvaluation) →
  (∀ p, resp_round p = n → resp_task p = task r → P (EvalPost (evaluation_url r) p)) →
  obeys P C (notify env r n info).
Proof.
  intros HC1 HC2 HP1 HP2. unfold notify.
  apply send_evaluation_obeys; auto with obeys.
Qed.

End Rounds.

(** ** Rounds other than 1 *)

Lemma process_round2_starts (env : Env) (r : TaskRequest) (w : World) :
  ∃ rest, events (process_round2 env r w) = Call FnProcessRound2 :: rest.
Proof.
  unfold process_round2. run_monad. repeat break_match; cbn; eauto.
Qed.

(** What a run of the round-2 path may contain: no call of process_round1,
    and notification requests only for round 2 of this task, to its url. *)
Definition round2_event (r : TaskRequest) (e : Event) : Prop :=
  e ≠ Call FnProcessRound1
  ∧ match e with
    | EvalPost url p => resp_round p = 2%Z ∧ resp_task p = task r ∧ url = evaluation_url r
    | _ => True
    end.

Lemma process_round2_events (env : Env) (r : TaskRequest) (w : World) :
  Forall (round2_event r) (events (process_round2 env r w)).
Proof.
  apply (obeys_all _ (λ _, True)); [done|].
  intros w'. rewrite process_round2_split. revert w'.
  change (obeys (round2_event r) (λ _, True) (round2_stages env r ≫= notify env r 2)).
  apply obeys_bind.
  - apply round2_stages_obeys; try done.
    intros f ? ? ?. split; [congruence|done].
  - intros info. apply notify_obeys; try done.
Qed.

(** C10: when the round of the request is not 1, process_task_with_deadline
    runs process_round2 and never process_round1, and every notification
    request of the run carries round 2 (with the task id of the request, to
    its evaluation url), whatever round was submitted. *)
Theorem other_rounds_take_round2_path (env : Env) (r : TaskRequest) (w : World) :
  round r ≠ 1%Z →
  (Call FnProcessRound2 ∈ events (process_task_with_deadline env r w))
  ∧ (Call FnProcessRound1 ∉ events (process_task_with_deadline env r w))
  ∧ ∀ url p, EvalPost url p ∈ events (process_task_with_deadline env r w) →
             resp_round p = 2%Z ∧ resp_task p = task r ∧ url = evaluation_url r.
Proof.
  intros Hr. apply Z.eqb_neq in Hr.
  rewrite process_task_with_deadline_unfold. cbn [events].
  unfold selected_round. rewrite Hr.
  set (w' := set_timer _ w).
  assert (Hall : Forall (round2_event r)
            (Call FnProcessTaskWithDeadline :: Log INFO StartingBackground
               :: events (process_round2 env r w')
               ++ epilogue (result (process_round2 env r w'))
                    (now (world (process_round2 env r w')) - now w))).
  { repeat (constructor; [done|]). apply Forall_app. split.
    - apply process_round2_events.
    - unfold epilogue. repeat break_match; by repeat constructor. }
  rewrite Forall_forall in Hall.
  split; [|split].
  - destruct (process_round2_starts env r w') as [rest ->].
    do 2 apply list_elem_of_further. apply list_elem_of_here.
  - intros Hin. by destruct (Hall _ Hin).
  - intros url p Hin. by destruct (Hall _ Hin).
Qed.

Module SampleOther.

(** An environment whose AI endpoint answers with a page. *)
Definition env_ai : Env :=
  mkEnv (mkConfig "hvk1995" (Some "ghp_token") (Some "aipipe-key"))
        (λ _, HttpResponse 200 (JsonOutput (ContentStr "```html
<html><body>dark</body></html>
```")))
        (λ _, 2)
        (λ _, HttpResponse 200 tt) (λ _, 1)
        (λ _, None) (λ _, 1)
        "harshvk25"
        (λ task _ t, task +:+ "-" +:+ pretty t)
        (λ _ n, "sha" +:+ pretty n).

(** A request with round 0 for a task whose round 1 has run. *)
Definition round0_request : TaskRequest :=
  mkTaskRequest "student@example.com" "hvk1995" "t1" 0 "nonce-0"
    "add a dark mode" [] "http://eval.example/notify" [].

Definition round0_run : Run unit :=
  process_task_with_deadline env_ai round0_request
    (world (process_task_with_deadline env_ai Sample.round1_request Sample.boot)).

End SampleOther.

Lemma other_rounds_take_round2_path_witness :
  ((Call FnProcessRound2 ∈ events SampleOther.round0_run)
   ∧ (Call FnProcessRound1 ∉ events SampleOther.round0_run)
   ∧ ∀ url p, EvalPost url p ∈ events SampleOther.round0_run →
              resp_round p = 2%Z ∧ resp_task p = task SampleOther.round0_request
              ∧ url = evaluation_url SampleOther.round0_request)
  ∧ List.filter is_eval_post (events SampleOther.round0_run)
    = [EvalPost "http://eval.example/notify"
         (mkTaskResponse "student@example.com" "t1" 2 "nonce-0"
            "https://github.com/harshvk25/t1-2" "sha7"
            "https://harshvk25.github.io/t1-2")].
Proof.
  split.
  - apply (other_rounds_take_round2_path SampleOther.env_ai SampleOther.round0_request).
    discriminate.
  - vm_compute. reflexivity.
Defined.

(** ** The task store *)

(** Two round-1 submissions of the same task id: the second run replaces the
    record the first one wrote (new repository address, new brief). *)
Module SampleAgain.


End SampleAgain.


Lemma process_round1_tasks (env : Env) (r : TaskRequest) (w : World) :
  tasks (world (process_round1 env r w)) = tasks w
  ∨ ∃ url, tasks (world (process_round1 env r w))
           = <[task r := mkRoundRecord url (email r) (brief r)]> (tasks w).
Proof.
  rewrite process_round1_split. unfold round1_stages, notify. run_monad.
  pose proof (generate_app_with_ai_keeps env tasks (λ _ _, eq_refl) (λ _, eq_refl) r w) as H1.
  destruct (generate_app_with_ai env r w) as [evs1 w1 [e|files]]; cbn in *; [by left|].
  pose proof (create_github_repository_keeps env tasks (λ _ _, eq_refl) (λ _ _, eq_refl)
                (λ _, eq_refl) r files w1) as H2.
  destruct (create_github_repository env r files w1) as [evs2 w2 [e|info]]; cbn in *.
  { left. congruence. }
  right. exists (repo_url info).
  match goal with |- context [send_evaluation env ?p ?u ?w'] =>
    pose proof (send_evaluation_keeps env tasks (λ _ _, eq_refl) (λ _, eq_refl) p u w') as H3;
    destruct (send_evaluation env p u w') as [evs3 w3 res]
  end.
  cbn in *. rewrite H3. destruct w2; cbn in *. congruence.
Qed.





(** ** The stage time limit *)

(** An event other than a cancellation mark and the timeout log line. *)
Definition loud (e : Event) : Prop :=
  (∀ s, e ≠ Cancelled s) ∧ (∀ l, e ≠ Log l TaskTimedOut).

(** An event that does not belong to the notifier. *)
Definition not_of_notifier (e : Event) : Prop :=
  is_notifier_call e = false ∧ is_eval_post e = false.

Definition quiet (e : Event) : Prop := loud e ∧ not_of_notifier e.

(** The suspension points before the notification, and those inside it. *)
Definition early (s : Suspension) : Prop := s = AwaitAiPost ∨ s = AwaitPagesSleep.
Definition late (s : Suspension) : Prop := s = AwaitEvalPost ∨ s = AwaitRetrySleep.

(** How a round that the timer cancelled looks: everything before the
    cancellation mark is loud; cancelled before the notification, the round
    has emitted nothing of the notifier; cancelled inside it, send_evaluation
    had been called. *)
Definition cut_round (evs : list Event) : Prop :=
  ∃ pre s, evs = pre ++ [Cancelled s] ∧ Forall loud pre
           ∧ (early s ∧ Forall not_of_notifier pre
              ∨ late s ∧ Call FnSendEvaluation ∈ pre).

Lemma notify_starts (env : Env) (r : TaskRequest) (n : Z) (info : PublishInfo) (w : World) :
  ∃ rest, events (notify env r n info w) = Call FnSendEvaluation :: rest.
Proof.
  unfold notify, send_evaluation. run_monad.
  destruct (send_attempts _ _ _ _ _). cbn. eauto.
Qed.

Lemma staged_cut {T} (stages : M T) (notification : T → M unit) (w : World) :
  obeys quiet early stages →
  (∀ a, obeys loud late (notification a)) →
  (∀ a w', ∃ rest, events (notification a w') = Call FnSendEvaluation :: rest) →
  match result ((stages ≫= notification) w) with
  | inl CancelledError => cut_round (events ((stages ≫= notification) w))
  | inl TimeoutError => False
  | _ => Forall loud (events ((stages ≫= notification) w))
  end.
Proof.
  intros Hs Hn Hstart. specialize (Hs w). unfold mbind, M_bind, bind.
  destruct (stages w) as [evs w1 [e|a]]; cbn in *.
  - destruct e; try done; try (eapply Forall_impl; [exact Hs|by intros ? []]).
    destruct Hs as (pre & s & -> & Hpre & Hearly). exists pre, s.
    split; [done|]. split; [eapply Forall_impl; [exact Hpre|by intros ? []]|].
    left. split; [done|]. eapply Forall_impl; [exact Hpre|by intros ? []].
  - specialize (Hn a w1). destruct (Hstart a w1) as [rest Hrest].
    assert (Forall loud evs) as Hevs by (eapply Forall_impl; [exact Hs|by intros ? []]).
    destruct (notification a w1) as [evs' w2 [e|[]]]; cbn in *.
    + destruct e; try done; try (by apply Forall_app).
      destruct Hn as (pre & s & -> & Hpre & Hlate). exists (evs ++ pre), s.
      rewrite app_assoc. split; [done|]. split; [by apply Forall_app|].
      right. split; [done|]. apply elem_of_app. right.
      destruct pre as [|x pre]; cbn in Hrest; [discriminate|].
      injection Hrest as -> _. apply list_elem_of_here.
    + by apply Forall_app.
Qed.

Lemma selected_round_cut (env : Env) (r : TaskRequest) (w : World) :
  match result (selected_round env r w) with
  | inl CancelledError => cut_round (events (selected_round env r w))
  | inl TimeoutError => False
  | _ => Forall loud (events (selected_round env r w))
  end.
Proof.
  assert (Hloud_log : ∀ l msg, msg ≠ TaskTimedOut → loud (Log l msg)).
  { intros l msg Hmsg. split; [done|]. congruence. }
  assert (Hquiet_log : ∀ l msg, msg ≠ TaskTimedOut → quiet (Log l msg)).
  { intros l msg Hmsg. split; [by apply Hloud_log|done]. }
  assert (Hquiet_call : ∀ f, f ≠ FnSendEvaluation → f ≠ FnProcessRound1 →
                             f ≠ FnProcessRound2 → quiet (Call f)).
  { intros f Hf _ _. repeat split; try done. by destruct f. }
  assert (Hnotify : ∀ n info, obeys loud late (notify env r n info)).
  { intros n info. apply notify_obeys; try done; by right + left. }
  unfold selected_round. destruct (round r =? 1)%Z.
  - rewrite process_round1_split. apply staged_cut.
    + apply round1_stages_obeys; try done; by left + right.
    + apply Hnotify.
    + apply notify_starts.
  - rewrite process_round2_split. apply staged_cut.
    + apply round2_stages_obeys; try done; by left + right.
    + apply Hnotify.
    + apply notify_starts.
Qed.

Module SampleSlow.

(** GitHub takes 59 seconds per request; the evaluation server answers 503
    after 2 seconds.  Publication is over after 475 seconds, so the timer
    (480 seconds) fires inside send_evaluation. *)
Definition env_slow : Env :=
  mkEnv (mkConfig "hvk1995" (Some "ghp_token") None)
        (λ _, HttpError "connection refused") (λ _, 0)
        (λ _, HttpResponse 503 tt) (λ _, 2)
        (λ _, None) (λ _, 59)
        "harshvk25"
        (λ task _ t, task +:+ "-" +:+ pretty t)
        (λ _ n, "sha" +:+ pretty n).

Definition slow_run : Run unit :=
  process_task_with_deadline env_slow Sample.round1_request Sample.boot.

Definition slow_payload : TaskResponse :=
  mkTaskResponse "student@example.com" "t1" 1 "nonce-1"
    "https://github.com/harshvk25/t1-0" "sha5" "https://harshvk25.github.io/t1-0".

End SampleSlow.

Definition is_timeout_or_notifier (e : Event) : bool :=
  match e with
  | Log ERROR TaskTimedOut | Cancelled _ | Call FnSendEvaluation | EvalPost _ _ => true
  | _ => false
  end.

(** The stage pipeline of this run exceeds TASK_TIMEOUT: the timer cancels
    it and the timeout is logged.  Yet send_evaluation had been called and
    two notification requests had been made, the first of them answered. *)
Lemma timeout_after_notifier_calls :
  List.filter is_timeout_or_notifier (events SampleSlow.slow_run)
  = [Call FnSendEvaluation;
     EvalPost "http://eval.example/notify" SampleSlow.slow_payload;
     EvalPost "http://eval.example/notify" SampleSlow.slow_payload;
     Cancelled AwaitEvalPost;
     Log ERROR TaskTimedOut]
  ∧ now (world SampleSlow.slow_run) = 480
  ∧ eval_posts (world SampleSlow.slow_run) = 2.
Proof. vm_compute. repeat split. Qed.

(** ** Publishing round 2: merge semantics *)

(** No GitHub request fails for a reason outside the repository state. *)
Definition no_faults (env : Env) : Prop := ∀ k, gh_fault env k = None.

Lemma bind_returns {T U} (m : M T) (k : T → M U) (w w1 : World) (evs : list Event) (a : T) :
  m w = mkRun evs w1 (inr a) → (m ≫= k) w = after evs (k a w1).
Proof. intros H. unfold mbind, M_bind, bind. by rewrite H. Qed.

(** The request a file of the new set leads to: an update when the
    repository has a file of that name, a creation otherwise. *)
Definition merge_request (full : string) (old : gmap string string) (p c : string) : Event :=
  match old !! p with
  | Some _ => Github (GhUpdateFile full p c)
  | None => Github (GhCreateFile full p c BranchMain)
  end.

(** One turn of the loop of update_github_repository. *)
Lemma update_one_file (env : Env) (full p c : string) (w : World) (repo : Repo) :
  no_faults env → github w !! full = Some repo →
  ∃ evs w1,
    try_except
      (existing_file ← gh_get_contents env full p;
       gh_update_file env full p c ;;
       log INFO (FileUpdated p))
      (except_GithubException
         (gh_create_file env full p c BranchMain ;;
          log INFO (NewFileCreated p))) w
    = mkRun evs w1 (inr tt)
    ∧ github w1
      = <[full := mkRepo (<[p := c]> (repo_files repo)) (S (repo_commits repo))]> (github w)
    ∧ merge_request full (repo_files repo) p c ∈ evs
    ∧ Forall (λ e, ∀ f q x b, e = Github (GhCreateFile f q x b) ∨ e = Github (GhUpdateFile f q x)
                              → q = p) evs.
Proof.
  intros Hnf Hrepo.
  unfold gh_get_contents, gh_update_file, gh_create_file, gh_request, merge_request.
  run_monad. rewrite !Hnf.
  destruct w as [tk nw tm gh na ne ng]. cbn in Hrepo. cbn. rewrite Hrepo.
  destruct (repo_files repo !! p) eqn:Hp; cbn; rewrite !Hnf; cbn; rewrite Hrepo, Hp; cbn.
  - eexists _, _. split; [reflexivity|]. cbn. split; [done|].
    split; [do 1 apply list_elem_of_further; apply list_elem_of_here|].
    repeat constructor; intros f q x b [H|H]; by simplify_eq.
  - eexists _, _. split; [reflexivity|]. cbn. split; [done|].
    split; [do 1 apply list_elem_of_further; apply list_elem_of_here|].
    repeat constructor; intros f q x b [H|H]; by simplify_eq.
Qed.

Lemma update_all_files_merges (env : Env) (full : string) (files : Files) :
  no_faults env → NoDup files.*1 →
  ∀ (w : World) (repo : Repo), github w !! full = Some repo →
  ∃ evs w1,
    update_all_files env full files w = mkRun evs w1 (inr tt)
    ∧ github w1
      = <[full := mkRepo (list_to_map files ∪ repo_files repo)
                         (length files + repo_commits repo)]> (github w)
    ∧ (∀ p c, (p, c) ∈ files → merge_request full (repo_files repo) p c ∈ evs)
    ∧ Forall (λ e, ∀ f q x b, e = Github (GhCreateFile f q x b) ∨ e = Github (GhUpdateFile f q x)
                              → q ∈ files.*1) evs.
Proof.
  intros Hnf. induction files as [|[p c] rest IH]; intros Hnd w repo Hrepo.
  - exists [], w. split; [done|]. split; [|split; [|done]].
    + rewrite list_to_map_nil, (left_id_L ∅ (∪)). cbn.
      rewrite insert_id; [done|]. by destruct repo.
    + intros p c Hin. by apply elem_of_nil in Hin.
  - apply NoDup_cons in Hnd as [Hp Hnd].
    destruct (update_one_file env full p c w repo Hnf Hrepo)
      as (evs1 & w1 & Hrun1 & Hgh1 & Hev1 & Hall1).
    set (repo1 := mkRepo (<[p := c]> (repo_files repo)) (S (repo_commits repo))) in *.
    destruct (IH Hnd w1 repo1) as (evs2 & w2 & Hrun2 & Hgh2 & Hev2 & Hall2).
    { by rewrite Hgh1, lookup_insert_eq. }
    cbn [update_all_files]. rewrite (bind_returns _ _ _ _ _ _ Hrun1), Hrun2. cbn [after].
    exists (evs1 ++ evs2), w2. split; [done|]. split; [|split].
    + rewrite Hgh2, Hgh1, insert_insert_eq. cbn [repo_files repo_commits repo1 length].
      rewrite list_to_map_cons, <- insert_union_l.
      rewrite insert_union_r by by apply not_elem_of_list_to_map_1.
      do 2 f_equal. lia.
    + intros p' c' Hin. apply elem_of_app.
      apply elem_of_cons in Hin as [[= -> ->]|Hin]; [by left|right].
      specialize (Hev2 p' c' Hin). unfold merge_request in *. cbn [repo_files repo1] in Hev2.
      rewrite lookup_insert_ne in Hev2; [done|].
      intros ->. apply Hp. apply list_elem_of_fmap. by exists (p', c').
    + apply Forall_app. split.
      * eapply Forall_impl; [exact Hall1|]. cbn. intros e He f q x b Hq.
        rewrite (He f q x b Hq). apply list_elem_of_here.
      * eapply Forall_impl; [exact Hall2|]. cbn. intros e He f q x b Hq.
        apply list_elem_of_further. by eapply He.
Qed.

Lemma update_github_repository_run (env : Env) (r : TaskRequest) (files : Files) (w : World)
    (d : RoundRecord) (repo_name username : string) (rest_url : list string) (repo : Repo) :
  no_faults env → NoDup files.*1 →
  tasks w !! task r = Some d →
  rev (split "/" (rec_repo_url d)) = repo_name :: username :: rest_url →
  github w !! (username +:+ "/" +:+ repo_name) = Some repo →
  0 < length files + repo_commits repo →
  let full := username +:+ "/" +:+ repo_name in
  ∃ evs w1 sha,
    update_github_repository env r files w
    = mkRun evs w1
        (inr (mkPublishInfo (html_url full) sha
                ("https://" +:+ username +:+ ".github.io/" +:+ repo_name)))
    ∧ github w1
      = <[full := mkRepo (list_to_map files ∪ repo_files repo)
                         (length files + repo_commits repo)]> (github w)
    ∧ (∀ p c, (p, c) ∈ files → merge_request full (repo_files repo) p c ∈ evs)
    ∧ Forall (λ e, ∀ f q x b, e = Github (GhCreateFile f q x b) ∨ e = Github (GhUpdateFile f q x)
                              → q ∈ files.*1) evs.
Proof.
  intros Hnf Hnd Htask Hurl Hrepo Hcommits full.
  unfold update_github_repository, repo_of_url, gh_get_repo, gh_latest_commit_sha,
    gh_request.
  run_monad. rewrite Htask, Hurl. cbn. rewrite !Hnf. cbn.
  destruct w as [tk nw tm gh na ne ng]. cbn in Hrepo. cbn. rewrite Hrepo. cbn.
  match goal with
  | |- context [update_all_files env ?f files ?w'] =>
      destruct (update_all_files_merges env f files Hnf Hnd w' repo Hrepo)
        as (evs & w1 & Hrun & Hgh & Hev & Hall);
      rewrite Hrun
  end.
  cbn. rewrite !Hnf. destruct w1 as [tk1 nw1 tm1 gh1 na1 ne1 ng1]. cbn in Hgh. cbn.
  rewrite Hgh, lookup_insert_eq. cbn.
  destruct (length files + repo_commits repo) as [|n] eqn:Hn; [lia|]. cbn.
  eexists _, _, _. split; [reflexivity|]. cbn. split; [done|]. split.
  - intros p c Hin. repeat apply list_elem_of_further. apply elem_of_app. left.
    by apply Hev.
  - repeat (constructor; [intros f q x b [H|H]; discriminate|]).
    apply Forall_app. split; [done|].
    repeat (constructor; [intros f q x b [H|H]; discriminate|]). done.
Qed.

Module SampleMerge.

(** create with {index.html: Y, README.md: Z}, the record stored as
    process_round1 stores it, update with {index.html: X}, then the read-back
    of get_existing_code_from_github. *)
Definition created : Run PublishInfo :=
  create_github_repository Sample.env_ok Sample.round1_request
    [("index.html", "Y"); ("README.md", "Z")] Sample.boot.

Definition stored : World :=
  set_tasks (insert "t1" (mkRoundRecord "https://github.com/harshvk25/t1-0"
                            "student@example.com" "build a calculator"))
    (world created).

Definition updated : Run PublishInfo :=
  update_github_repository Sample.env_ok Sample.round2_request [("index.html", "X")] stored.

Definition fetched : Run Files :=
  get_existing_code_from_github Sample.env_ok "https://github.com/harshvk25/t1-0"
    (world updated).

(** The repository of the sample task after round 1. *)
Definition round1_repo : Repo :=
  default (mkRepo ∅ 0) (github SampleRuns.after_round1 !! "harshvk25/t1-0").

End SampleMerge.

(** After create {index.html: Y, README.md: Z} and update {index.html: X},
    the read-back returns index.html alone, and the main branch holds a third
    file, docs/index.html, which create added with the content of the last
    file of the set. *)
Lemma fetch_after_update_differs :
  result SampleMerge.created
  = inr (mkPublishInfo "https://github.com/harshvk25/t1-0" "sha3"
           "https://harshvk25.github.io/t1-0")
  ∧ result SampleMerge.fetched = inr [("index.html", "X")]
  ∧ (repo_files <$> github (world SampleMerge.updated) !! "harshvk25/t1-0")
    = Some (list_to_map [("index.html", "X"); ("README.md", "Z"); ("docs/index.html", "Z")]).
Proof. split; [|split]; vm_compute; reflexivity. Qed.

(** C6, as the code has it: when no GitHub request fails,
    update_github_repository sends, for each file of the new set, an update
    request if the main branch has a file of that name and a create request
    otherwise, and no request for any other file; afterwards the main branch
    holds the new set laid over the old files, so no file is deleted.  On a
    branch holding {a: Y, b: Z}, update with {a: X} leaves {a: X, b: Z}. *)
Theorem update_github_repository_merges (env : Env) (r : TaskRequest) (files : Files)
    (w : World) (d : RoundRecord) (repo_name username : string) (rest_url : list string)
    (repo : Repo) :
  no_faults env → NoDup files.*1 →
  tasks w !! task r = Some d →
  rev (split "/" (rec_repo_url d)) = repo_name :: username :: rest_url →
  github w !! (username +:+ "/" +:+ repo_name) = Some repo →
  0 < length files + repo_commits repo →
  let full := username +:+ "/" +:+ repo_name in
  let run := update_github_repository env r files w in
  ∃ info repo',
    result run = inr info
    ∧ repo_url info = html_url full
    ∧ github (world run) !! full = Some repo'
    ∧ repo_files repo' = list_to_map files ∪ repo_files repo
    ∧ (∀ p c, (p, c) ∈ files →
         repo_files repo' !! p = Some c
         ∧ merge_request full (repo_files repo) p c ∈ events run)
    ∧ (∀ p, p ∉ files.*1 →
         repo_files repo' !! p = repo_files repo !! p
         ∧ ∀ f x b, (Github (GhCreateFile f p x b) ∉ events run)
                    ∧ (Github (GhUpdateFile f p x) ∉ events run))
    ∧ (∀ p, is_Some (repo_files repo !! p) → is_Some (repo_files repo' !! p))
    ∧ (∀ a b X Y Z, a ≠ b → files = [(a, X)] → repo_files repo = {[a := Y; b := Z]} →
         repo_files repo' = {[a := X; b := Z]}).
Proof.
  intros Hnf Hnd Htask Hurl Hrepo Hcommits full run.
  destruct (update_github_repository_run env r files w d repo_name username rest_url repo
              Hnf Hnd Htask Hurl Hrepo Hcommits) as (evs & w1 & sha & Hrun & Hgh & Hev & Hall).
  subst run. rewrite Hrun. cbn [result world events].
  eexists _, (mkRepo (list_to_map files ∪ repo_files repo) (length files + repo_commits repo)).
  split; [reflexivity|]. split; [reflexivity|].
  split; [by rewrite Hgh, lookup_insert_eq|]. cbn [repo_files].
  split; [reflexivity|]. split; [|split; [|split]].
  - intros p c Hin. split; [|by apply Hev].
    apply lookup_union_Some_l. by apply elem_of_list_to_map_1.
  - intros p Hp. split.
    + apply lookup_union_r. by apply not_elem_of_list_to_map_1.
    + rewrite Forall_forall in Hall.
      intros f x b. split; intros Hin; apply Hp; apply (Hall _ Hin f p x b); eauto.
  - intros p [c Hc]. rewrite lookup_union. rewrite Hc.
    destruct (list_to_map files !! p); by eexists.
  - intros a b X Y Z Hab -> ->. cbn.
    rewrite <- insert_union_l, (left_id_L ∅ (∪)). apply insert_insert_eq.
Qed.

Lemma update_github_repository_merges_witness :
  let full := "harshvk25" +:+ "/" +:+ "t1-0" in
  let files := [("index.html", "<html>v2</html>"); ("NOTES.md", "added in round 2")] in
  let run := update_github_repository Sample.env_ok Sample.round2_request files
               SampleRuns.after_round1 in
  ∃ info repo',
    result run = inr info
    ∧ repo_url info = html_url full
    ∧ github (world run) !! full = Some repo'
    ∧ repo_files repo' = list_to_map files ∪ repo_files SampleMerge.round1_repo
    ∧ (∀ p c, (p, c) ∈ files →
         repo_files repo' !! p = Some c
         ∧ merge_request full (repo_files SampleMerge.round1_repo) p c ∈ events run)
    ∧ (∀ p, p ∉ files.*1 →
         repo_files repo' !! p = repo_files SampleMerge.round1_repo !! p
         ∧ ∀ f x b, (Github (GhCreateFile f p x b) ∉ events run)
                    ∧ (Github (GhUpdateFile f p x) ∉ events run))
    ∧ (∀ p, is_Some (repo_files SampleMerge.round1_repo !! p) →
            is_Some (repo_files repo' !! p))
    ∧ (∀ a b X Y Z, a ≠ b → files = [(a, X)] →
         repo_files SampleMerge.round1_repo = {[a := Y; b := Z]} →
         repo_files repo' = {[a := X; b := Z]}).
Proof.
  apply (update_github_repository_merges Sample.env_ok Sample.round2_request
           [("index.html", "<html>v2</html>"); ("NOTES.md", "added in round 2")]
           SampleRuns.after_round1
           (mkRoundRecord "https://github.com/harshvk25/t1-0" "student@example.com"
              "build a calculator")
           "t1-0" "harshvk25" ["github.com"; EmptyString; "https:"]
           SampleMerge.round1_repo).
  - intros k. reflexivity.
  - cbn. apply NoDup_cons. split; [|apply NoDup_singleton].
    intros H%list_elem_of_singleton. discriminate.
  - vm_compute. reflexivity.
  - vm_compute. reflexivity.
  - vm_compute. reflexivity.
  - vm_compute. lia.
Defined.

(** * Further properties of app.py *)

(** ** Strings: prefixes and substrings *)

Lemma append_cons (c : ascii) (a b : string) : String c a +:+ b = String c (a +:+ b).
Proof. reflexivity. Qed.

Lemma append_nil_l (a : string) : EmptyString +:+ a = a.
Proof. reflexivity. Qed.

Lemma append_assoc (a b c : string) : (a +:+ b) +:+ c = a +:+ (b +:+ c).
Proof.
  induction a as [|x a IH]; [done|]. by rewrite !append_cons, IH.
Qed.

Lemma append_nil_r (a : string) : a +:+ EmptyString = a.
Proof.
  induction a as [|x a IH]; [done|]. by rewrite append_cons, IH.
Qed.

Lemma startswith_spec (p s : string) :
  startswith p s = true ↔ ∃ t, s = p +:+ t.
Proof.
  revert s. induction p as [|a p IH]; intros s; cbn [startswith].
  - split; [intros _; by exists s|done].
  - destruct s as [|b s].
    + split; [done|intros [t Ht]; discriminate].
    + destruct (ascii_dec a b) as [->|Hab].
      * rewrite IH. split; intros [t Ht]; exists t; rewrite append_cons in *; congruence.
      * split; [done|]. intros [t Ht]. rewrite append_cons in Ht. congruence.
Qed.

(** [contains p s] holds exactly when [p] occurs in [s]. *)
Lemma contains_spec (p s : string) :
  contains p s = true ↔ ∃ a b, s = a +:+ p +:+ b.
Proof.
  induction s as [|c s IH].
  - cbn [contains]. rewrite orb_false_r, startswith_spec. split.
    + intros [t Ht]. by exists EmptyString, t.
    + intros (a & b & Hs). destruct a; [by exists b|discriminate].
  - cbn [contains]. rewrite orb_true_iff, startswith_spec, IH. split.
    + intros [[t Ht]|(a & b & Hs)].
      * by exists EmptyString, t.
      * exists (String c a), b. by rewrite append_cons, Hs.
    + intros (a & b & Hs). destruct a as [|x a].
      * left. by exists b.
      * right. exists a, b. rewrite append_cons in Hs. congruence.
Qed.


Lemma contains_skip (p a s : string) : contains p s = true → contains p (a +:+ s) = true.
Proof.
  rewrite !contains_spec. intros (x & y & ->). exists (a +:+ x), y.
  by rewrite append_assoc.
Qed.

Lemma lower_app (a b : string) : lower (a +:+ b) = lower a +:+ lower b.
Proof.
  induction a as [|x a IH]; [done|]. cbn [lower]. by rewrite !append_cons, <- IH.
Qed.

Lemma lower_split (s x y : string) :
  lower s = x +:+ y → ∃ s1 s2, s = s1 +:+ s2 ∧ lower s1 = x ∧ lower s2 = y.
Proof.
  revert s. induction x as [|c x IH]; intros s Hs.
  - by exists EmptyString, s.
  - destruct s as [|d s]; [discriminate|].
    cbn [lower] in Hs. rewrite append_cons in Hs.
    injection Hs as Hc Hs. destruct (IH s Hs) as (s1 & s2 & -> & H1 & H2).
    exists (String d s1), s2. cbn [lower]. by rewrite Hc, H1.
Qed.

(** ** The fallback page is chosen by keyword *)

(** [mentions kw brief]: the brief contains the keyword, in any letter case. *)
Definition mentions (kw brief : string) : Prop :=
  ∃ pre mid post, brief = pre +:+ mid +:+ post ∧ lower mid = kw.

Lemma contains_lower_mentions (kw brief : string) :
  contains kw (lower brief) = true ↔ mentions kw brief.
Proof.
  rewrite contains_spec. split.
  - intros (a & b & Hl).
    destruct (lower_split _ _ _ Hl) as (pre & rest & -> & _ & Hrest).
    destruct (lower_split _ _ _ Hrest) as (mid & post & -> & Hmid & _).
    by exists pre, mid, post.
  - intros (pre & mid & post & -> & Hmid).
    exists (lower pre), (lower post). by rewrite !lower_app, Hmid.
Qed.

(** X1: The page generate_fallback_app serves as index.html for a brief of
    ASCII text: the calculator for a brief that mentions "calculator" in any
    letter case and at any place; otherwise the captcha solver for "captcha";
    otherwise the markdown converter for "markdown" or "html"; otherwise the
    generic page. *)
Theorem fallback_page_by_keyword (r : TaskRequest) :
  isascii (brief r) = true →
  let page := generate_fallback_app r !! 0 in
  (mentions "calculator" (brief r) → page = Some ("index.html", calculator_html))
  ∧ (¬ mentions "calculator" (brief r) → mentions "captcha" (brief r) →
     page = Some ("index.html", captcha_html))
  ∧ (¬ mentions "calculator" (brief r) → ¬ mentions "captcha" (brief r) →
     mentions "markdown" (brief r) ∨ mentions "html" (brief r) →
     page = Some ("index.html", markdown_html))
  ∧ (¬ mentions "calculator" (brief r) → ¬ mentions "captcha" (brief r) →
     ¬ mentions "markdown" (brief r) → ¬ mentions "html" (brief r) →
     page = Some ("index.html", generate_fallback_html (brief r))).
Proof.
  intros _. unfold generate_fallback_app. cbn [lookup list_lookup].
  rewrite <- !contains_lower_mentions.
  destruct (contains "calculator" _), (contains "captcha" _), (contains "markdown" _),
    (contains "html" _); cbn [orb]; intuition congruence.
Qed.

Lemma fallback_page_by_keyword_witness :
  isascii (brief Sample.round1_request) = true
  ∧ generate_fallback_app Sample.round1_request !! 0 = Some ("index.html", calculator_html).
Proof.
  split; [reflexivity|].
  apply (fallback_page_by_keyword Sample.round1_request); [reflexivity|].
  exists "build a ", "calculator", EmptyString. split; reflexivity.
Defined.

Lemma take_string_length (n : nat) (s : string) :
  String.length (take n s) = n `min` String.length s.
Proof.
  revert s. induction n as [|n IH]; intros s; [done|].
  destruct s as [|c s]; [done|]. cbn. by rewrite IH.
Qed.

(** [x +:+ t +:+ y] occurs where [t] stands between a text ending in [x] and
    a text starting with [y]. *)
Lemma contains_between (x t y l z : string) :
  String.eqb (substring 0 (String.length l - String.length x) l +:+ x) l = true →
  startswith y z = true →
  contains (x +:+ t +:+ y) (l +:+ t +:+ z) = true.
Proof.
  intros Hl%String.eqb_eq [z' ->]%startswith_spec. apply contains_spec.
  exists (substring 0 (String.length l - String.length x) l), z'.
  rewrite <- Hl at 1. by rewrite !append_assoc.
Qed.

Ltac find_between :=
  repeat lazymatch goal with
    | |- contains (_ +:+ ?t +:+ _) (_ +:+ ?t +:+ _) = true =>
        apply contains_between; vm_compute; reflexivity
    | |- contains _ (_ +:+ _) = true => apply contains_skip
    end.

(** X2: generate_fallback_html puts a brief of ASCII text into the page as it
    is, without escaping: in full in the body, and cut to its first 50
    characters in the title and in the script. *)
Theorem fallback_html_embeds_brief (b : string) :
  isascii b = true →
  contains ("<p>" +:+ b +:+ "</p>") (generate_fallback_html b) = true
  ∧ contains ("<title>Generated App - " +:+ take 50 b +:+ "</title>")
      (generate_fallback_html b) = true
  ∧ contains ("console.log('Application loaded for:', '" +:+ take 50 b +:+ "');")
      (generate_fallback_html b) = true
  ∧ String.length (take 50 b) = 50 `min` String.length b.
Proof.
  intros _. unfold generate_fallback_html.
  split; [find_between|]. split; [find_between|]. split; [|apply take_string_length].
  do 17 apply contains_skip. find_between.
Qed.

Lemma fallback_html_embeds_brief_witness :
  isascii "add a dark mode" = true
  ∧ contains "<p>add a dark mode</p>" (generate_fallback_html "add a dark mode") = true.
Proof.
  split; [reflexivity|].
  apply (fallback_html_embeds_brief "add a dark mode"). reflexivity.
Defined.

(** ** extract_html_code *)

(** The text before the first occurrence of [sep], and the text after it. *)
Fixpoint text_before (sep s : string) : string :=
  match s with
  | EmptyString => EmptyString
  | String c s' => if startswith sep s then EmptyString else String c (text_before sep s')
  end.

Fixpoint drop_chars (n : nat) (s : string) : string :=
  match n, s with
  | O, _ => s
  | S _, EmptyString => EmptyString
  | S n', String _ s' => drop_chars n' s'
  end.

Fixpoint text_after (sep s : string) : option string :=
  match s with
  | EmptyString => None
  | String c s' => if startswith sep s then Some (drop_chars (String.length sep) s) else text_after sep s'
  end.

Lemma string_of_snoc (l : list ascii) (c : ascii) (t : string) :
  string_of_list_ascii (l ++ [c]) +:+ t = string_of_list_ascii l +:+ String c t.
Proof. induction l as [|x l IH]; [done|]. cbn. by rewrite !append_cons, IH. Qed.

Lemma split_go_skip (sep : string) (k : nat) (s : string) (acc : list ascii) :
  split_go sep s acc k = split_go sep (drop_chars k s) acc 0.
Proof.
  revert s. induction k as [|k IH]; intros s; [done|].
  destruct s as [|c s]; [done|]. cbn [split_go drop_chars]. apply IH.
Qed.

Lemma split_go_first (sep s : string) (acc : list ascii) :
  sep ≠ EmptyString →
  split_go sep s acc 0
  = (string_of_list_ascii (rev acc) +:+ text_before sep s)
      :: match text_after sep s with
         | Some r => split_go sep r [] 0
         | None => []
         end.
Proof.
  intros Hsep. revert acc. induction s as [|c s IH]; intros acc.
  - cbn. by rewrite append_nil_r.
  - cbn [split_go text_before text_after]. destruct (startswith sep (String c s)) eqn:Hstart.
    + rewrite append_nil_r. f_equal. rewrite split_go_skip.
      destruct sep as [|x sep]; [done|]. cbn. by rewrite Nat.sub_0_r.
    + rewrite IH. cbn [rev]. by rewrite string_of_snoc.
Qed.

Lemma split_first_piece (sep s : string) :
  sep ≠ EmptyString → nth 0 (split sep s) EmptyString = text_before sep s.
Proof. intros Hsep. unfold split. by rewrite split_go_first. Qed.

Lemma split_second_piece (sep s : string) :
  sep ≠ EmptyString →
  nth 1 (split sep s) EmptyString
  = match text_after sep s with Some r => text_before sep r | None => EmptyString end.
Proof.
  intros Hsep. unfold split. rewrite split_go_first by done. cbn [nth].
  destruct (text_after sep s) as [r|]; [|done]. by rewrite split_go_first.
Qed.

Lemma before_prefix (sep s : string) : ∃ rest, s = text_before sep s +:+ rest.
Proof.
  induction s as [|c s [rest IH]]; [by exists EmptyString|].
  cbn [text_before]. destruct (startswith sep (String c s)); [by eexists|].
  exists rest. by rewrite append_cons, <- IH.
Qed.

Lemma startswith_app (p a b : string) :
  startswith p a = true → startswith p (a +:+ b) = true.
Proof.
  rewrite !startswith_spec. intros [t ->]. exists (t +:+ b). by rewrite append_assoc.
Qed.

(** No piece before a separator contains the separator. *)
Lemma before_free (sep s : string) :
  sep ≠ EmptyString → contains sep (text_before sep s) = false.
Proof.
  intros Hsep. induction s as [|c s IH].
  - cbn. by destruct sep.
  - cbn [text_before]. destruct (startswith sep (String c s)) eqn:Hstart.
    + cbn. by destruct sep.
    + cbn [contains]. rewrite IH, orb_false_r.
      destruct (startswith sep (String c (text_before sep s))) eqn:Hb; [|done].
      destruct (before_prefix sep s) as [rest Hrest].
      apply (startswith_app _ _ rest) in Hb.
      rewrite append_cons, <- Hrest in Hb. congruence.
Qed.

(** str.strip keeps a part of the text: it adds no occurrence of anything. *)
Lemma lstrip_suffix (s : string) : ∃ a, s = a +:+ lstrip s.
Proof.
  induction s as [|c s [a IH]]; [by exists EmptyString|].
  cbn [lstrip]. destruct (is_space c).
  - exists (String c a). by rewrite append_cons, <- IH.
  - by exists EmptyString.
Qed.

Lemma rstrip_prefix (s : string) : ∃ b, s = rstrip s +:+ b.
Proof.
  induction s as [|c s [b IH]]; [by exists EmptyString|].
  cbn [rstrip]. destruct (rstrip s) as [|d t] eqn:Hr.
  - destruct (is_space c).
    + by exists (String c s).
    + exists b. rewrite append_cons. cbn in IH. by rewrite <- IH.
  - exists b. by rewrite append_cons, <- IH.
Qed.

Lemma strip_infix (s : string) : ∃ a b, s = a +:+ strip s +:+ b.
Proof.
  unfold strip. destruct (lstrip_suffix s) as [a Ha].
  destruct (rstrip_prefix (lstrip s)) as [b Hb].
  exists a, b. by rewrite <- Hb.
Qed.

Lemma strip_free (p s : string) : contains p s = false → contains p (strip s) = false.
Proof.
  intros Hs. destruct (contains p (strip s)) eqn:Hc; [|done].
  apply contains_spec in Hc as (x & y & Hxy).
  destruct (strip_infix s) as (a & b & Hab).
  assert (contains p s = true); [|congruence].
  apply contains_spec. exists (a +:+ x), (y +:+ b).
  rewrite Hab, Hxy. by rewrite !append_assoc.
Qed.

(** The first and the last character of a text are not white space. *)
Definition starts_clean (s : string) : Prop :=
  match s with
  | EmptyString => True
  | String c _ => is_space c = false
  end.

Fixpoint ends_clean (s : string) : Prop :=
  match s with
  | EmptyString => True
  | String c EmptyString => is_space c = false
  | String _ s' => ends_clean s'
  end.

Lemma lstrip_starts_clean (s : string) : starts_clean (lstrip s).
Proof.
  induction s as [|c s IH]; [done|]. cbn [lstrip].
  destruct (is_space c) eqn:Hc; [done|]. exact Hc.
Qed.

Lemma rstrip_ends_clean (s : string) : ends_clean (rstrip s).
Proof.
  induction s as [|c s IH]; [done|]. cbn [rstrip].
  destruct (rstrip s) as [|d t] eqn:Hr.
  - destruct (is_space c) eqn:Hc; [done|]. exact Hc.
  - exact IH.
Qed.

Lemma rstrip_starts_clean (s : string) : starts_clean s → starts_clean (rstrip s).
Proof.
  destruct s as [|c s]; [done|]. cbn [rstrip starts_clean]. intros Hc.
  destruct (rstrip s); [by rewrite Hc|done].
Qed.

Lemma lstrip_clean (s : string) : starts_clean s → lstrip s = s.
Proof. destruct s as [|c s]; [done|]. cbn. by intros ->. Qed.

Lemma rstrip_clean (s : string) : ends_clean s → rstrip s = s.
Proof.
  induction s as [|c s IH]; [done|]. cbn [rstrip ends_clean].
  destruct s as [|d s].
  - cbn. by intros ->.
  - intros Hs. rewrite (IH Hs). done.
Qed.

Lemma strip_clean (s : string) : starts_clean (strip s) ∧ ends_clean (strip s).
Proof.
  unfold strip. split; [apply rstrip_starts_clean, lstrip_starts_clean|apply rstrip_ends_clean].
Qed.

Lemma strip_strip (s : string) : strip (strip s) = strip s.
Proof.
  destruct (strip_clean s) as [H1 H2]. unfold strip at 1.
  by rewrite (lstrip_clean _ H1), (rstrip_clean _ H2).
Qed.

(** The text extract_html_code works on, after the isinstance cases. *)
Definition content_text (content : Content) : string :=
  match content with
  | ContentList items =>
      fold_left (λ text_content item,
                   match item with
                   | ItemText t => text_content +:+ t +:+ nl
                   | ItemStr s => text_content +:+ s +:+ nl
                   | ItemOther => text_content
                   end) items EmptyString
  | ContentDictText t => t
  | ContentDictOutput o => o
  | ContentDictOther r => r
  | ContentStr s => s
  end.

Lemma extract_html_code_cases (content : Content) :
  let text := content_text content in
  extract_html_code content
  = strip (if contains fence_html text
           then strip (text_before fence (match text_after fence_html text with
                                     | Some r => text_before fence_html r
                                     | None => EmptyString
                                     end))
           else if contains fence text
           then strip (text_before fence (match text_after fence text with
                                     | Some r => text_before fence r
                                     | None => EmptyString
                                     end))
           else text).
Proof.
  unfold extract_html_code. fold (content_text content). cbn zeta.
  rewrite !split_first_piece, !split_second_piece by done.
  by destruct (contains "<!DOCTYPE" _ || contains "<html" _).
Qed.

Lemma isascii_app (a b : string) : isascii (a +:+ b) = isascii a && isascii b.
Proof.
  induction a as [|c a IH]; [done|]. rewrite append_cons. cbn [isascii].
  by rewrite IH, andb_assoc.
Qed.

Lemma isascii_infix (a s b : string) : isascii (a +:+ s +:+ b) = true → isascii s = true.
Proof. rewrite !isascii_app, !andb_true_iff. tauto. Qed.

Lemma isascii_strip (s : string) : isascii s = true → isascii (strip s) = true.
Proof.
  destruct (strip_infix s) as (a & b & Hs). rewrite Hs at 1. apply isascii_infix.
Qed.

Lemma isascii_before (sep s : string) : isascii s = true → isascii (text_before sep s) = true.
Proof.
  destruct (before_prefix sep s) as [rest Hs]. rewrite Hs at 1.
  rewrite isascii_app, andb_true_iff. tauto.
Qed.

Lemma isascii_drop_chars (n : nat) (s : string) :
  isascii s = true → isascii (drop_chars n s) = true.
Proof.
  revert s. induction n as [|n IH]; intros s; [done|].
  destruct s as [|c s]; [done|]. cbn. rewrite andb_true_iff. intros [_ Hs]. by apply IH.
Qed.

Lemma isascii_after (sep s r : string) :
  isascii s = true → text_after sep s = Some r → isascii r = true.
Proof.
  induction s as [|c s IH]; [done|]. intros Hs. cbn [text_after].
  destruct (startswith sep (String c s)).
  - intros [= <-]. by apply isascii_drop_chars.
  - cbn in Hs. apply andb_true_iff in Hs as [_ Hs]. by apply IH.
Qed.

(** X3: Whatever the reply, as long as its text is ASCII, the page
    extract_html_code returns has no white space at either end, contains no
    code fence, and is ASCII text again. *)
Theorem extract_html_code_trimmed_and_unfenced (content : Content) :
  isascii (content_text content) = true →
  starts_clean (extract_html_code content)
  ∧ ends_clean (extract_html_code content)
  ∧ strip (extract_html_code content) = extract_html_code content
  ∧ contains fence (extract_html_code content) = false
  ∧ isascii (extract_html_code content) = true.
Proof.
  intros Hascii. rewrite extract_html_code_cases. cbn zeta.
  split; [apply strip_clean|]. split; [apply strip_clean|]. split; [apply strip_strip|].
  split.
  - apply strip_free.
    destruct (contains fence_html (content_text content));
      [by apply strip_free, before_free|].
    destruct (contains fence (content_text content)) eqn:Hf;
      [by apply strip_free, before_free|done].
  - apply isascii_strip.
    destruct (contains fence_html (content_text content)).
    { apply isascii_strip, isascii_before.
      destruct (text_after fence_html (content_text content)) as [rest|] eqn:Hrest; [|done].
      by apply isascii_before, (isascii_after fence_html (content_text content)). }
    destruct (contains fence (content_text content)); [|done].
    apply isascii_strip, isascii_before.
    destruct (text_after fence (content_text content)) as [rest|] eqn:Hrest; [|done].
    by apply isascii_before, (isascii_after fence (content_text content)).
Qed.

Lemma extract_html_code_trimmed_and_unfenced_witness :
  isascii (content_text (ContentStr "  <html>ok</html>
")) = true
  ∧ strip (extract_html_code (ContentStr "  <html>ok</html>
")) = extract_html_code (ContentStr "  <html>ok</html>
").
Proof.
  split; [reflexivity|].
  apply (extract_html_code_trimmed_and_unfenced (ContentStr "  <html>ok</html>
")).
  reflexivity.
Defined.

(** ** extract_html_code on a fenced page *)

(** The character [x] does not occur in [s]. *)
Definition lacks (x : ascii) (s : string) : bool := negb (contains (String x EmptyString) s).


Lemma lacks_cons (x c : ascii) (s : string) :
  lacks x (String c s) = true → c ≠ x ∧ lacks x s = true.
Proof.
  unfold lacks. cbn [contains startswith].
  destruct (ascii_dec x c) as [<-|Hc]; [done|]. cbn. intros H. split; [congruence|done].
Qed.

Lemma startswith_lacks (x : ascii) (sep s t : string) (c : ascii) :
  lacks x (String c s) = true → startswith (String x sep) (String c s +:+ t) = false.
Proof.
  intros [Hc _]%lacks_cons. rewrite append_cons. cbn [startswith].
  destruct (ascii_dec x c) as [<-|]; done.
Qed.

Lemma before_lacks (x : ascii) (sep pre s : string) :
  lacks x pre = true →
  text_before (String x sep) (pre +:+ s) = pre +:+ text_before (String x sep) s.
Proof.
  induction pre as [|c pre IH]; intros Hpre; [done|].
  pose proof (startswith_lacks x sep pre s c Hpre) as Hs.
  rewrite append_cons in *. cbn [text_before]. rewrite Hs.
  apply lacks_cons in Hpre as [_ Hpre]. by rewrite IH.
Qed.

Lemma after_lacks (x : ascii) (sep pre s : string) :
  lacks x pre = true →
  text_after (String x sep) (pre +:+ s) = text_after (String x sep) s.
Proof.
  induction pre as [|c pre IH]; intros Hpre; [done|].
  pose proof (startswith_lacks x sep pre s c Hpre) as Hs.
  rewrite append_cons in *. cbn [text_after]. rewrite Hs.
  apply lacks_cons in Hpre as [_ Hpre]. by rewrite IH.
Qed.



Lemma startswith_here (p t : string) : startswith p (p +:+ t) = true.
Proof. apply startswith_spec. by exists t. Qed.

Lemma drop_chars_app (p t : string) : drop_chars (String.length p) (p +:+ t) = t.
Proof. induction p as [|c p IH]; [by destruct t|]. by rewrite append_cons. Qed.

Lemma before_here (c : ascii) (p t : string) :
  text_before (String c p) (String c p +:+ t) = EmptyString.
Proof.
  pose proof (startswith_here (String c p) t) as H.
  rewrite append_cons in *. cbn [text_before]. by rewrite H.
Qed.

Lemma after_here (c : ascii) (p t : string) :
  text_after (String c p) (String c p +:+ t) = Some t.
Proof.
  pose proof (startswith_here (String c p) t) as H.
  pose proof (drop_chars_app (String c p) t) as Hd.
  rewrite append_cons in *. cbn [text_after]. by rewrite H, Hd.
Qed.




(** The closing fence is taken at the first three backquotes: when a fourth
    follows and then the word html, the page comes back with a backquote
    added. *)
Example extract_html_code_fence_overlap :
  extract_html_code (ContentStr (fence_html +:+ "<p>x</p>" +:+ fence +:+ "`html"))
  = "<p>x</p>`".
Proof. reflexivity. Qed.

(** ** The generator's file set *)

(** X5: generate_app_with_ai raises nothing of its own: a run ends early only
    when the timer cancels it.  What it returns always has the same four
    file names in the same order, and all but the page are those of the
    fallback, so that the last file of the set is the .gitignore. *)
Theorem generate_app_with_ai_file_set (env : Env) (r : TaskRequest) (w : World) :
  match result (generate_app_with_ai env r w) with
  | inl e => e = CancelledError ∧ timer w ≠ None
  | inr files =>
      files.*1 = ["index.html"; "README.md"; "LICENSE"; ".gitignore"]
      ∧ tail files = tail (generate_fallback_app r)
      ∧ content_after_loop files = Some generate_gitignore
  end.
Proof.
  unfold generate_app_with_ai, ai_post. run_monad. unfold await.
  destruct w as [tk nw tm gh na ne ng]. cbn [timer ai_posts bump_ai set_now now].
  repeat (cbn; break_match); cbn; simplify_eq; done.
Qed.

(** ** What the stages raise *)

Lemma bind_result {T U} (m : M T) (k : T → M U) (w : World) :
  result ((m ≫= k) w)
  = match result (m w) with
    | inl e => inl e
    | inr a => result (k a (world (m w)))
    end.
Proof.
  unfold mbind, M_bind, bind. destruct (m w) as [evs w1 [e|a]]; [done|].
  cbn. by destruct (k a w1).
Qed.

Lemma try_except_result {T} (m : M T) (handler : Exn → option (M T)) (w : World) :
  result (try_except m handler w)
  = match result (m w) with
    | inl e =>
        match handler e with
        | Some k => result (k (world (m w)))
        | None => inl e
        end
    | inr a => inr a
    end.
Proof.
  unfold try_except. destruct (m w) as [evs w1 [e|a]]; [|done].
  cbn. destruct (handler e) as [k|]; [|done]. by destruct (k w1).
Qed.

(** The exception is Exception(prefix + msg) for some msg. *)
Definition wraps (prefix : string) (e : Exn) : Prop :=
  ∃ msg, e = Exception (prefix +:+ msg).

(** X6: A run of create_github_repository that does not return either was
    cancelled by the timer or raises Exception with one of the two texts of
    its handlers: no GithubException and no other exception leaves it. *)
Theorem create_github_repository_failures (env : Env) (r : TaskRequest) (files : Files)
    (w : World) :
  match result (create_github_repository env r files w) with
  | inl e =>
      e = CancelledError
      ∨ wraps "GitHub operation failed: " e
      ∨ wraps "Failed to create repository: " e
  | inr _ => True
  end.
Proof.
  unfold create_github_repository. rewrite bind_result. cbn [emit result world].
  rewrite try_except_result.
  match goal with |- context [result (?m w)] => destruct (m w) as [evs w1 [e|a]] end;
    [|done].
  cbn [result world]. destruct e; cbn; eauto; right; [right|left|right|right];
    by eexists.
Qed.

(** X7: update_github_repository turns every exception, GithubException
    included, into Exception("Failed to update repository: ..."); it has no
    await, so the timer never cancels it. *)
Theorem update_github_repository_failures (env : Env) (r : TaskRequest) (files : Files)
    (w : World) :
  match result (update_github_repository env r files w) with
  | inl e => wraps "Failed to update repository: " e
  | inr _ => True
  end.
Proof.
  pose proof (update_github_repository_obeys env (λ _, True) (λ _ _ _, I) (λ _, I) I
                (λ _, False) r files w) as Hobeys.
  revert Hobeys.
  unfold update_github_repository. rewrite bind_result. cbn [emit result world].
  rewrite try_except_result.
  match goal with |- context [result (?m w)] => destruct (m w) as [evs w1 [e|a]] end;
    [|done].
  cbn [result world]. destruct e; cbn; try (intros _; by eexists).
  by intros (? & ? & _ & _ & []).
Qed.

(** ** Where the events of a run come from *)

(** The log lines of process_task_with_deadline itself. *)
Definition is_outcome (msg : LogMsg) : bool :=
  match msg with
  | StartingBackground | TaskCompleted _ | TaskTimedOut | TaskFailed _ | DeadlineMissed _ =>
      true
  | _ => false
  end.

(** The calls of the stage functions, the AI requests and the sleeps. *)
Definition is_plain (e : Event) : bool :=
  match e with
  | Call FnProcessTaskWithDeadline | Call FnStoreReceivedTask => false
  | Call _ | AiPost _ | Sleep _ => true
  | _ => false
  end.

(** The repository a GitHub address stands for, as both
    get_existing_code_from_github and update_github_repository compute it:
    the last two pieces of the address, split at the slashes. *)
Definition repo_full_name (repo_url : string) : option string :=
  match rev (split "/" repo_url) with
  | repo_name :: username :: _ => Some (username +:+ "/" +:+ repo_name)
  | _ => None
  end.

(** Requests that read or change the content of the repository [full]. *)
Definition touches (full : string) (op : GhOp) : Prop :=
  match op with
  | GhGetRepo f | GhGetContents f _ | GhUpdateFile f _ _ | GhGetCommits f => f = full
  | GhCreateFile f _ _ b => f = full ∧ b = BranchMain
  | GhCreateRepo _ | GhGetUser => False
  end.

(** Requests that set a repository up. *)
Definition creates (op : GhOp) : Prop :=
  match op with
  | GhCreateRepo _ | GhCreateFile _ _ _ _ | GhGetCommits _ | GhGetUser => True
  | GhGetRepo _ | GhGetContents _ _ | GhUpdateFile _ _ _ => False
  end.

(** update_github_repository once the record of round 1 has been read. *)
Definition update_from (env : Env) (round1_data : RoundRecord) (files : Files)
    : M PublishInfo :=
  '(username, repo_name) ← repo_of_url (rec_repo_url round1_data);
  repo ← gh_get_repo env (username +:+ "/" +:+ repo_name);
  log INFO (FoundRepository (html_url repo)) ;;
  update_all_files env repo files ;;
  latest_commit ← gh_latest_commit_sha env repo;
  mret (mkPublishInfo (html_url repo) latest_commit
          ("https://" +:+ username +:+ ".github.io/" +:+ repo_name)).

Lemma update_github_repository_from (env : Env) (r : TaskRequest) (files : Files)
    (w : World) (d : RoundRecord) :
  tasks w !! task r = Some d →
  update_github_repository env r files w
  = (emit (Call FnUpdateGithubRepository) ;;
     try_except
       (log INFO (UpdatingRepository (task r)) ;; update_from env d files)
       (except_Exception (λ e,
          log ERROR (UpdateFailed (str e)) ;;
          raise (Exception ("Failed to update repository: " +:+ str e))))) w.
Proof.
  intros Htask. unfold update_github_repository, update_from. run_monad.
  rewrite Htask. cbn.
  repeat (break_match; cbn); reflexivity.
Qed.

Lemma obeys_ret_bind {T U} (P : Event → Prop) (C : Suspension → Prop) (a : T)
    (k : T → M U) :
  obeys P C (k a) → obeys P C (mret a ≫= k).
Proof.
  intros Hk w. specialize (Hk w). unfold mbind, M_bind, bind, mret, M_ret, ret.
  by destruct (k a w).
Qed.

Lemma obeys_raise_bind {T U} (P : Event → Prop) (C : Suspension → Prop) (e : Exn)
    (k : T → M U) :
  e ≠ CancelledError → e ≠ TimeoutError → obeys P C (raise e ≫= k).
Proof.
  intros He1 He2 w. unfold mbind, M_bind, bind, raise. cbn.
  destruct e; try done; constructor.
Qed.

Lemma obeys_bind_returns {T U} (P : Event → Prop) (C : Suspension → Prop) (Q : T → Prop)
    (m : M T) (k : T → M U) :
  obeys P C m →
  (∀ w, match result (m w) with inr a => Q a | inl _ => True end) →
  (∀ a, Q a → obeys P C (k a)) →
  obeys P C (m ≫= k).
Proof.
  intros Hm HQ Hk w. specialize (Hm w). specialize (HQ w).
  unfold mbind, M_bind, bind.
  destruct (m w) as [evs w1 [e|a]]; cbn in *; [exact Hm|].
  specialize (Hk a HQ w1). destruct (k a w1) as [evs' w2 [e'|b]]; cbn in *.
  - destruct e'; try done; try (by apply Forall_app).
    destruct Hk as (pre & s & -> & Hpre & Hs).
    exists (evs ++ pre)%list, s. rewrite app_assoc. repeat split; auto.
    by apply Forall_app.
  - by apply Forall_app.
Qed.

(** gh.get_repo hands back the repository it was asked for. *)
Lemma gh_get_repo_returns (env : Env) (full : string) (w : World) :
  match result (gh_get_repo env full w) with
  | inr repo => repo = full
  | inl _ => True
  end.
Proof.
  unfold gh_get_repo, gh_request. run_monad.
  repeat (cbn; break_match); cbn; by simplify_eq.
Qed.

Section Origins.

Variable env : Env.

(** An alphabet with every log line of the stages, their calls, the AI
    requests and the sleeps; each lemma asks for the GitHub and notification
    requests its function makes. *)
Context (P : Event → Prop).
Hypothesis P_log : ∀ l msg, is_outcome msg = false → P (Log l msg).
Hypothesis P_plain : ∀ e, is_plain e = true → P e.

Local Hint Extern 1 (P (Log _ _)) => apply P_log; reflexivity : obeys.
Local Hint Extern 1 (P (Call _)) => apply P_plain; reflexivity : obeys.
Local Hint Extern 1 (P (AiPost _)) => apply P_plain; reflexivity : obeys.
Local Hint Extern 1 (P (Sleep _)) => apply P_plain; reflexivity : obeys.

Lemma gh_request_emits C op : P (Github op) → obeys P C (gh_request env op).
Proof. intros Hop. unfold gh_request. repeat obeys_step. Qed.
Local Hint Resolve gh_request_emits : obeys.

Lemma gh_create_repo_emits C name :
  P (Github (GhCreateRepo name)) → obeys P C (gh_create_repo env name).
Proof. intros Hop. unfold gh_create_repo. repeat obeys_step. Qed.

Lemma gh_get_repo_emits C full :
  P (Github (GhGetRepo full)) → obeys P C (gh_get_repo env full).
Proof. intros Hop. unfold gh_get_repo. repeat obeys_step. Qed.

Lemma gh_user_login_emits C : P (Github GhGetUser) → obeys P C (gh_user_login env).
Proof. intros Hop. unfold gh_user_login. repeat obeys_step. Qed.

Lemma gh_create_file_emits C repo path content branch :
  P (Github (GhCreateFile repo path content branch)) →
  obeys P C (gh_create_file env repo path content branch).
Proof. intros Hop. unfold gh_create_file. repeat obeys_step. Qed.

Lemma gh_get_contents_emits C repo path :
  P (Github (GhGetContents repo path)) → obeys P C (gh_get_contents env repo path).
Proof. intros Hop. unfold gh_get_contents. repeat obeys_step. Qed.

Lemma gh_update_file_emits C repo path content :
  P (Github (GhUpdateFile repo path content)) →
  obeys P C (gh_update_file env repo path content).
Proof. intros Hop. unfold gh_update_file. repeat obeys_step. Qed.

Lemma gh_latest_commit_sha_emits C repo :
  P (Github (GhGetCommits repo)) → obeys P C (gh_latest_commit_sha env repo).
Proof. intros Hop. unfold gh_latest_commit_sha. repeat obeys_step. Qed.

Lemma ai_post_emits C : C AwaitAiPost → obeys P C (ai_post env).
Proof. intros HC. unfold ai_post. repeat obeys_step. Qed.
Local Hint Resolve ai_post_emits : obeys.

Lemma generate_app_with_ai_emits C r :
  C AwaitAiPost → obeys P C (generate_app_with_ai env r).
Proof. intros HC. unfold generate_app_with_ai. repeat obeys_step. Qed.

Lemma get_existing_code_from_github_emits C url :
  (∀ full op, repo_full_name url = Some full → touches full op → P (Github op)) →
  obeys P C (get_existing_code_from_github env url).
Proof.
  intros Hop. unfold get_existing_code_from_github, repo_of_url.
  unfold repo_full_name in Hop.
  obeys_step; [obeys_step|]. obeys_step; [|by repeat obeys_step].
  destruct (rev (split "/" url)) as [|repo_name [|username rest]];
    [by apply obeys_raise_bind..|].
  apply obeys_ret_bind.
  apply (obeys_bind_returns _ _ (λ repo, repo = username +:+ "/" +:+ repo_name)).
  - apply gh_get_repo_emits. by eapply Hop.
  - apply gh_get_repo_returns.
  - intros repo ->. apply obeys_try_uncut.
    + repeat obeys_step. apply gh_get_contents_emits. by eapply Hop.
    + intros e k [= <-]. repeat obeys_step.
Qed.

Lemma modify_existing_app_emits C r d :
  (∀ full op, repo_full_name (rec_repo_url d) = Some full → touches full op →
              P (Github op)) →
  C AwaitAiPost → obeys P C (modify_existing_app env r d).
Proof.
  intros Hop HC. unfold modify_existing_app. repeat obeys_step.
  by apply get_existing_code_from_github_emits.
Qed.

Lemma update_all_files_emits C repo files :
  (∀ op, touches repo op → P (Github op)) →
  obeys P C (update_all_files env repo files).
Proof.
  intros Hop.
  induction files as [|[filename content] rest IH]; cbn [update_all_files];
    repeat obeys_step.
  - by apply gh_get_contents_emits, Hop.
  - by apply gh_update_file_emits, Hop.
  - by apply gh_create_file_emits, Hop.
Qed.

Lemma update_from_emits C d files :
  (∀ full op, repo_full_name (rec_repo_url d) = Some full → touches full op →
              P (Github op)) →
  obeys P C (update_from env d files).
Proof.
  intros Hop. unfold update_from, repo_of_url. unfold repo_full_name in Hop.
  destruct (rev (split "/" (rec_repo_url d))) as [|repo_name [|username rest]];
    [by apply obeys_raise_bind..|].
  apply obeys_ret_bind.
  apply (obeys_bind_returns _ _ (λ repo, repo = username +:+ "/" +:+ repo_name)).
  - apply gh_get_repo_emits. by eapply Hop.
  - apply gh_get_repo_returns.
  - intros repo ->. repeat obeys_step.
    + apply update_all_files_emits. intros op Hin. by eapply Hop.
    + apply gh_latest_commit_sha_emits. by eapply Hop.
Qed.

Lemma create_all_files_emits C repo files :
  (∀ op, creates op → P (Github op)) →
  obeys P C (create_all_files env repo files).
Proof.
  intros Hop.
  induction files as [|[filename content] rest IH]; cbn [create_all_files];
    repeat obeys_step.
  by apply gh_create_file_emits, Hop.
Qed.

Lemma enable_pages_emits C repo content :
  (∀ op, creates op → P (Github op)) →
  obeys P C (enable_pages env repo content).
Proof.
  intros Hop. unfold enable_pages, read_content.
  repeat obeys_step; by apply gh_create_file_emits, Hop.
Qed.

Lemma create_github_repository_emits C r files :
  (∀ op, creates op → P (Github op)) →
  C AwaitPagesSleep → obeys P C (create_github_repository env r files).
Proof.
  intros Hop HC. unfold create_github_repository.
  obeys_step; [obeys_step|].
  apply obeys_try; [|done|].
  - repeat obeys_step.
    + by apply gh_create_repo_emits, Hop.
    + by apply create_all_files_emits.
    + by apply enable_pages_emits.
    + by apply gh_latest_commit_sha_emits, Hop.
    + by apply gh_user_login_emits, Hop.
  - intros e k He. destruct e; cbn in He; simplify_eq; repeat obeys_step.
Qed.

Lemma send_attempts_emits C response url attempts :
  C AwaitEvalPost → C AwaitRetrySleep → P (EvalPost url response) →
  obeys P C (send_attempts env response url attempts).
Proof.
  intros HC1 HC2 HP.
  induction attempts as [|attempt rest IH]; cbn [send_attempts];
    unfold eval_post; repeat obeys_step.
Qed.

Lemma send_evaluation_emits C response url :
  C AwaitEvalPost → C AwaitRetrySleep → P (EvalPost url response) →
  obeys P C (send_evaluation env response url).
Proof.
  intros HC1 HC2 HP. unfold send_evaluation.
  pose proof (send_attempts_emits C response url (seq 0 3) HC1 HC2 HP).
  repeat obeys_step.
Qed.

Local Hint Resolve generate_app_with_ai_emits create_github_repository_emits
  send_evaluation_emits : obeys.

Lemma process_round1_emits C r :
  (∀ op, creates op → P (Github op)) →
  (∀ p, resp_round p = 1%Z → P (EvalPost (evaluation_url r) p)) →
  (∀ s, C s) →
  obeys P C (process_round1 env r).
Proof.
  intros Hop Hpost HC. unfold process_round1. repeat obeys_step.
Qed.

(** update_github_repository whatever record it finds. *)
Lemma update_github_repository_emits C r files :
  (∀ full op, touches full op → P (Github op)) →
  obeys P C (update_github_repository env r files).
Proof.
  intros Hop. unfold update_github_repository, repo_of_url. repeat obeys_step.
  - by apply gh_get_repo_emits, (Hop (s +:+ "/" +:+ s0)).
  - apply update_all_files_emits, Hop.
  - by apply gh_latest_commit_sha_emits, (Hop a3).
Qed.

Lemma process_round2_emits C r :
  (∀ full op, touches full op → P (Github op)) →
  (∀ p, resp_round p = 2%Z → P (EvalPost (evaluation_url r) p)) →
  (∀ s, C s) →
  obeys P C (process_round2 env r).
Proof.
  intros Hop Hpost HC. unfold process_round2. repeat obeys_step.
  - apply modify_existing_app_emits; [|done]. intros full op _. apply Hop.
  - by apply update_github_repository_emits.
Qed.

End Origins.

(** ** The GitHub requests of the two rounds *)

Lemma bind_events {T U} (m : M T) (k : T → M U) (w : World) :
  events ((m ≫= k) w)
  = events (m w) ++ match result (m w) with
                    | inl _ => []
                    | inr a => events (k a (world (m w)))
                    end.
Proof.
  unfold mbind, M_bind, bind. destruct (m w) as [evs w1 [e|a]]; cbn.
  - by rewrite app_nil_r.
  - by destruct (k a w1).
Qed.

Lemma bind_world {T U} (m : M T) (k : T → M U) (w : World) :
  world ((m ≫= k) w)
  = match result (m w) with
    | inl _ => world (m w)
    | inr a => world (k a (world (m w)))
    end.
Proof.
  unfold mbind, M_bind, bind. destruct (m w) as [evs w1 [e|a]]; cbn; [done|].
  by destruct (k a w1).
Qed.

(** An event that is no GitHub request, or one of setting a repository up. *)
Definition sets_up (e : Event) : Prop :=
  match e with
  | Github op => creates op
  | _ => True
  end.

(** An event that is no GitHub request, or a request on the content of the
    repository that the address [url] stands for. *)
Definition works_on (url : string) (e : Event) : Prop :=
  match e with
  | Github op => ∃ full, repo_full_name url = Some full ∧ touches full op
  | _ => True
  end.

(** X8: Round 1 creates: of the GitHub API it uses create_repo, create_file, the
    commit list and the user, and never reads or updates a file or looks a
    repository up. *)
Theorem process_round1_only_creates (env : Env) (r : TaskRequest) (w : World) :
  Forall sets_up (events (process_round1 env r w)).
Proof.
  apply (obeys_all _ (λ _, True)); [done|].
  apply process_round1_emits; try done.
  intros e He. by destruct e.
Qed.

(** X9: Round 2 works on the repository recorded by round 1 and on no other:
    every GitHub request of the run reads, updates or adds to the content of
    the repository named by the last two pieces of the recorded address, on
    branch main; no repository is created.  When the address has fewer than
    two pieces, no GitHub request is made at all. *)
Theorem process_round2_works_on_recorded_repository (env : Env) (r : TaskRequest)
    (w : World) (d : RoundRecord) :
  tasks w !! task r = Some d →
  Forall (works_on (rec_repo_url d)) (events (process_round2 env r w)).
Proof.
  intros Htask.
  assert (Hall : ∀ {T} (m : M T) w', obeys (works_on (rec_repo_url d)) (λ _, True) m →
                                     Forall (works_on (rec_repo_url d)) (events (m w'))).
  { intros T m w' Hm. by apply (obeys_all _ (λ _, True)). }
  assert (Hop : ∀ full op, repo_full_name (rec_repo_url d) = Some full → touches full op →
                           works_on (rec_repo_url d) (Github op)).
  { intros full op Hfull Hop. by exists full. }
  assert (Hplain : ∀ e, is_plain e = true → works_on (rec_repo_url d) e).
  { intros e He. by destruct e. }
  unfold process_round2. rewrite !bind_events.
  cbn [emit log get_world events result world app].
  rewrite Htask. repeat constructor. rewrite bind_events. apply Forall_app. split.
  - apply Hall. by apply modify_existing_app_emits.
  - pose proof (modify_existing_app_keeps env tasks (λ _ _, eq_refl) (λ _, eq_refl)
                  (λ _, eq_refl) r d w) as Hkeep.
    destruct (modify_existing_app env r d w) as [evs1 w1 [e|files]]; [done|].
    cbn in Hkeep. cbn [result world]. rewrite bind_events. apply Forall_app. split.
    + rewrite (update_github_repository_from env r files w1 d) by by rewrite Hkeep.
      apply Hall. repeat obeys_step; try done. by apply update_from_emits.
    + destruct (result _) as [e|info]; [done|].
      apply Hall. by apply send_evaluation_emits.
Qed.

Lemma process_round2_works_on_recorded_repository_witness :
  Forall (works_on "https://github.com/harshvk25/t1-0")
    (events (process_round2 Sample.env_ok Sample.round2_request SampleRuns.after_round1)).
Proof.
  apply (process_round2_works_on_recorded_repository Sample.env_ok Sample.round2_request
           SampleRuns.after_round1
           (mkRoundRecord "https://github.com/harshvk25/t1-0" "student@example.com"
              "build a calculator")).
  vm_compute. reflexivity.
Defined.

(** ** Pre- and postconditions *)

Lemma try_except_world {T} (m : M T) (handler : Exn → option (M T)) (w : World) :
  world (try_except m handler w)
  = match result (m w) with
    | inl e =>
        match handler e with
        | Some k => world (k (world (m w)))
        | None => world (m w)
        end
    | inr a => world (m w)
    end.
Proof.
  unfold try_except. destruct (m w) as [evs w1 [e|a]]; [|done].
  cbn. destruct (handler e) as [k|]; [|done]. by destruct (k w1).
Qed.

Lemma try_except_events {T} (m : M T) (handler : Exn → option (M T)) (w : World) :
  events (try_except m handler w)
  = events (m w) ++ match result (m w) with
                    | inl e =>
                        match handler e with
                        | Some k => events (k (world (m w)))
                        | None => []
                        end
                    | inr a => []
                    end.
Proof.
  unfold try_except. destruct (m w) as [evs w1 [e|a]]; cbn; [|by rewrite app_nil_r].
  destruct (handler e) as [k|]; cbn; [|by rewrite app_nil_r]. by destruct (k w1).
Qed.

(** [triple Pre m Post Exc]: from a world satisfying [Pre], a run of [m]
    that returns [a] ends in a world satisfying [Post a], and one that
    raises [e] ends in a world satisfying [Exc e]. *)
Definition triple {T} (Pre : World → Prop) (m : M T) (Post : T → World → Prop)
    (Exc : Exn → World → Prop) : Prop :=
  ∀ w, Pre w → match result (m w) with
               | inr a => Post a (world (m w))
               | inl e => Exc e (world (m w))
               end.

Section Triples.

Context {T : Type} (Post : T → World → Prop) (Exc : Exn → World → Prop).

Lemma triple_ret (a : T) : triple (Post a) (mret a) Post Exc.
Proof. by intros w Hw. Qed.

Lemma triple_raise (e : Exn) : triple (Exc e) (@raise T e) Post Exc.
Proof. by intros w Hw. Qed.

Lemma triple_bind {U} (Pre : World → Prop) (Mid : U → World → Prop) (m : M U)
    (k : U → M T) :
  triple Pre m Mid Exc → (∀ a, triple (Mid a) (k a) Post Exc) →
  triple Pre (m ≫= k) Post Exc.
Proof.
  intros Hm Hk w Hw. rewrite bind_result, bind_world. specialize (Hm w Hw).
  destruct (result (m w)) as [e|a]; [done|]. by apply Hk.
Qed.

Lemma triple_try (Pre : World → Prop) (Exc1 : Exn → World → Prop) (m : M T)
    (handler : Exn → option (M T)) :
  triple Pre m Post Exc1 →
  (∀ e, match handler e with
        | Some k => triple (Exc1 e) k Post Exc
        | None => ∀ w, Exc1 e w → Exc e w
        end) →
  triple Pre (try_except m handler) Post Exc.
Proof.
  intros Hm Hh w Hw. rewrite try_except_result, try_except_world. specialize (Hm w Hw).
  destruct (result (m w)) as [e|a]; [|done].
  specialize (Hh e). destruct (handler e) as [k|]; [by apply Hh|by apply Hh].
Qed.

Lemma triple_weaken (Pre Pre' : World → Prop) (Post' : T → World → Prop)
    (Exc' : Exn → World → Prop) (m : M T) :
  triple Pre' m Post' Exc' →
  (∀ w, Pre w → Pre' w) → (∀ a w, Post' a w → Post a w) → (∀ e w, Exc' e w → Exc e w) →
  triple Pre m Post Exc.
Proof.
  intros Hm H1 H2 H3 w Hw. specialize (Hm w (H1 w Hw)).
  destruct (result (m w)); auto.
Qed.

End Triples.

Lemma triple_ret_inv {T} (I : World → Prop) (Exc : Exn → World → Prop) (a : T) :
  triple I (mret a) (λ _, I) Exc.
Proof. by intros w Hw. Qed.

Lemma triple_log_inv (I : World → Prop) (Exc : Exn → World → Prop) (l : Level)
    (msg : LogMsg) :
  triple I (log l msg) (λ _, I) Exc.
Proof. by intros w Hw. Qed.

Lemma triple_emit_inv (I : World → Prop) (Exc : Exn → World → Prop) (e : Event) :
  triple I (emit e) (λ _, I) Exc.
Proof. by intros w Hw. Qed.

Lemma triple_keeps {S T} (f : World → S) (x : S) (m : M T) :
  keeps f m → triple (λ w, f w = x) m (λ _ w, f w = x) (λ _ w, f w = x).
Proof.
  intros Hm w Hw. specialize (Hm w). destruct (result (m w)); congruence.
Qed.

(** ** The deadline *)

(** The timer is armed to fire at [t]; and it has not fired yet. *)
Definition armed (t : nat) (w : World) : Prop := timer w = Some t.
Definition in_time (t : nat) (w : World) : Prop := timer w = Some t ∧ now w < t.

(** What is known when an exception leaves an await under the timer: it is
    the cancellation, or the timer has not fired. *)
Definition spared (t : nat) (e : Exn) (w : World) : Prop :=
  e = CancelledError ∨ in_time t w.

Lemma eval_post_in_time (env : Env) (url : string) (response : TaskResponse) (t : nat) :
  triple (armed t) (eval_post env url response) (λ _, in_time t) (spared t).
Proof.
  intros w Hw. unfold eval_post. run_monad. unfold await.
  destruct w as [tk nw tm gh na ne ng]. unfold armed in Hw. cbn in Hw. subst tm.
  cbn [timer now set_now bump_eval eval_posts].
  destruct (t <=? nw + eval_latency env ne) eqn:Hcut; [by left|].
  apply Nat.leb_gt in Hcut.
  destruct (eval_server env ne) as [status_code body|msg]; cbn; [done|by right].
Qed.

Lemma sleep_in_time (s : Suspension) (d t : nat) :
  triple (armed t) (sleep s d) (λ _, in_time t) (spared t).
Proof.
  intros w Hw. unfold sleep. run_monad. unfold await.
  destruct w as [tk nw tm gh na ne ng]. unfold armed in Hw. cbn in Hw. subst tm.
  cbn [timer now set_now].
  destruct (t <=? nw + d) eqn:Hcut; [by left|].
  by apply Nat.leb_gt in Hcut.
Qed.

(** While the timer is armed, the loop of send_evaluation returns only
    before the timer fires, when it still has an attempt to make or was
    entered in time: every attempt awaits its request, and that await is cut
    when the timer fires first. *)
Lemma send_attempts_in_time (env : Env) (response : TaskResponse) (url : string)
    (t : nat) (attempts : list nat) :
  triple (λ w, armed t w ∧ (attempts ≠ [] ∨ now w < t))
    (send_attempts env response url attempts) (λ _, in_time t) (λ _ _, True).
Proof.
  induction attempts as [|attempt rest IH]; cbn [send_attempts].
  - intros w [Hw [?|Hnow]]; done.
  - apply (triple_bind _ _ _ (λ _, in_time t)).
    + apply (triple_try _ _ _ (spared t)).
      * apply (triple_bind _ _ _ (λ _, in_time t)).
        -- eapply triple_weaken; [apply (eval_post_in_time env url response t)|..];
             [by intros w []|done|done].
        -- intros status_code. destruct (status_code =? 200)%Z;
             (apply (triple_bind _ _ _ (λ _, in_time t));
              [apply triple_log_inv|intros _; apply triple_ret_inv]).
      * intros e. unfold except_Exception. destruct e; cbn; try done;
          (apply (triple_bind _ _ _ (λ _, in_time t));
           [eapply triple_weaken; [apply (triple_log_inv (in_time t) (λ _ _, True))|..];
              try done; by intros w [|]
           |intros _; apply triple_ret_inv]).
    + intros [|]; [apply triple_ret_inv|].
      apply (triple_bind _ _ _ (λ _, in_time t)).
      * destruct (attempt <? 2); [|apply triple_ret_inv].
        apply (triple_bind _ _ _ (λ _, in_time t)); [apply triple_log_inv|].
        intros _. eapply triple_weaken; [apply (sleep_in_time AwaitRetrySleep 1 t)|..];
          [by intros w []|done|done].
      * intros _. eapply triple_weaken; [apply IH|..]; try done.
        intros w [Hw Hnow]. split; [done|by right].
Qed.

Lemma round1_stages_keeps_timer (env : Env) (r : TaskRequest) :
  keeps timer (round1_stages env r).
Proof.
  unfold round1_stages. repeat keeps_step.
  - by apply generate_app_with_ai_keeps.
  - by apply create_github_repository_keeps.
Qed.

Lemma round2_stages_keeps_timer (env : Env) (r : TaskRequest) :
  keeps timer (round2_stages env r).
Proof.
  unfold round2_stages. repeat keeps_step.
  - by apply modify_existing_app_keeps.
  - by apply update_github_repository_keeps.
Qed.

Lemma notify_in_time (env : Env) (r : TaskRequest) (n : Z) (info : PublishInfo) (t : nat) :
  triple (armed t) (notify env r n info) (λ _, in_time t) (λ _ _, True).
Proof.
  unfold notify, send_evaluation.
  apply (triple_bind _ _ _ (λ _, armed t)); [apply triple_emit_inv|intros _].
  apply (triple_bind _ _ _ (λ _, armed t)); [apply triple_log_inv|intros _].
  eapply triple_weaken; [apply send_attempts_in_time|..]; cbn; [|by auto..].
  intros w Hw. split; [done|by left].
Qed.

(** A round that runs to its end under the timer of wait_for ends before
    the timer fires: its last stage is the notification. *)
Lemma selected_round_in_time (env : Env) (r : TaskRequest) (t : nat) :
  triple (armed t) (selected_round env r) (λ _, in_time t) (λ _ _, True).
Proof.
  assert (Hstaged : ∀ (stages : M PublishInfo) n, keeps timer stages →
            triple (armed t) (stages ≫= notify env r n) (λ _, in_time t) (λ _ _, True)).
  { intros stages n Hkeeps. apply (triple_bind _ _ _ (λ _, armed t)).
    - eapply triple_weaken; [apply (triple_keeps timer (Some t)), Hkeeps|..];
        cbn; by auto.
    - intros info. apply notify_in_time. }
  intros w Hw. unfold selected_round. destruct (round r =? 1)%Z.
  - rewrite process_round1_split.
    by apply (Hstaged _ 1%Z (round1_stages_keeps_timer env r) w).
  - rewrite process_round2_split.
    by apply (Hstaged _ 2%Z (round2_stages_keeps_timer env r) w).
Qed.

(** A log line that is not one of process_task_with_deadline, or no log
    line at all. *)
Definition of_the_round (e : Event) : Prop :=
  match e with
  | Log _ msg => is_outcome msg = false
  | _ => True
  end.

Lemma selected_round_emits (env : Env) (r : TaskRequest) (w : World) :
  Forall of_the_round (events (selected_round env r w)).
Proof.
  apply (obeys_all _ (λ _, True)); [done|].
  assert (∀ e, is_plain e = true → of_the_round e) as Hplain by (by intros []).
  unfold selected_round. destruct (round r =? 1)%Z.
  - by apply process_round1_emits.
  - by apply process_round2_emits.
Qed.

(** How a background operation ends. *)
Inductive Outcome (line : Event) : Prop :=
| Completed (secs : nat) :
    line = Log INFO (TaskCompleted secs) → secs < TASK_TIMEOUT → Outcome line
| TimedOut : line = Log ERROR TaskTimedOut → Outcome line
| Failed (msg : string) : line = Log ERROR (TaskFailed msg) → Outcome line.

(** X10: process_task_with_deadline always returns, with the timer as it found
    it.  Its log is the start line, what the round emits, and one closing
    line: completed, timed out or failed.  A round that completes has taken
    less than TASK_TIMEOUT seconds, which is less than MAX_PROCESSING_TIME:
    the line about a missed deadline is never logged. *)
Theorem process_task_with_deadline_outcome (env : Env) (r : TaskRequest) (w : World) :
  let run := process_task_with_deadline env r w in
  result run = inr tt
  ∧ timer (world run) = timer w
  ∧ (∃ pre line,
       events run
       = Call FnProcessTaskWithDeadline :: Log INFO StartingBackground :: pre ++ [line]
       ∧ Forall of_the_round pre
       ∧ Outcome line)
  ∧ (∀ l total, Log l (DeadlineMissed total) ∉ events run).
Proof.
  cbn zeta. rewrite process_task_with_deadline_unfold. cbn zeta. cbn [result world events].
  set (w0 := set_timer (Some (now w + TASK_TIMEOUT)) w).
  pose proof (selected_round_emits env r w0) as Hpre.
  pose proof (selected_round_in_time env r (now w + TASK_TIMEOUT) w0 eq_refl) as Htime.
  assert (∃ line, epilogue (result (selected_round env r w0))
                    (now (world (selected_round env r w0)) - now w) = [line]
                  ∧ Outcome line) as (line & Hline & Hout).
  { unfold in_time in Htime. destruct (result (selected_round env r w0)) as [e|[]].
    - destruct e; cbn; eexists; (split; [done|]);
        first [by eapply Failed | by apply TimedOut].
    - destruct Htime as [_ Htime]. cbn -[Nat.ltb MAX_PROCESSING_TIME].
      assert (now (world (selected_round env r w0)) - now w < TASK_TIMEOUT) as Hsecs
        by (unfold TASK_TIMEOUT in *; lia).
      assert ((MAX_PROCESSING_TIME <? now (world (selected_round env r w0)) - now w) = false)
        as ->.
      { apply Nat.ltb_ge. unfold MAX_PROCESSING_TIME, TASK_TIMEOUT in *. lia. }
      eexists. split; [done|]. by eapply Completed. }
  rewrite Hline. split; [done|]. split; [by destruct w, (world _)|].
  split; [by eauto|].
  intros l total Hin. apply elem_of_cons in Hin as [|Hin]; [done|].
  apply elem_of_cons in Hin as [|Hin]; [done|].
  apply elem_of_app in Hin as [Hin|Hin].
  - rewrite Forall_forall in Hpre. by specialize (Hpre _ Hin).
  - apply list_elem_of_singleton in Hin as <-. by destruct Hout.
Qed.

(** ** The clock at a cancellation *)

(** [punctual t m]: while the timer is armed to fire at [t], a run of [m]
    leaves it armed, and is cancelled only with the clock at or past [t]. *)
Definition punctual (t : nat) {T} (m : M T) : Prop :=
  ∀ w, timer w = Some t →
    timer (world (m w)) = Some t
    ∧ match result (m w) with
      | inl CancelledError => t ≤ now (world (m w))
      | _ => True
      end.

Section Punctual.

Context (t : nat).

Lemma punctual_ret {T} (a : T) : punctual t (mret a).
Proof. by intros w Hw. Qed.

Lemma punctual_raise {T} (e : Exn) : e ≠ CancelledError → punctual t (@raise T e).
Proof. intros He w Hw. split; [done|]. cbn. by destruct e. Qed.

Lemma punctual_emit (e : Event) : punctual t (emit e).
Proof. by intros w Hw. Qed.

Lemma punctual_log (l : Level) (msg : LogMsg) : punctual t (log l msg).
Proof. by intros w Hw. Qed.

Lemma punctual_modify (f : World → World) :
  (∀ w, timer (f w) = timer w) → punctual t (modify f).
Proof. intros Hf w Hw. cbn. split; [by rewrite Hf|done]. Qed.

Lemma punctual_get_world : punctual t get_world.
Proof. by intros w Hw. Qed.

Lemma punctual_time : punctual t time.
Proof. by intros w Hw. Qed.

Lemma punctual_block (d : nat) : punctual t (block d).
Proof. by intros w Hw. Qed.

Lemma punctual_await (s : Suspension) (d : nat) : punctual t (await s d).
Proof.
  intros w Hw. unfold await. rewrite Hw.
  destruct (t <=? now w + d); cbn; [|done]. split; [done|]. lia.
Qed.

Lemma punctual_bind {T U} (m : M T) (k : T → M U) :
  punctual t m → (∀ a, punctual t (k a)) → punctual t (m ≫= k).
Proof.
  intros Hm Hk w Hw. specialize (Hm w Hw). unfold mbind, M_bind, bind.
  destruct (m w) as [evs w1 [e|a]]; cbn in *; [exact Hm|].
  destruct Hm as [Hw1 _]. specialize (Hk a w1 Hw1).
  by destruct (k a w1) as [evs' w2 res].
Qed.

Lemma punctual_sleep (s : Suspension) (d : nat) : punctual t (sleep s d).
Proof.
  unfold sleep. apply punctual_bind; [apply punctual_emit|]. intros _. apply punctual_await.
Qed.

Lemma punctual_try {T} (m : M T) (handler : Exn → option (M T)) :
  punctual t m → (∀ e k, handler e = Some k → punctual t k) →
  punctual t (try_except m handler).
Proof.
  intros Hm Hk w Hw. specialize (Hm w Hw). unfold try_except.
  destruct (m w) as [evs w1 [e|a]]; cbn in *; [|exact Hm].
  destruct (handler e) as [k|] eqn:Hh; cbn; [|exact Hm].
  destruct Hm as [Hw1 _]. specialize (Hk e k Hh w1 Hw1).
  by destruct (k w1) as [evs' w2 res].
Qed.

Lemma punctual_try_Exception {T} (m : M T) (k : Exn → M T) :
  punctual t m → (∀ e, punctual t (k e)) → punctual t (try_except m (except_Exception k)).
Proof.
  intros Hm Hk. apply punctual_try; [done|].
  intros e k'. unfold except_Exception. destruct (is_Exception e); [|done].
  intros [= <-]. apply Hk.
Qed.

Lemma punctual_try_GithubException {T} (m k : M T) :
  punctual t m → punctual t k → punctual t (try_except m (except_GithubException k)).
Proof.
  intros Hm Hk. apply punctual_try; [done|].
  intros e k'. destruct e; cbn; try done. by intros [= <-].
Qed.

End Punctual.

Create HintDb punctual.

Ltac punctual_step :=
  lazymatch goal with
  | |- punctual _ (mret _) => apply punctual_ret
  | |- punctual _ (raise _) => apply punctual_raise; discriminate
  | |- punctual _ (emit _) => apply punctual_emit
  | |- punctual _ (log _ _) => apply punctual_log
  | |- punctual _ (modify _) => apply punctual_modify; intros []; reflexivity
  | |- punctual _ get_world => apply punctual_get_world
  | |- punctual _ time => apply punctual_time
  | |- punctual _ (block _) => apply punctual_block
  | |- punctual _ (await _ _) => apply punctual_await
  | |- punctual _ (sleep _ _) => apply punctual_sleep
  | |- punctual _ (try_except _ (except_Exception _)) =>
      apply punctual_try_Exception; [|intros ?]
  | |- punctual _ (try_except _ (except_GithubException _)) =>
      apply punctual_try_GithubException
  | |- punctual _ (mbind _ _) => apply punctual_bind; [|intros ?]
  | |- punctual _ (match ?x with _ => _ end) => destruct x
  | |- punctual _ _ => solve [eauto with punctual]
  end.

Section Clock.

Variable env : Env.
Variable t : nat.

Lemma gh_request_punctual op : punctual t (gh_request env op).
Proof. unfold gh_request. repeat punctual_step. Qed.
Local Hint Resolve gh_request_punctual : punctual.

Lemma gh_create_repo_punctual name : punctual t (gh_create_repo env name).
Proof. unfold gh_create_repo. repeat punctual_step. Qed.

Lemma gh_get_repo_punctual full_name : punctual t (gh_get_repo env full_name).
Proof. unfold gh_get_repo. repeat punctual_step. Qed.

Lemma gh_user_login_punctual : punctual t (gh_user_login env).
Proof. unfold gh_user_login. repeat punctual_step. Qed.

Lemma gh_create_file_punctual repo path content branch :
  punctual t (gh_create_file env repo path content branch).
Proof. unfold gh_create_file. repeat punctual_step. Qed.

Lemma gh_get_contents_punctual repo path : punctual t (gh_get_contents env repo path).
Proof. unfold gh_get_contents. repeat punctual_step. Qed.

Lemma gh_update_file_punctual repo path content :
  punctual t (gh_update_file env repo path content).
Proof. unfold gh_update_file. repeat punctual_step. Qed.

Lemma gh_latest_commit_sha_punctual repo : punctual t (gh_latest_commit_sha env repo).
Proof. unfold gh_latest_commit_sha. repeat punctual_step. Qed.

Lemma repo_of_url_punctual url : punctual t (repo_of_url url).
Proof. unfold repo_of_url. repeat punctual_step. Qed.

Local Hint Resolve gh_create_repo_punctual gh_get_repo_punctual gh_user_login_punctual
  gh_create_file_punctual gh_get_contents_punctual gh_update_file_punctual
  gh_latest_commit_sha_punctual repo_of_url_punctual : punctual.

Lemma ai_post_punctual : punctual t (ai_post env).
Proof. unfold ai_post. repeat punctual_step. Qed.
Local Hint Resolve ai_post_punctual : punctual.

Lemma eval_post_punctual url response : punctual t (eval_post env url response).
Proof. unfold eval_post. repeat punctual_step. Qed.
Local Hint Resolve eval_post_punctual : punctual.

Lemma generate_app_with_ai_punctual r : punctual t (generate_app_with_ai env r).
Proof. unfold generate_app_with_ai. repeat punctual_step. Qed.

Lemma get_existing_code_from_github_punctual url :
  punctual t (get_existing_code_from_github env url).
Proof.
  unfold get_existing_code_from_github. repeat punctual_step.
  apply punctual_try; [repeat punctual_step|].
  intros e k [= <-]. repeat punctual_step.
Qed.
Local Hint Resolve get_existing_code_from_github_punctual : punctual.

Lemma modify_existing_app_punctual r d : punctual t (modify_existing_app env r d).
Proof. unfold modify_existing_app. repeat punctual_step. Qed.

Lemma create_all_files_punctual repo files : punctual t (create_all_files env repo files).
Proof.
  induction files as [|[filename content] rest IH]; cbn [create_all_files];
    repeat punctual_step.
Qed.

Lemma update_all_files_punctual repo files : punctual t (update_all_files env repo files).
Proof.
  induction files as [|[filename content] rest IH]; cbn [update_all_files];
    repeat punctual_step.
Qed.

Lemma read_content_punctual c : punctual t (read_content c).
Proof. unfold read_content. repeat punctual_step. Qed.
Local Hint Resolve create_all_files_punctual update_all_files_punctual
  read_content_punctual : punctual.

Lemma enable_pages_punctual repo content : punctual t (enable_pages env repo content).
Proof. unfold enable_pages. repeat punctual_step. Qed.
Local Hint Resolve enable_pages_punctual : punctual.

Lemma create_github_repository_punctual r files :
  punctual t (create_github_repository env r files).
Proof.
  unfold create_github_repository.
  punctual_step; [punctual_step|].
  apply punctual_try; [repeat punctual_step|].
  intros e k He. destruct e; cbn in He; simplify_eq; repeat punctual_step.
Qed.

Lemma update_github_repository_punctual r files :
  punctual t (update_github_repository env r files).
Proof. unfold update_github_repository. repeat punctual_step. Qed.

Lemma send_attempts_punctual response url attempts :
  punctual t (send_attempts env response url attempts).
Proof.
  induction attempts as [|attempt rest IH]; cbn [send_attempts]; repeat punctual_step.
Qed.
Local Hint Resolve send_attempts_punctual : punctual.

Lemma send_evaluation_punctual response url : punctual t (send_evaluation env response url).
Proof. unfold send_evaluation. repeat punctual_step. Qed.

Local Hint Resolve generate_app_with_ai_punctual modify_existing_app_punctual
  create_github_repository_punctual update_github_repository_punctual
  send_evaluation_punctual : punctual.

Lemma process_round1_punctual r : punctual t (process_round1 env r).
Proof. unfold process_round1. repeat punctual_step. Qed.

Lemma process_round2_punctual r : punctual t (process_round2 env r).
Proof. unfold process_round2. repeat punctual_step. Qed.

Lemma selected_round_punctual r : punctual t (selected_round env r).
Proof.
  unfold selected_round. destruct (round r =? 1)%Z;
    [apply process_round1_punctual|apply process_round2_punctual].
Qed.

End Clock.

(** ** The stage time limit and the clock *)

(** C4, as the code has it.  TASK_TIMEOUT is smaller than
    MAX_PROCESSING_TIME, and the limit covers the whole round, send_evaluation
    included.  The limit acts at the awaits of the round only.
    process_task_with_deadline always returns.  It logs the timeout exactly
    when an await of the round was cancelled, and then the clock is at or past
    the limit, the cancellation and the log line are the last two events, and
    nothing follows.  Cancelled in the AI request or in the sleep of the
    publisher, the run contains no send_evaluation call and no notification
    request; cancelled inside send_evaluation, that call had been made, the
    requests made until then stand and no further one follows.  A run that
    ends before the limit is not timed out.  A run that ends at or after the
    limit has not completed: its last event is the timeout line, or the line
    of a failure of its own (a synchronous GitHub request is not interrupted,
    so the limit can pass inside one and the round can fail before its next
    await).  A round that completes has ended before the limit. *)
Theorem timeout_aborts_remaining_stages (env : Env) (r : TaskRequest) (w : World) :
  let run := process_task_with_deadline env r w in
  let limit := now w + TASK_TIMEOUT in
  TASK_TIMEOUT < MAX_PROCESSING_TIME
  ∧ result run = inr tt
  ∧ (Log ERROR TaskTimedOut ∈ events run ↔ ∃ s, Cancelled s ∈ events run)
  ∧ (Log ERROR TaskTimedOut ∈ events run →
       limit ≤ now (world run)
       ∧ ∃ pre s,
           events run = pre ++ [Cancelled s; Log ERROR TaskTimedOut]
           ∧ Forall loud pre
           ∧ match s with
             | AwaitAiPost | AwaitPagesSleep => Forall not_of_notifier (events run)
             | AwaitEvalPost | AwaitRetrySleep => Call FnSendEvaluation ∈ pre
             end)
  ∧ (now (world run) < limit → Log ERROR TaskTimedOut ∉ events run)
  ∧ (limit ≤ now (world run) →
       last (events run) = Some (Log ERROR TaskTimedOut)
       ∨ ∃ msg, last (events run) = Some (Log ERROR (TaskFailed msg)))
  ∧ (∀ secs, Log INFO (TaskCompleted secs) ∈ events run →
       now (world run) < limit ∧ secs = now (world run) - now w).
Proof.
  cbn zeta. rewrite process_task_with_deadline_unfold. cbn zeta. cbn [events result world].
  set (w0 := set_timer (Some (now w + TASK_TIMEOUT)) w).
  set (inner := selected_round env r w0).
  change (now (set_timer (timer w) (world inner))) with (now (world inner)).
  pose proof (selected_round_cut env r w0) as Hcut. fold inner in Hcut.
  pose proof (selected_round_in_time env r (now w + TASK_TIMEOUT) w0 eq_refl) as Htime.
  fold inner in Htime.
  pose proof (selected_round_punctual env (now w + TASK_TIMEOUT) r w0 eq_refl) as [_ Hlate].
  fold inner in Hlate.
  assert (Hnot : ¬ loud (Log ERROR TaskTimedOut)) by (intros [_ H]; by apply (H ERROR)).
  assert (Hnotc : ∀ s, ¬ loud (Cancelled s)) by (intros s [H _]; by apply (H s)).
  (* the three ways the round can end *)
  assert (Hcases :
    (result inner = inl CancelledError
     ∧ cut_round (events inner) ∧ now w + TASK_TIMEOUT ≤ now (world inner)
     ∧ epilogue (result inner) (now (world inner) - now w) = [Log ERROR TaskTimedOut])
    ∨ (Forall loud (events inner)
       ∧ ∃ msg, epilogue (result inner) (now (world inner) - now w)
                = [Log ERROR (TaskFailed msg)])
    ∨ (Forall loud (events inner) ∧ now (world inner) < now w + TASK_TIMEOUT
       ∧ epilogue (result inner) (now (world inner) - now w)
         = [Log INFO (TaskCompleted (now (world inner) - now w))])).
  { destruct (result inner) as [e|[]] eqn:Hres.
    - destruct e; try done; try (right; left; split; [done|]; by eexists).
      left. by repeat split.
    - right. right. destruct Htime as [_ Htime]. split; [done|]. split; [done|].
      cbn -[Nat.ltb MAX_PROCESSING_TIME].
      assert ((MAX_PROCESSING_TIME <? now (world inner) - now w) = false) as ->; [|done].
      apply Nat.ltb_ge. unfold MAX_PROCESSING_TIME, TASK_TIMEOUT in *. lia. }
  clear Hcut Htime Hlate.
  assert (Hdone : ∀ secs line,
            Log INFO (TaskCompleted secs)
            ∈ Call FnProcessTaskWithDeadline :: Log INFO StartingBackground
                :: events inner ++ [line] → line = Log INFO (TaskCompleted secs)).
  { intros secs line Hin. pose proof (selected_round_emits env r w0) as Hround.
    fold inner in Hround.
    apply elem_of_cons in Hin as [|Hin]; [done|].
    apply elem_of_cons in Hin as [|Hin]; [done|].
    apply elem_of_app in Hin as [Hin|Hin].
    - rewrite Forall_forall in Hround. by specialize (Hround _ Hin).
    - by apply list_elem_of_singleton in Hin. }
  assert (Hloud : ∀ e line, Forall loud (events inner) → loud line →
            e ∈ Call FnProcessTaskWithDeadline :: Log INFO StartingBackground
                  :: events inner ++ [line] → loud e).
  { intros e line Hall Hline Hin.
    apply elem_of_cons in Hin as [->|Hin]; [by split|].
    apply elem_of_cons in Hin as [->|Hin]; [split; [done|congruence]|].
    apply elem_of_app in Hin as [Hin|Hin].
    - rewrite Forall_forall in Hall. by apply Hall.
    - by apply list_elem_of_singleton in Hin as ->. }
  assert (Hlast : ∀ line, last (Call FnProcessTaskWithDeadline :: Log INFO StartingBackground
                                  :: events inner ++ [line]) = Some line).
  { intros line. by rewrite !last_cons, last_snoc. }
  split; [unfold TASK_TIMEOUT, MAX_PROCESSING_TIME; lia|]. split; [done|].
  destruct Hcases as [(Hres & (pre & s & Hevs & Hpre & Hs) & Hnow & ->)
                     |[(Hall & msg & ->)|(Hall & Hnow & ->)]].
  - (* cancelled *)
    assert (events inner ++ [Log ERROR TaskTimedOut]
            = pre ++ [Cancelled s; Log ERROR TaskTimedOut]) as Hshape
      by (by rewrite Hevs, <- app_assoc).
    rewrite Hshape.
    assert (Log ERROR TaskTimedOut
            ∈ Call FnProcessTaskWithDeadline :: Log INFO StartingBackground
                :: pre ++ [Cancelled s; Log ERROR TaskTimedOut]) as Hlogged.
    { do 2 apply list_elem_of_further. apply elem_of_app. right.
      apply list_elem_of_further, list_elem_of_here. }
    split; [|split; [|split; [|split]]].
    + split; [intros _; exists s|done].
      do 2 apply list_elem_of_further. apply elem_of_app. right. apply list_elem_of_here.
    + intros _. split; [done|].
      exists (Call FnProcessTaskWithDeadline :: Log INFO StartingBackground :: pre), s.
      split; [done|].
      split. { repeat (constructor; [split; [done|congruence]|]). done. }
      destruct Hs as [[[-> | ->] Hq] | [[-> | ->] Hcall]];
        try (by do 2 apply list_elem_of_further);
        repeat (constructor; [done|]);
        apply Forall_app; (split; [done|]); by repeat constructor.
    + intros Hlt. lia.
    + intros _. left. rewrite <- Hshape. apply Hlast.
    + intros secs Hin. rewrite <- Hshape in Hin. by specialize (Hdone _ _ Hin).
  - (* failed *)
    assert (loud (Log ERROR (TaskFailed msg))) as Hline by (split; [done|congruence]).
    split; [|split; [|split; [|split]]].
    + split.
      * intros Hin. by destruct (Hnot (Hloud _ _ Hall Hline Hin)).
      * intros [s Hin]. by destruct (Hnotc s (Hloud _ _ Hall Hline Hin)).
    + intros Hin. by destruct (Hnot (Hloud _ _ Hall Hline Hin)).
    + intros _ Hin. by destruct (Hnot (Hloud _ _ Hall Hline Hin)).
    + intros _. right. exists msg. apply Hlast.
    + intros secs Hin. by specialize (Hdone _ _ Hin).
  - (* completed *)
    assert (loud (Log INFO (TaskCompleted (now (world inner) - now w)))) as Hline
      by (split; [done|congruence]).
    split; [|split; [|split; [|split]]].
    + split.
      * intros Hin. by destruct (Hnot (Hloud _ _ Hall Hline Hin)).
      * intros [s Hin]. by destruct (Hnotc s (Hloud _ _ Hall Hline Hin)).
    + intros Hin. by destruct (Hnot (Hloud _ _ Hall Hline Hin)).
    + intros _ Hin. by destruct (Hnot (Hloud _ _ Hall Hline Hin)).
    + intros Hle. lia.
    + intros secs Hin. split; [done|]. specialize (Hdone _ _ Hin). congruence.
Qed.

Module SampleBlocked.

(** The environment [SampleOther.env_ai], except that the GitHub request
    number 10, the first one of update_github_repository in the round 2 that
    follows a round 1, holds the event loop for 500 seconds. *)
Definition env_blocked : Env :=
  mkEnv (CONFIG SampleOther.env_ai)
        (ai_server SampleOther.env_ai) (ai_latency SampleOther.env_ai)
        (eval_server SampleOther.env_ai) (eval_latency SampleOther.env_ai)
        (λ _, None) (λ n, if n =? 10 then 500 else 1)
        (gh_login SampleOther.env_ai)
        (generate_repo_name SampleOther.env_ai)
        (sha_of_commit SampleOther.env_ai).

(** The same, with that request failing once it is over. *)
Definition env_blocked_failing : Env :=
  mkEnv (CONFIG env_blocked) (ai_server env_blocked) (ai_latency env_blocked)
        (eval_server env_blocked) (eval_latency env_blocked)
        (λ n, if n =? 10 then Some "502 Bad Gateway" else None) (gh_latency env_blocked)
        (gh_login env_blocked) (generate_repo_name env_blocked) (sha_of_commit env_blocked).

(** The world once round 1 of the sample task has run. *)
Definition after_round1 : World :=
  world (process_task_with_deadline SampleOther.env_ai Sample.round1_request Sample.boot).

Definition blocked_run : Run unit :=
  process_task_with_deadline env_blocked Sample.round2_request after_round1.

Definition failing_run : Run unit :=
  process_task_with_deadline env_blocked_failing Sample.round2_request after_round1.

End SampleBlocked.

Lemma timeout_aborts_remaining_stages_witness :
  now Sample.boot + TASK_TIMEOUT ≤ now (world SampleSlow.slow_run)
  ∧ ∃ pre s,
      events SampleSlow.slow_run = pre ++ [Cancelled s; Log ERROR TaskTimedOut]
      ∧ Forall loud pre
      ∧ match s with
        | AwaitAiPost | AwaitPagesSleep => Forall not_of_notifier (events SampleSlow.slow_run)
        | AwaitEvalPost | AwaitRetrySleep => Call FnSendEvaluation ∈ pre
        end.
Proof.
  apply (timeout_aborts_remaining_stages SampleSlow.env_slow Sample.round1_request
           Sample.boot).
  vm_compute. repeat constructor.
Defined.

Definition is_update (e : Event) : bool :=
  match e with Github (GhUpdateFile _ _ _) => true | _ => false end.

(** The limit passes inside a synchronous request.  Round 2 starts at 14
    seconds, so its limit is at 494; the first request of
    update_github_repository returns at about 517.  The round is not
    interrupted there: it updates both files, calls send_evaluation and starts
    a notification request, and is cancelled at that await. *)
Example limit_passes_inside_github_request :
  now SampleBlocked.after_round1 + TASK_TIMEOUT = 494
  ∧ now (world SampleBlocked.blocked_run) = 523
  ∧ length (List.filter is_update (events SampleBlocked.blocked_run)) = 2
  ∧ List.filter is_timeout_or_notifier (events SampleBlocked.blocked_run)
    = [Call FnSendEvaluation;
       EvalPost "http://eval.example/notify"
         (mkTaskResponse "student@example.com" "t1" 2 "nonce-2"
            "https://github.com/harshvk25/t1-2" "sha7" "https://harshvk25.github.io/t1-2");
       Cancelled AwaitEvalPost;
       Log ERROR TaskTimedOut].
Proof. vm_compute. repeat split. Qed.

(** When that request fails as well, the round ends with its own error
    after the limit: a failure is logged, and no timeout. *)
Example failure_after_the_limit :
  now (world SampleBlocked.failing_run) = 518
  ∧ List.filter is_timeout_or_notifier (events SampleBlocked.failing_run) = []
  ∧ last (events SampleBlocked.failing_run)
    = Some (Log ERROR (TaskFailed "Failed to update repository: 502 Bad Gateway")).
Proof. vm_compute. repeat split. Qed.

(** ** Publishing round 1 *)

(** One turn of the loop of create_github_repository. *)
Lemma create_one_file (env : Env) (full p c : string) (w : World) (repo : Repo) :
  no_faults env → github w !! full = Some repo → repo_files repo !! p = None →
  ∃ evs w1,
    gh_create_file env full p c BranchMain w = mkRun evs w1 (inr tt)
    ∧ github w1
      = <[full := mkRepo (<[p := c]> (repo_files repo)) (S (repo_commits repo))]> (github w)
    ∧ timer w1 = timer w ∧ tasks w1 = tasks w.
Proof.
  intros Hnf Hrepo Hp. unfold gh_create_file, gh_request. run_monad. rewrite !Hnf.
  destruct w as [tk nw tm gh na ne ng]. cbn in Hrepo. cbn. rewrite Hrepo, Hp. cbn.
  by eexists _, _.
Qed.

Lemma create_all_files_run (env : Env) (full : string) (files : Files) :
  no_faults env → NoDup files.*1 →
  ∀ (w : World) (repo : Repo),
    github w !! full = Some repo →
    (∀ p, p ∈ files.*1 → repo_files repo !! p = None) →
    ∃ evs w1,
      create_all_files env full files w = mkRun evs w1 (inr tt)
      ∧ github w1
        = <[full := mkRepo (list_to_map files ∪ repo_files repo)
                           (length files + repo_commits repo)]> (github w)
      ∧ timer w1 = timer w ∧ tasks w1 = tasks w.
Proof.
  intros Hnf. induction files as [|[p c] rest IH]; intros Hnd w repo Hrepo Hfresh.
  - exists [], w. split; [done|]. split; [|done].
    rewrite list_to_map_nil, (left_id_L ∅ (∪)). cbn.
    rewrite insert_id; [done|]. by destruct repo.
  - apply NoDup_cons in Hnd as [Hp Hnd].
    destruct (create_one_file env full p c w repo Hnf Hrepo)
      as (evs1 & w1 & Hrun1 & Hgh1 & Htm1 & Htk1).
    { apply Hfresh, list_elem_of_here. }
    set (repo1 := mkRepo (<[p := c]> (repo_files repo)) (S (repo_commits repo))) in *.
    destruct (IH Hnd w1 repo1) as (evs2 & w2 & Hrun2 & Hgh2 & Htm2 & Htk2).
    { by rewrite Hgh1, lookup_insert_eq. }
    { intros q Hq. cbn. rewrite lookup_insert_ne; [by apply Hfresh, list_elem_of_further|].
      by intros ->. }
    cbn [create_all_files]. rewrite (bind_returns _ _ _ _ _ _ Hrun1). run_monad.
    rewrite Hrun2. cbn [after].
    eexists _, w2. split; [done|]. split; [|split; congruence].
    rewrite Hgh2, Hgh1, insert_insert_eq. cbn [repo_files repo_commits repo1 length].
    rewrite list_to_map_cons, <- insert_union_l.
    rewrite insert_union_r by by apply not_elem_of_list_to_map_1.
    do 2 f_equal. lia.
Qed.

Lemma create_github_repository_run (env : Env) (r : TaskRequest) (files : Files)
    (w : World) (last_content : string) :
  no_faults env → token_missing (GITHUB_TOKEN (CONFIG env)) = false → timer w = None →
  NoDup files.*1 → "docs/index.html" ∉ files.*1 →
  content_after_loop files = Some last_content →
  let name := generate_repo_name env (task r) (round r) (now w) in
  let full := gh_login env +:+ "/" +:+ name in
  github w !! full = None →
  ∃ evs w1,
    create_github_repository env r files w
    = mkRun evs w1
        (inr (mkPublishInfo (html_url full) (sha_of_commit env full (S (length files)))
                ("https://" +:+ gh_login env +:+ ".github.io/" +:+ name)))
    ∧ github w1
      = <[full := mkRepo (<["docs/index.html" := last_content]> (list_to_map files))
                         (S (length files))]> (github w)
    ∧ tasks w1 = tasks w ∧ timer w1 = None.
Proof.
  intros Hnf Htoken Htimer Hnd Hdocs Hlast name full Hfresh.
  unfold create_github_repository, gh_create_repo, gh_request.
  run_monad. rewrite Htoken. cbn. rewrite !Hnf. cbn.
  destruct w as [tk nw tm gh na ne ng]. cbn in Htimer, Hfresh, name, full. subst tm.
  cbn. fold name. fold full. rewrite Hfresh. cbn.
  match goal with
  | |- context [create_all_files env full files ?w'] =>
      destruct (create_all_files_run env full files Hnf Hnd w' (mkRepo ∅ 0))
        as (evs & w1 & Hrun & Hgh & Htm & Htk);
        [by cbn; rewrite lookup_insert_eq|done|];
      rewrite Hrun
  end.
  cbn in Hgh, Htm, Htk. rewrite insert_insert_eq, (right_id_L ∅ (∪)), Nat.add_0_r in Hgh.
  cbn. unfold enable_pages, read_content, gh_create_file, gh_request, gh_latest_commit_sha,
    gh_user_login, gh_request.
  run_monad. rewrite Hlast. cbn. rewrite !Hnf. cbn.
  destruct w1 as [tk1 nw1 tm1 gh1 na1 ne1 ng1]. cbn in Hgh, Htm, Htk. subst tm1 tk1 gh1.
  cbn. rewrite lookup_insert_eq. cbn.
  rewrite (not_elem_of_list_to_map_1 _ _ Hdocs). cbn. unfold await. cbn.
  repeat (first [rewrite Hnf | rewrite lookup_insert_eq | rewrite insert_insert_eq]; cbn).
  eexists _, _. split; [reflexivity|]. cbn. by rewrite !insert_insert_eq.
Qed.

(** A name that is none of the listed ones. *)
Ltac other_name :=
  let H := fresh in
  intros H; repeat (apply elem_of_cons in H as [H|H]; [discriminate|]);
  by apply elem_of_nil in H.

Ltac distinct_names :=
  repeat (apply NoDup_cons_2; [other_name|]); apply NoDup_nil_2.

(** X11: With GitHub answering and the timer off, create_github_repository
    returns the address of a new repository, named by generate_repo_name
    under the login of the token.  The repository holds the files it was
    given, one commit each, and one file more: docs/index.html, whose
    content is that of the last file of the set, whatever that file is.  No
    other repository changes. *)
Theorem create_github_repository_publishes (env : Env) (r : TaskRequest) (files : Files)
    (w : World) (last_content : string) :
  no_faults env → token_missing (GITHUB_TOKEN (CONFIG env)) = false → timer w = None →
  NoDup files.*1 → "docs/index.html" ∉ files.*1 →
  content_after_loop files = Some last_content →
  let name := generate_repo_name env (task r) (round r) (now w) in
  let full := gh_login env +:+ "/" +:+ name in
  let run := create_github_repository env r files w in
  github w !! full = None →
  result run
  = inr (mkPublishInfo (html_url full) (sha_of_commit env full (S (length files)))
           ("https://" +:+ gh_login env +:+ ".github.io/" +:+ name))
  ∧ (∃ repo,
       github (world run) !! full = Some repo
       ∧ (∀ p c, (p, c) ∈ files → repo_files repo !! p = Some c)
       ∧ repo_files repo !! "docs/index.html" = Some last_content
       ∧ (∀ p, is_Some (repo_files repo !! p) → p = "docs/index.html" ∨ p ∈ files.*1)
       ∧ repo_commits repo = S (length files))
  ∧ (∀ other, other ≠ full → github (world run) !! other = github w !! other).
Proof.
  intros Hnf Htoken Htimer Hnd Hdocs Hlast name full run Hfresh.
  destruct (create_github_repository_run env r files w last_content Hnf Htoken Htimer Hnd
              Hdocs Hlast Hfresh) as (evs & w1 & Hrun & Hgh & _).
  subst run. rewrite Hrun. cbn [result world]. split; [done|]. split.
  - eexists. split; [by rewrite Hgh, lookup_insert_eq|]. cbn [repo_files repo_commits].
    split; [|split; [by rewrite lookup_insert_eq|split; [|done]]].
    + intros p c Hin. rewrite lookup_insert_ne.
      * by apply elem_of_list_to_map_1.
      * intros <-. apply Hdocs. apply list_elem_of_fmap. by exists ("docs/index.html", c).
    + intros p [c Hp]. destruct (decide (p = "docs/index.html")) as [->|Hne]; [by left|].
      right. rewrite lookup_insert_ne in Hp by done.
      apply elem_of_list_to_map_2 in Hp. apply list_elem_of_fmap. by exists (p, c).
  - intros other Hother. by rewrite Hgh, lookup_insert_ne.
Qed.

Lemma create_github_repository_publishes_witness :
  let files := [("index.html", "<html></html>"); ("README.md", "# t1")] in
  let run := create_github_repository Sample.env_ok Sample.round1_request files
               Sample.boot in
  result run
  = inr (mkPublishInfo "https://github.com/harshvk25/t1-0" "sha3"
           "https://harshvk25.github.io/t1-0")
  ∧ (∃ repo,
       github (world run) !! "harshvk25/t1-0" = Some repo
       ∧ (∀ p c, (p, c) ∈ files → repo_files repo !! p = Some c)
       ∧ repo_files repo !! "docs/index.html" = Some "# t1"
       ∧ (∀ p, is_Some (repo_files repo !! p) → p = "docs/index.html" ∨ p ∈ files.*1)
       ∧ repo_commits repo = 3)
  ∧ (∀ other, other ≠ "harshvk25/t1-0" →
              github (world run) !! other = github Sample.boot !! other).
Proof.
  apply (create_github_repository_publishes Sample.env_ok Sample.round1_request
           [("index.html", "<html></html>"); ("README.md", "# t1")] Sample.boot "# t1").
  - intros k. reflexivity.
  - reflexivity.
  - reflexivity.
  - cbn. distinct_names.
  - cbn. other_name.
  - reflexivity.
  - vm_compute. reflexivity.
Defined.

(** ** Round 1 from end to end *)

(** What generate_app_with_ai returns is the set of [generated_files] for
    some page; without a timer it always returns. *)
Lemma generate_app_with_ai_returns (env : Env) (r : TaskRequest) (w : World) :
  timer w = None →
  ∃ page, result (generate_app_with_ai env r w) = inr (generated_files r page).
Proof.
  intros Htimer. unfold generate_app_with_ai, ai_post. run_monad. unfold await.
  destruct w as [tk nw tm gh na ne ng]. cbn in Htimer. subst tm.
  cbn [timer ai_posts bump_ai set_now now].
  repeat (cbn; break_match); cbn; simplify_eq; by eexists.
Qed.

(** Without a timer send_evaluation returns, having sent the payload to
    the url at least once. *)
Lemma send_evaluation_posts (env : Env) (response : TaskResponse) (url : string)
    (w : World) :
  timer w = None →
  result (send_evaluation env response url w) = inr tt
  ∧ EvalPost url response ∈ events (send_evaluation env response url w).
Proof.
  intros Htimer.
  destruct (send_evaluation_untimed env response url w Htimer) as (Hres & Hposts & _).
  split; [done|]. apply list_elem_of_In.
  apply (proj1 (filter_In is_post_or_sleep _ _)). rewrite Hposts.
  repeat destruct (accepted _); by left.
Qed.

Lemma round1_stages_run (env : Env) (r : TaskRequest) (w : World) :
  no_faults env → token_missing (GITHUB_TOKEN (CONFIG env)) = false → timer w = None →
  (∀ t, github w !! (gh_login env +:+ "/" +:+ generate_repo_name env (task r) (round r) t)
        = None) →
  ∃ evs w2 t page,
    let name := generate_repo_name env (task r) (round r) t in
    let full := gh_login env +:+ "/" +:+ name in
    round1_stages env r w
    = mkRun evs w2
        (inr (mkPublishInfo (html_url full) (sha_of_commit env full 5)
                ("https://" +:+ gh_login env +:+ ".github.io/" +:+ name)))
    ∧ tasks w2 = <[task r := mkRoundRecord (html_url full) (email r) (brief r)]> (tasks w)
    ∧ github w2
      = <[full := mkRepo (<["docs/index.html" := generate_gitignore]>
                            (list_to_map (generated_files r page))) 5]> (github w)
    ∧ timer w2 = None
    ∧ result (generate_app_with_ai env r w) = inr (generated_files r page).
Proof.
  intros Hnf Htoken Htimer Hfresh.
  destruct (generate_app_with_ai_returns env r w Htimer) as [page Hgen].
  pose proof (generate_app_with_ai_keeps env (λ w, (github w, tasks w, timer w))
                (λ _ _, eq_refl) (λ _, eq_refl) r w) as Hkeep.
  unfold round1_stages. run_monad.
  destruct (generate_app_with_ai env r w) as [evs1 w1 res1]. cbn in Hgen, Hkeep.
  subst res1. injection Hkeep as Hgh1 Htk1 Htm1. cbn.
  assert (NoDup (generated_files r page).*1) as Hnd by (cbn; distinct_names).
  assert ("docs/index.html" ∉ (generated_files r page).*1) as Hdocs by (cbn; other_name).
  assert (timer w1 = None) as Htimer1 by congruence.
  destruct (create_github_repository_run env r (generated_files r page) w1 generate_gitignore
              Hnf Htoken Htimer1 Hnd Hdocs eq_refl)
    as (evs2 & w2 & Hrun & Hgh2 & Htk2 & Htm2).
  { rewrite Hgh1. apply Hfresh. }
  rewrite Hrun. cbn. eexists _, _, (now w1), page. cbn zeta.
  split; [reflexivity|]. cbn. destruct w2. cbn in *.
  split; [congruence|]. split; [congruence|done].
Qed.

(** X12: Round 1 from end to end, when GitHub answers, the token is set, no
    timer runs and no repository of the generated name exists: the round
    returns; the record it stores and the notification it sends carry the
    address of the new repository; and that repository holds the page that
    generate_app_with_ai returned as index.html, while docs/index.html, the
    file added for GitHub Pages, holds the text of .gitignore: the last file
    of the set, not the page. *)
Theorem process_round1_publishes (env : Env) (r : TaskRequest) (w : World) :
  no_faults env → token_missing (GITHUB_TOKEN (CONFIG env)) = false → timer w = None →
  (∀ t, github w !! (gh_login env +:+ "/" +:+ generate_repo_name env (task r) (round r) t)
        = None) →
  let run := process_round1 env r w in
  ∃ t page,
    let name := generate_repo_name env (task r) (round r) t in
    let full := gh_login env +:+ "/" +:+ name in
    result run = inr tt
    ∧ result (generate_app_with_ai env r w) = inr (generated_files r page)
    ∧ tasks (world run)
      = <[task r := mkRoundRecord (html_url full) (email r) (brief r)]> (tasks w)
    ∧ EvalPost (evaluation_url r)
        (mkTaskResponse (email r) (task r) 1 (nonce r) (html_url full)
           (sha_of_commit env full 5)
           ("https://" +:+ gh_login env +:+ ".github.io/" +:+ name))
      ∈ events run
    ∧ ∃ repo,
        github (world run) !! full = Some repo
        ∧ repo_files repo !! "index.html" = Some page
        ∧ repo_files repo !! "docs/index.html" = Some generate_gitignore
        ∧ repo_commits repo = 5.
Proof.
  intros Hnf Htoken Htimer Hfresh run.
  destruct (round1_stages_run env r w Hnf Htoken Htimer Hfresh)
    as (evs & w2 & t & page & Hrun & Htk & Hgh & Htm & Hgen).
  exists t, page. cbn zeta in *. subst run.
  rewrite process_round1_split, (bind_returns _ _ _ _ _ _ Hrun). unfold notify.
  cbn [repo_url commit_sha pages_url].
  match goal with |- context [send_evaluation env ?p ?u w2] =>
    destruct (send_evaluation_posts env p u w2 Htm) as [Hres Hpost];
    pose proof (send_evaluation_keeps env (λ w, (github w, tasks w))
                  (λ _ _, eq_refl) (λ _, eq_refl) p u w2) as Hkeep;
    destruct (send_evaluation env p u w2) as [evs3 w3 res3]
  end.
  cbn in *. injection Hkeep as Hgh3 Htk3.
  split; [done|]. split; [done|]. split; [congruence|].
  split; [apply elem_of_app; by right|].
  eexists. rewrite Hgh3, Hgh, lookup_insert_eq. split; [done|]. cbn.
  split; [|split; [by rewrite lookup_insert_eq|done]].
  by rewrite lookup_insert_ne.
Qed.

Lemma process_round1_publishes_witness :
  let run := process_round1 Sample.env_ok Sample.round1_request Sample.boot in
  ∃ t page,
    let name := generate_repo_name Sample.env_ok "t1" 1 t in
    let full := "harshvk25" +:+ "/" +:+ name in
    result run = inr tt
    ∧ result (generate_app_with_ai Sample.env_ok Sample.round1_request Sample.boot)
      = inr (generated_files Sample.round1_request page)
    ∧ tasks (world run)
      = <["t1" := mkRoundRecord (html_url full) "student@example.com" "build a calculator"]>
          (tasks Sample.boot)
    ∧ EvalPost "http://eval.example/notify"
        (mkTaskResponse "student@example.com" "t1" 1 "nonce-1" (html_url full)
           (sha_of_commit Sample.env_ok full 5)
           ("https://" +:+ "harshvk25" +:+ ".github.io/" +:+ name))
      ∈ events run
    ∧ ∃ repo,
        github (world run) !! full = Some repo
        ∧ repo_files repo !! "index.html" = Some page
        ∧ repo_files repo !! "docs/index.html" = Some generate_gitignore
        ∧ repo_commits repo = 5.
Proof.
  apply (process_round1_publishes Sample.env_ok Sample.round1_request Sample.boot).
  - intros k. reflexivity.
  - reflexivity.
  - reflexivity.
  - intros t. reflexivity.
Defined.

(** ** Reading the repository back *)

Lemma before_none (x : ascii) (sep s : string) :
  lacks x s = true → text_before (String x sep) s = s.
Proof.
  intros Hs. rewrite <- (append_nil_r s) at 1. rewrite before_lacks by done.
  cbn. apply append_nil_r.
Qed.

Lemma after_none (x : ascii) (sep s : string) :
  lacks x s = true → text_after (String x sep) s = None.
Proof.
  intros Hs. rewrite <- (append_nil_r s). by rewrite after_lacks.
Qed.

Lemma split_piece (x : ascii) (a b : string) :
  lacks x a = true →
  split (String x EmptyString) (a +:+ String x EmptyString +:+ b)
  = a :: split (String x EmptyString) b.
Proof.
  intros Ha. unfold split. rewrite split_go_first by done.
  rewrite before_lacks, after_lacks by done.
  rewrite before_here, after_here. cbn. by rewrite append_nil_r.
Qed.

Lemma split_last (x : ascii) (a : string) :
  lacks x a = true → split (String x EmptyString) a = [a].
Proof.
  intros Ha. unfold split. rewrite split_go_first by done.
  by rewrite before_none, after_none.
Qed.

(** The address of a repository, read the way round 2 reads it, gives the
    repository back, when neither the login nor the name has a slash. *)
Lemma repo_full_name_html_url (login name : string) :
  lacks "/" login = true → lacks "/" name = true →
  repo_full_name (html_url (login +:+ "/" +:+ name)) = Some (login +:+ "/" +:+ name).
Proof.
  intros Hlogin Hname. unfold repo_full_name.
  change (html_url (login +:+ "/" +:+ name))
    with ("https:" +:+ "/" +:+ (EmptyString +:+ "/" +:+ ("github.com" +:+ "/"
            +:+ (login +:+ "/" +:+ name)))).
  rewrite !split_piece, split_last by done. done.
Qed.

Lemma get_existing_code_from_github_page (env : Env) (url full page : string) (repo : Repo)
    (w : World) :
  no_faults env → repo_full_name url = Some full → github w !! full = Some repo →
  repo_files repo !! "index.html" = Some page →
  result (get_existing_code_from_github env url w) = inr [("index.html", page)].
Proof.
  intros Hnf Hfull Hrepo Hpage. revert Hfull.
  unfold repo_full_name, get_existing_code_from_github, repo_of_url, gh_get_repo,
    gh_get_contents, gh_request.
  destruct (rev (split "/" url)) as [|repo_name [|username rest]]; try done.
  intros [= <-]. run_monad. destruct w as [tk nw tm gh na ne ng]. cbn in Hrepo. cbn.
  rewrite !Hnf. cbn. rewrite Hrepo. cbn. rewrite !Hnf. cbn. by rewrite Hrepo, Hpage.
Qed.

(** X13: get_existing_code_from_github never raises and changes nothing on
    GitHub or in the task store.  It returns no file at all, or the file
    index.html of the repository the address stands for, and never any other
    file of it; when GitHub answers and the repository has an index.html,
    that page is what it returns. *)
Theorem get_existing_code_from_github_reads (env : Env) (url : string) (w : World) :
  let run := get_existing_code_from_github env url w in
  github (world run) = github w
  ∧ tasks (world run) = tasks w
  ∧ (result run = inr []
     ∨ ∃ full repo page,
         repo_full_name url = Some full ∧ github w !! full = Some repo
         ∧ repo_files repo !! "index.html" = Some page
         ∧ result run = inr [("index.html", page)])
  ∧ (no_faults env →
     ∀ full repo page,
       repo_full_name url = Some full → github w !! full = Some repo →
       repo_files repo !! "index.html" = Some page →
       result run = inr [("index.html", page)]).
Proof.
  cbn zeta.
  pose proof (get_existing_code_from_github_keeps env (λ w, (github w, tasks w))
                (λ _ _, eq_refl) (λ _, eq_refl) url w) as Hkeep.
  injection Hkeep as Hgh Htk. split; [done|]. split; [done|].
  split; [|intros Hnf full repo page; by apply get_existing_code_from_github_page].
  unfold repo_full_name, get_existing_code_from_github, repo_of_url, gh_get_repo,
    gh_get_contents, gh_request.
  destruct (rev (split "/" url)) as [|repo_name [|username rest]];
    [by left..|].
  run_monad. destruct w as [tk nw tm gh na ne ng]. cbn.
  repeat (cbn; break_match); cbn; simplify_eq; try (by left).
  right. by eexists _, _, _.
Qed.

(** ** From round 1 to round 2 *)

(** X14: The record that round 1 stores leads round 2 to the repository round 1
    created: read the way round 2 reads addresses, the stored address names
    that repository, and get_existing_code_from_github run on it returns the
    page published as index.html.  This needs the login and the generated
    name to be free of slashes. *)
Theorem round2_finds_round1_repository (env : Env) (r1 r2 : TaskRequest) (w : World) :
  no_faults env → token_missing (GITHUB_TOKEN (CONFIG env)) = false → timer w = None →
  (∀ t, github w !! (gh_login env +:+ "/" +:+ generate_repo_name env (task r1) (round r1) t)
        = None) →
  lacks "/" (gh_login env) = true →
  (∀ t, lacks "/" (generate_repo_name env (task r1) (round r1) t) = true) →
  task r2 = task r1 →
  let w1 := world (process_round1 env r1 w) in
  ∃ d full repo page,
    tasks w1 !! task r2 = Some d
    ∧ repo_full_name (rec_repo_url d) = Some full
    ∧ github w !! full = None
    ∧ github w1 !! full = Some repo
    ∧ repo_files repo !! "index.html" = Some page
    ∧ result (get_existing_code_from_github env (rec_repo_url d) w1)
      = inr [("index.html", page)].
Proof.
  intros Hnf Htoken Htimer Hfresh Hlogin Hname Htask w1. subst w1.
  destruct (round1_stages_run env r1 w Hnf Htoken Htimer Hfresh)
    as (evs & w2 & t & page & Hrun & Htk & Hgh & Htm & _).
  cbn zeta in *. rewrite process_round1_split, (bind_returns _ _ _ _ _ _ Hrun).
  unfold notify.
  match goal with |- context [send_evaluation env ?p ?u w2] =>
    pose proof (send_evaluation_keeps env (λ w, (github w, tasks w))
                  (λ _ _, eq_refl) (λ _, eq_refl) p u w2) as Hkeep;
    destruct (send_evaluation env p u w2) as [evs3 w3 res3]
  end.
  cbn in *. injection Hkeep as Hgh3 Htk3.
  set (full := gh_login env +:+ "/" +:+ generate_repo_name env (task r1) (round r1) t) in *.
  assert (repo_full_name (html_url full) = Some full) as Hfull
    by by apply repo_full_name_html_url.
  assert (github w3 !! full
          = Some (mkRepo (<["docs/index.html" := generate_gitignore]>
                            (list_to_map (generated_files r1 page))) 5)) as Hrepo
    by by rewrite Hgh3, Hgh, lookup_insert_eq.
  assert (<["docs/index.html" := generate_gitignore]>
            (list_to_map (generated_files r1 page) : gmap string string) !! "index.html"
          = Some page) as Hpage by by rewrite lookup_insert_ne.
  eexists _, full, _, page.
  split; [by rewrite Htk3, Htk, Htask, lookup_insert_eq|]. cbn [rec_repo_url].
  split; [done|]. split; [apply Hfresh|]. split; [done|]. split; [done|].
  by eapply get_existing_code_from_github_page.
Qed.

Module SampleNames.

(** The sample environment with a repository name that does not depend on
    the time: the task id and a fixed digest. *)
Definition env_fixed : Env :=
  mkEnv (CONFIG Sample.env_ok)
        (ai_server Sample.env_ok) (ai_latency Sample.env_ok)
        (eval_server Sample.env_ok) (eval_latency Sample.env_ok)
        (gh_fault Sample.env_ok) (gh_latency Sample.env_ok)
        (gh_login Sample.env_ok)
        (λ task _ _, task +:+ "-0a1b2c3d")
        (sha_of_commit Sample.env_ok).

End SampleNames.

Lemma round2_finds_round1_repository_witness :
  let w1 := world (process_round1 SampleNames.env_fixed Sample.round1_request Sample.boot) in
  ∃ d full repo page,
    tasks w1 !! "t1" = Some d
    ∧ repo_full_name (rec_repo_url d) = Some full
    ∧ github Sample.boot !! full = None
    ∧ github w1 !! full = Some repo
    ∧ repo_files repo !! "index.html" = Some page
    ∧ result (get_existing_code_from_github SampleNames.env_fixed (rec_repo_url d) w1)
      = inr [("index.html", page)].
Proof.
  apply (round2_finds_round1_repository SampleNames.env_fixed Sample.round1_request
           Sample.round2_request Sample.boot).
  - intros k. reflexivity.
  - reflexivity.
  - reflexivity.
  - intros t. reflexivity.
  - reflexivity.
  - intros t. reflexivity.
  - reflexivity.
Defined.

(** ** The name of the repository *)

Section RepoNames.

Import RepoName.

(** All characters of [s] satisfy [p]. *)
Fixpoint all_chars (p : ascii → bool) (s : string) : bool :=
  match s with
  | EmptyString => true
  | String c s' => p c && all_chars p s'
  end.

(** A character of [a-z0-9-]: what a repository name is made of. *)
Definition is_low_name_char (c : ascii) : bool :=
  let n := nat_of_ascii c in
  ((97 <=? n) && (n <=? 122)) || ((48 <=? n) && (n <=? 57)) || (n =? 45).

(** A lower-case hexadecimal digit. *)
Definition is_hex (c : ascii) : bool :=
  let n := nat_of_ascii c in
  ((97 <=? n) && (n <=? 102)) || ((48 <=? n) && (n <=? 57)).

Lemma all_chars_app (p : ascii → bool) (a b : string) :
  all_chars p (a +:+ b) = all_chars p a && all_chars p b.
Proof.
  induction a as [|c a IH]; [done|]. rewrite append_cons. cbn [all_chars].
  by rewrite IH, andb_assoc.
Qed.

Lemma all_chars_impl (p q : ascii → bool) (s : string) :
  (∀ c, p c = true → q c = true) → all_chars p s = true → all_chars q s = true.
Proof.
  intros Hpq. induction s as [|c s IH]; [done|]. cbn [all_chars].
  intros [Hc Hs]%andb_true_iff. by rewrite (Hpq c Hc), IH.
Qed.

Lemma all_chars_take (p : ascii → bool) (n : nat) (s : string) :
  all_chars p s = true → all_chars p (take n s) = true.
Proof.
  revert s. induction n as [|n IH]; intros s; [done|].
  destruct s as [|c s]; [done|]. cbn [all_chars take].
  intros [Hc Hs]%andb_true_iff. by rewrite Hc, IH.
Qed.

Lemma all_chars_lacks (p : ascii → bool) (x : ascii) (s : string) :
  p x = false → all_chars p s = true → lacks x s = true.
Proof.
  intros Hx. unfold lacks. induction s as [|c s IH]; [done|].
  cbn [all_chars contains startswith]. intros [Hc Hs]%andb_true_iff.
  destruct (ascii_dec x c) as [<-|]; [congruence|]. by apply IH.
Qed.

Lemma sub_others_lower (s : string) :
  all_chars is_low_name_char (sub_others (lower s)) = true.
Proof.
  induction s as [|c s IH]; [done|]. cbn [lower sub_others all_chars].
  rewrite IH, andb_true_r. clear.
  destruct c as [[] [] [] [] [] [] [] []]; reflexivity.
Qed.

Lemma all_chars_squeeze (p : ascii → bool) (s : string) :
  all_chars p s = true → all_chars p (squeeze s) = true.
Proof.
  induction s as [|c s IH]; [done|]. cbn [all_chars squeeze].
  intros [Hc Hs]%andb_true_iff. destruct (is_dash c && starts_with_dash s); [by apply IH|].
  cbn [all_chars]. by rewrite Hc, IH.
Qed.

Lemma all_chars_lstrip_dash (p : ascii → bool) (s : string) :
  all_chars p s = true → all_chars p (lstrip_dash s) = true.
Proof.
  induction s as [|c s IH]; [done|]. cbn [all_chars lstrip_dash].
  intros [Hc Hs]%andb_true_iff. destruct (is_dash c); [by apply IH|].
  cbn [all_chars]. by rewrite Hc, Hs.
Qed.

Lemma all_chars_rstrip_dash (p : ascii → bool) (s : string) :
  all_chars p s = true → all_chars p (rstrip_dash s) = true.
Proof.
  induction s as [|c s IH]; [done|]. cbn [all_chars rstrip_dash].
  intros [Hc Hs]%andb_true_iff. specialize (IH Hs).
  destruct (rstrip_dash s) as [|d t].
  - destruct (is_dash c); [done|]. cbn [all_chars]. by rewrite Hc.
  - cbn [all_chars] in *. by rewrite Hc, IH.
Qed.

Lemma clean_task_chars (task : string) :
  all_chars is_low_name_char (clean_task task) = true.
Proof.
  unfold clean_task, strip_dash.
  apply all_chars_rstrip_dash, all_chars_lstrip_dash, all_chars_squeeze, sub_others_lower.
Qed.

(** No two dashes in a row. *)
Fixpoint single_dashes (s : string) : bool :=
  match s with
  | EmptyString => true
  | String c s' => negb (is_dash c && starts_with_dash s') && single_dashes s'
  end.

Lemma starts_with_dash_squeeze (s : string) :
  starts_with_dash (squeeze s) = starts_with_dash s.
Proof.
  induction s as [|c s IH]; [done|]. cbn [squeeze].
  destruct (is_dash c) eqn:Hc; cbn [andb starts_with_dash]; [|by rewrite Hc].
  destruct (starts_with_dash s) eqn:Hs; [by rewrite IH|]. by cbn.
Qed.

Lemma squeeze_single_dashes (s : string) : single_dashes (squeeze s) = true.
Proof.
  induction s as [|c s IH]; [done|]. cbn [squeeze].
  destruct (is_dash c && starts_with_dash s) eqn:Hcs; [done|].
  cbn [single_dashes]. by rewrite starts_with_dash_squeeze, Hcs, IH.
Qed.

Lemma lstrip_dash_single_dashes (s : string) :
  single_dashes s = true → single_dashes (lstrip_dash s) = true.
Proof.
  induction s as [|c s IH]; [done|]. intros Hs. cbn [lstrip_dash].
  destruct (is_dash c); [|done]. apply IH.
  cbn [single_dashes] in Hs. by apply andb_true_iff in Hs as [_ ?].
Qed.

Lemma starts_with_dash_lstrip (s : string) : starts_with_dash (lstrip_dash s) = false.
Proof.
  induction s as [|c s IH]; [done|]. cbn [lstrip_dash].
  destruct (is_dash c) eqn:Hc; [done|]. by cbn.
Qed.

Lemma starts_with_dash_rstrip (s : string) :
  starts_with_dash s = false → starts_with_dash (rstrip_dash s) = false.
Proof.
  destruct s as [|c s]; [done|]. cbn [starts_with_dash rstrip_dash]. intros Hc.
  destruct (rstrip_dash s); by rewrite ?Hc.
Qed.

Lemma rstrip_dash_starts (s : string) :
  starts_with_dash (rstrip_dash s) = true → starts_with_dash s = true.
Proof.
  destruct s as [|c s]; [done|]. cbn [starts_with_dash rstrip_dash].
  destruct (rstrip_dash s); [|done].
  destruct (is_dash c) eqn:Hc; [done|]. cbn. by rewrite Hc.
Qed.

Lemma rstrip_dash_single_dashes (s : string) :
  single_dashes s = true → single_dashes (rstrip_dash s) = true.
Proof.
  induction s as [|c s IH]; [done|]. cbn [single_dashes rstrip_dash].
  intros [Hc Hs]%andb_true_iff. specialize (IH Hs).
  destruct (rstrip_dash s) as [|d t] eqn:Hr.
  - destruct (is_dash c) eqn:Hdc; [done|]. cbn. by rewrite Hdc.
  - change (single_dashes (String c (String d t)))
      with (negb (is_dash c && starts_with_dash (String d t)) && single_dashes (String d t)).
    rewrite IH, andb_true_r.
    destruct (is_dash c) eqn:Hdc; [|done]. cbn [andb] in *.
    destruct (starts_with_dash (String d t)) eqn:Hd; [|done].
    rewrite <- Hr in Hd. apply rstrip_dash_starts in Hd. by rewrite Hd in Hc.
Qed.

(** The last character is no dash. *)
Fixpoint ends_without_dash (s : string) : bool :=
  match s with
  | EmptyString => true
  | String c EmptyString => negb (is_dash c)
  | String _ s' => ends_without_dash s'
  end.

Lemma rstrip_dash_ends (s : string) : ends_without_dash (rstrip_dash s) = true.
Proof.
  induction s as [|c s IH]; [done|]. cbn [rstrip_dash].
  destruct (rstrip_dash s) as [|d t].
  - destruct (is_dash c) eqn:Hc; [done|]. cbn. by rewrite Hc.
  - done.
Qed.

Lemma take_all (n : nat) (s : string) : String.length s ≤ n → take n s = s.
Proof.
  revert s. induction n as [|n IH]; intros s Hs.
  - by destruct s; [|cbn in Hs; lia].
  - destruct s as [|c s]; [done|]. cbn in *. rewrite IH; [done|lia].
Qed.

Lemma take_app (n : nat) (a b : string) : n ≤ String.length a → take n (a +:+ b) = take n a.
Proof.
  revert a. induction n as [|n IH]; intros a Ha; [done|].
  destruct a as [|c a]; [cbn in Ha; lia|]. rewrite append_cons. cbn in *.
  rewrite IH; [done|lia].
Qed.

Lemma length_app (a b : string) :
  String.length (a +:+ b) = String.length a + String.length b.
Proof. induction a as [|c a IH]; [done|]. rewrite append_cons. cbn. by rewrite IH. Qed.

(** What generate_repo_name cleans the task id to: lower-case letters,
    digits and single dashes, with no dash at either end. *)
Lemma clean_task_shape (task : string) :
  all_chars is_low_name_char (clean_task task) = true
  ∧ single_dashes (clean_task task) = true
  ∧ starts_with_dash (clean_task task) = false
  ∧ ends_without_dash (clean_task task) = true.
Proof.
  split; [apply clean_task_chars|]. unfold clean_task, strip_dash. split; [|split].
  - apply rstrip_dash_single_dashes, lstrip_dash_single_dashes, squeeze_single_dashes.
  - apply starts_with_dash_rstrip, starts_with_dash_lstrip.
  - apply rstrip_dash_ends.
Qed.

Variable md5_hexdigest : string → string.

(** hexdigest() is 32 lower-case hexadecimal digits. *)
Hypothesis md5_hex : ∀ s, all_chars is_hex (md5_hexdigest s) = true.
Hypothesis md5_length : ∀ s, String.length (md5_hexdigest s) = 32.

Lemma generate_repo_name_chars (now_iso task : string) (round_num : Z) :
  all_chars is_low_name_char (generate_repo_name md5_hexdigest now_iso task round_num) = true.
Proof.
  unfold generate_repo_name. apply all_chars_take.
  rewrite !all_chars_app, clean_task_chars. cbn [andb all_chars].
  apply all_chars_take, (all_chars_impl is_hex); [|apply md5_hex].
  intros c. clear. destruct c as [[] [] [] [] [] [] [] []]; by vm_compute.
Qed.

(** X15: The name generate_repo_name returns has at most 100 characters, all of
    them lower-case letters, digits or dashes, so that it has no slash.  The
    part taken from the task id has no two dashes in a row and no dash at
    either end.  A cleaned id of at most 91 characters is followed by a dash
    and the first 8 digits of the digest; one of 100 characters or more
    fills the name alone. *)
Theorem generate_repo_name_shape (now_iso task : string) (round_num : Z) :
  let name := generate_repo_name md5_hexdigest now_iso task round_num in
  let clean := clean_task task in
  String.length name ≤ 100
  ∧ all_chars is_low_name_char name = true
  ∧ lacks "/" name = true
  ∧ single_dashes clean = true
  ∧ starts_with_dash clean = false
  ∧ ends_without_dash clean = true
  ∧ (String.length clean ≤ 91 →
     name = clean +:+ "-" +:+ take 8 (md5_hexdigest (hash_input task round_num now_iso))
     ∧ String.length name = String.length clean + 9)
  ∧ (100 ≤ String.length clean → name = take 100 clean).
Proof.
  cbn zeta. pose proof (generate_repo_name_chars now_iso task round_num) as Hchars.
  destruct (clean_task_shape task) as (_ & H1 & H2 & H3).
  split; [unfold generate_repo_name; rewrite take_string_length; lia|].
  split; [done|]. split; [by apply (all_chars_lacks is_low_name_char)|].
  split; [done|]. split; [done|]. split; [done|].
  unfold generate_repo_name.
  set (digest := md5_hexdigest (hash_input task round_num now_iso)).
  assert (String.length (take 8 digest) = 8) as Hdigest.
  { rewrite take_string_length. unfold digest. rewrite md5_length. done. }
  split.
  - intros Hlen. rewrite take_all.
    + split; [done|]. rewrite !length_app, Hdigest. cbn. lia.
    + rewrite !length_app, Hdigest. cbn. lia.
  - intros Hlen. by apply take_app.
Qed.

End RepoNames.

Lemma generate_repo_name_shape_witness :
  let md5_hexdigest := λ _ : string, "0a1b2c3d4e5f60718293a4b5c6d7e8f9" in
  let name := RepoName.generate_repo_name md5_hexdigest "2025-10-17T09:30:00"
                "Captcha_Solver--v2!" 1 in
  name = "captcha-solver-v2-0a1b2c3d"
  ∧ String.length name ≤ 100
  ∧ all_chars is_low_name_char name = true
  ∧ lacks "/" name = true.
Proof.
  cbn zeta.
  destruct (generate_repo_name_shape (λ _, "0a1b2c3d4e5f60718293a4b5c6d7e8f9")
              (λ _, eq_refl) (λ _, eq_refl) "2025-10-17T09:30:00" "Captcha_Solver--v2!" 1)
    as (H1 & H2 & H3 & _).
  split; [reflexivity|]. split; [exact H1|]. split; [exact H2|exact H3].
Defined.

(** X16: A task id whose cleaned form has 100 characters or more gets a name
    without digest: the name is the same for every round, time and digest,
    so that it is not unique. *)
Theorem generate_repo_name_long_task (task : string) :
  100 ≤ String.length (RepoName.clean_task task) →
  ∀ md5 md5' now_iso now_iso' round_num round_num',
    RepoName.generate_repo_name md5 now_iso task round_num
    = RepoName.generate_repo_name md5' now_iso' task round_num'.
Proof.
  intros Hlen md5 md5' now_iso now_iso' round_num round_num'.
  unfold RepoName.generate_repo_name. by rewrite !take_app.
Qed.

Module SampleLong.

(** A task id of 104 characters. *)
Definition task : string :=
  "sum-of-sales-" +:+ "a-very-long-task-identifier-that-goes-on-and-on-"
  +:+ "and-still-does-not-end-before-one-hundred-X".

End SampleLong.

Lemma generate_repo_name_long_task_witness :
  RepoName.generate_repo_name (λ _, "0a1b2c3d4e5f60718293a4b5c6d7e8f9") "2025-10-17T09:30:00"
    SampleLong.task 1
  = RepoName.generate_repo_name (λ _, "ffffffffffffffffffffffffffffffff") "2025-10-18T10:00:00"
      SampleLong.task 2.
Proof.
  apply (generate_repo_name_long_task SampleLong.task). vm_compute. lia.
Defined.

(** ** The health endpoint and the pipeline *)

(** create_github_repository with a token: the request that creates the
    repository is sent. *)
Lemma create_github_repository_requests (env : Env) (r : TaskRequest) (files : Files)
    (w : World) :
  token_missing (GITHUB_TOKEN (CONFIG env)) = false →
  Github (GhCreateRepo (generate_repo_name env (task r) (round r) (now w)))
  ∈ events (create_github_repository env r files w).
Proof.
  intros Htoken. unfold create_github_repository, gh_create_repo, gh_request.
  rewrite Htoken, bind_events. cbn [emit events result world].
  apply list_elem_of_further. rewrite try_except_events. apply elem_of_app. left.
  do 4 (rewrite bind_events; cbn [mret M_ret ret log emit get_world events result world app]).
  do 2 apply list_elem_of_further.
  do 3 (rewrite bind_events; cbn [mret M_ret ret log emit get_world events result world app]).
  do 2 (apply elem_of_app; left). rewrite bind_events. cbn [emit events app].
  apply list_elem_of_here.
Qed.

Lemma ai_post_starts (env : Env) (w : World) :
  ∃ rest, events (ai_post env w) = AiPost (ai_posts w) :: rest.
Proof.
  unfold ai_post. run_monad. destruct (await _ _ _) as [evs w1 [e|[]]]; cbn; [by eexists|].
  destruct (ai_server env (ai_posts w)); cbn; by eexists.
Qed.

(** X17: What GET /health reports and what the pipeline does agree on the AI
    service: it is reported as configured exactly when generate_app_with_ai
    sends a request to the AI endpoint rather than serving the fallback at
    once.  For GitHub they differ: a token is reported as configured only
    when it is set and is not the placeholder, while
    create_github_repository asks only whether it is set, so that with the
    placeholder as token the report says not_configured and the publisher
    still sends its request to GitHub. *)
Theorem health_reports_configuration (env : Env) (w : World) (r : TaskRequest)
    (files : Files) :
  (aipipe_service (health env w) = "configured"
   ↔ AiPost (ai_posts w) ∈ events (generate_app_with_ai env r w))
  ∧ (github_service (health env w) = "configured" →
     token_missing (GITHUB_TOKEN (CONFIG env)) = false)
  ∧ (GITHUB_TOKEN (CONFIG env) = Some "YOUR_GITHUB_TOKEN_HERE" →
     github_service (health env w) = "not_configured"
     ∧ Github (GhCreateRepo (generate_repo_name env (task r) (round r) (now w)))
       ∈ events (create_github_repository env r files w)).
Proof.
  unfold health. cbn [aipipe_service github_service].
  assert (service_status (AIPIPE_API_KEY (CONFIG env)) "your_aipipe_key_here" = "configured"
          ↔ ai_not_configured (AIPIPE_API_KEY (CONFIG env)) = false) as Hai.
  { unfold service_status, ai_not_configured. destruct (AIPIPE_API_KEY (CONFIG env)) as [v|];
      [|done]. by destruct (String.eqb v EmptyString), (String.eqb v "your_aipipe_key_here"). }
  split; [|split].
  - rewrite Hai. unfold generate_app_with_ai.
    destruct (ai_not_configured _).
    + split; [done|]. cbn. intros Hin.
      repeat (apply elem_of_cons in Hin as [|Hin]; [done|]). by apply elem_of_nil in Hin.
    + split; [intros _|done]. rewrite bind_events. cbn [emit events result world].
      apply list_elem_of_further. rewrite try_except_events. apply elem_of_app. left.
      rewrite bind_events. destruct (ai_post_starts env w) as [rest ->].
      apply list_elem_of_here.
  - unfold service_status, token_missing. destruct (GITHUB_TOKEN (CONFIG env)) as [v|]; [|done].
    by destruct (String.eqb v EmptyString).
  - intros Htoken. rewrite Htoken. split; [reflexivity|].
    apply create_github_repository_requests. by rewrite Htoken.
Qed.

(** X18: The number of active tasks that GET /health reports never goes down: a
    background operation leaves it as it is or adds one to it, and it adds
    one only in round 1, for a task that had no record and has one
    afterwards. *)
Theorem health_active_tasks (env : Env) (r : TaskRequest) (w : World) :
  let w' := world (process_task_with_deadline env r w) in
  let n := active_tasks (health env w) in
  let n' := active_tasks (health env w') in
  (n' = n ∨ n' = S n)
  ∧ (round r ≠ 1%Z → n' = n)
  ∧ (is_Some (tasks w !! task r) → n' = n)
  ∧ (n' = S n → round r = 1%Z ∧ tasks w !! task r = None ∧ is_Some (get_tasks w' !! task r)).
Proof.
  cbn zeta. unfold health, get_tasks. cbn [active_tasks].
  rewrite process_task_with_deadline_unfold. cbn zeta. cbn [world].
  set (w0 := set_timer (Some (now w + TASK_TIMEOUT)) w).
  assert (tasks (set_timer (timer w) (world (selected_round env r w0)))
          = tasks (world (selected_round env r w0))) as -> by by destruct (world _).
  assert (tasks (world (selected_round env r w0)) = tasks w
          ∨ (round r = 1%Z
             ∧ ∃ url, tasks (world (selected_round env r w0))
                      = <[task r := mkRoundRecord url (email r) (brief r)]> (tasks w)))
    as [->|(Hround & url & ->)].
  { unfold selected_round. destruct (round r =? 1)%Z eqn:Hr.
    - apply Z.eqb_eq in Hr.
      destruct (process_round1_tasks env r w0) as [H|[url H]];
        [left|right; split; [done|exists url]]; rewrite H; by destruct w.
    - left. rewrite process_round2_keeps_tasks. by destruct w. }
  - split; [by left|]. split; [done|]. split; [done|]. lia.
  - rewrite map_size_insert. destruct (tasks w !! task r) as [d|] eqn:Hd; cbn [id].
    + split; [by left|]. split; [done|]. split; [done|]. lia.
    + split; [by right|]. split; [done|]. split; [by intros [? ?]|].
      intros _. split; [done|]. split; [done|]. by rewrite lookup_insert_eq.
Qed.

(** ** Round 2 from end to end *)

(** The page modify_existing_app takes from a reply of the AI endpoint, if
    any: only a 200 reply gives one, from its output, from its first choice,
    or else from the text of the whole body. *)
Definition page_of_reply (reply : HttpReply AiJson) : option string :=
  match reply with
  | HttpResponse status_code body =>
      if (status_code =? 200)%Z then
        match body with
        | JsonOutput content | JsonChoices content => Some (extract_html_code content)
        | JsonOther repr => Some (extract_html_code (ContentStr repr))
        | JsonRaises _ | JsonBadShape _ => None
        end
      else None
  | HttpError _ => None
  end.

Lemma modify_existing_app_page (env : Env) (r : TaskRequest) (d : RoundRecord) (w : World)
    (page : string) :
  timer w = None → page_of_reply (ai_server env (ai_posts w)) = Some page →
  result (modify_existing_app env r d w)
  = inr [("index.html", page);
         ("README.md", generate_updated_readme (rec_brief d) (brief r) (task r))].
Proof.
  intros Htimer Hpage. rewrite modify_existing_app_outcome by done.
  unfold page_of_reply in Hpage.
  destruct (ai_server env (ai_posts w)) as [status_code body|msg]; [|done].
  destruct (status_code =? 200)%Z; [|done]. destruct body; by simplify_eq.
Qed.

(** update_github_repository when no request fails, with the sha it
    returns. *)
Lemma update_github_repository_sha (env : Env) (r : TaskRequest) (files : Files) (w : World)
    (d : RoundRecord) (repo_name username : string) (rest_url : list string) (repo : Repo) :
  no_faults env → NoDup files.*1 →
  tasks w !! task r = Some d →
  rev (split "/" (rec_repo_url d)) = repo_name :: username :: rest_url →
  github w !! (username +:+ "/" +:+ repo_name) = Some repo →
  0 < length files + repo_commits repo →
  let full := username +:+ "/" +:+ repo_name in
  ∃ evs w1,
    update_github_repository env r files w
    = mkRun evs w1
        (inr (mkPublishInfo (html_url full)
                (sha_of_commit env full (length files + repo_commits repo))
                ("https://" +:+ username +:+ ".github.io/" +:+ repo_name)))
    ∧ github w1
      = <[full := mkRepo (list_to_map files ∪ repo_files repo)
                         (length files + repo_commits repo)]> (github w).
Proof.
  intros Hnf Hnd Htask Hurl Hrepo Hcommits full.
  unfold update_github_repository, repo_of_url, gh_get_repo, gh_latest_commit_sha,
    gh_request.
  run_monad. rewrite Htask, Hurl. cbn. rewrite !Hnf. cbn.
  destruct w as [tk nw tm gh na ne ng]. cbn in Hrepo. cbn. rewrite Hrepo. cbn.
  match goal with
  | |- context [update_all_files env ?f files ?w'] =>
      destruct (update_all_files_merges env f files Hnf Hnd w' repo Hrepo)
        as (evs & w1 & Hrun & Hgh & _);
      rewrite Hrun
  end.
  cbn. rewrite !Hnf. destruct w1 as [tk1 nw1 tm1 gh1 na1 ne1 ng1]. cbn in Hgh. cbn.
  rewrite Hgh, lookup_insert_eq. cbn.
  destruct (length files + repo_commits repo) as [|n] eqn:Hn; [lia|]. cbn.
  by eexists _, _.
Qed.

(** X19: Round 2 from end to end, when GitHub answers, no timer runs, the task
    has a record whose address names an existing repository, and the AI
    endpoint returns a page: the round returns; [tasks] is unchanged; in
    the repository index.html becomes the new page and README.md the updated
    readme, in two commits, while every other file, docs/index.html
    included, stays as it was; and a notification with round 2, the address
    of the repository and the sha of its latest commit is sent. *)
Theorem process_round2_updates (env : Env) (r : TaskRequest) (w : World) (d : RoundRecord)
    (repo_name username : string) (rest_url : list string) (repo : Repo) (page : string) :
  no_faults env → timer w = None →
  tasks w !! task r = Some d →
  rev (split "/" (rec_repo_url d)) = repo_name :: username :: rest_url →
  github w !! (username +:+ "/" +:+ repo_name) = Some repo →
  page_of_reply (ai_server env (ai_posts w)) = Some page →
  let full := username +:+ "/" +:+ repo_name in
  let run := process_round2 env r w in
  result run = inr tt
  ∧ tasks (world run) = tasks w
  ∧ (∃ repo',
       github (world run) !! full = Some repo'
       ∧ repo_files repo' !! "index.html" = Some page
       ∧ repo_files repo' !! "README.md"
         = Some (generate_updated_readme (rec_brief d) (brief r) (task r))
       ∧ (∀ p, p ≠ "index.html" → p ≠ "README.md" →
               repo_files repo' !! p = repo_files repo !! p)
       ∧ repo_commits repo' = 2 + repo_commits repo)
  ∧ EvalPost (evaluation_url r)
      (mkTaskResponse (email r) (task r) 2 (nonce r) (html_url full)
         (sha_of_commit env full (2 + repo_commits repo))
         ("https://" +:+ username +:+ ".github.io/" +:+ repo_name))
    ∈ events run.
Proof.
  intros Hnf Htimer Htask Hurl Hrepo Hpage full run. subst run.
  pose proof (modify_existing_app_page env r d w page Htimer Hpage) as Hmod.
  pose proof (modify_existing_app_keeps env (λ w, (github w, tasks w, timer w))
                (λ _ _, eq_refl) (λ _, eq_refl) (λ _, eq_refl) r d w) as Hkeep.
  unfold process_round2. run_monad. rewrite Htask.
  destruct (modify_existing_app env r d w) as [evs1 w1 res1]. cbn in Hmod, Hkeep.
  subst res1. injection Hkeep as Hgh1 Htk1 Htm1. cbn.
  set (files := [("index.html", page);
                 ("README.md", generate_updated_readme (rec_brief d) (brief r) (task r))]).
  assert (NoDup files.*1) as Hnd by (cbn; distinct_names).
  destruct (update_github_repository_sha env r files w1 d repo_name username rest_url repo)
    as (evs2 & w2 & Hrun & Hgh2); try done; [congruence|congruence|cbn; lia|].
  pose proof (update_github_repository_keeps env (λ w, (tasks w, timer w))
                (λ _ _, eq_refl) (λ _ _, eq_refl) (λ _, eq_refl) r files w1) as Hkeep.
  rewrite Hrun in Hkeep |- *. cbn in Hkeep. injection Hkeep as Htk2 Htm2. cbn.
  match goal with |- context [send_evaluation env ?p ?u w2] =>
    destruct (send_evaluation_posts env p u w2) as [Hres Hpost]; [congruence|];
    pose proof (send_evaluation_keeps env (λ w, (github w, tasks w))
                  (λ _ _, eq_refl) (λ _, eq_refl) p u w2) as Hkeep;
    destruct (send_evaluation env p u w2) as [evs3 w3 res3]
  end.
  cbn in *. injection Hkeep as Hgh3 Htk3.
  split; [done|]. split; [congruence|]. split.
  - eexists. rewrite Hgh3, Hgh2, lookup_insert_eq. split; [done|].
    cbn [repo_files repo_commits].
    rewrite <- !insert_union_l, (left_id_L ∅ (∪)).
    split; [by rewrite lookup_insert_eq|].
    split; [by rewrite lookup_insert_ne, lookup_insert_eq|].
    split; [|done]. intros p H1 H2. by rewrite !lookup_insert_ne.
  - do 2 apply list_elem_of_further. apply elem_of_app. right.
    apply elem_of_app. right. exact Hpost.
Qed.

Lemma process_round2_updates_witness :
  let full := "harshvk25" +:+ "/" +:+ "t1-0" in
  let page := "<html><body>dark</body></html>" in
  let run := process_round2 SampleOther.env_ai Sample.round2_request
               SampleRuns.after_round1 in
  result run = inr tt
  ∧ tasks (world run) = tasks SampleRuns.after_round1
  ∧ (∃ repo',
       github (world run) !! full = Some repo'
       ∧ repo_files repo' !! "index.html" = Some page
       ∧ repo_files repo' !! "README.md"
         = Some (generate_updated_readme "build a calculator" "add a dark mode" "t1")
       ∧ (∀ p, p ≠ "index.html" → p ≠ "README.md" →
               repo_files repo' !! p = repo_files SampleMerge.round1_repo !! p)
       ∧ repo_commits repo' = 2 + repo_commits SampleMerge.round1_repo)
  ∧ EvalPost "http://eval.example/notify"
      (mkTaskResponse "student@example.com" "t1" 2 "nonce-2" (html_url full)
         (sha_of_commit SampleOther.env_ai full (2 + repo_commits SampleMerge.round1_repo))
         ("https://" +:+ "harshvk25" +:+ ".github.io/" +:+ "t1-0"))
    ∈ events run.
Proof.
  apply (process_round2_updates SampleOther.env_ai Sample.round2_request
           SampleRuns.after_round1
           (mkRoundRecord "https://github.com/harshvk25/t1-0" "student@example.com"
              "build a calculator")
           "t1-0" "harshvk25" ["github.com"; EmptyString; "https:"]
           SampleMerge.round1_repo "<html><body>dark</body></html>").
  - intros k. reflexivity.
  - vm_compute. reflexivity.
  - vm_compute. reflexivity.
  - vm_compute. reflexivity.
  - vm_compute. reflexivity.
  - vm_compute. reflexivity.
Defined.

Lemma ai_post_counts (env : Env) (n : nat) :
  triple (λ w, ai_posts w = n) (ai_post env) (λ _ w, ai_posts w = S n)
    (λ _ w, ai_posts w = S n).
Proof.
  intros w Hw. unfold ai_post. run_monad. unfold await.
  destruct w as [tk nw tm gh na ne ng]. cbn in Hw. subst na. cbn.
  repeat (break_match; cbn); done.
Qed.

(** X20: Unlike generate_app_with_ai, modify_existing_app does not look at the
    API key: whatever the configuration and whatever
    get_existing_code_from_github found, it sends exactly one request to the
    AI endpoint. *)
Theorem modify_existing_app_always_asks (env : Env) (r : TaskRequest) (d : RoundRecord)
    (w : World) :
  AiPost (ai_posts w) ∈ events (modify_existing_app env r d w)
  ∧ ai_posts (world (modify_existing_app env r d w)) = S (ai_posts w).
Proof.
  pose proof (get_existing_code_from_github_returns env (rec_repo_url d) w) as [files Hres].
  pose proof (get_existing_code_from_github_keeps env ai_posts (λ _ _, eq_refl)
                (λ _, eq_refl) (rec_repo_url d) w) as Hkeep.
  split.
  - unfold modify_existing_app. rewrite !bind_events. cbn [emit events result world].
    destruct (get_existing_code_from_github env (rec_repo_url d) w) as [evs1 w1 res1].
    cbn in Hres, Hkeep. subst res1. cbn [events result world].
    rewrite try_except_events. rewrite bind_events.
    destruct (ai_post_starts env w1) as [rest Hrest]. rewrite Hrest, Hkeep.
    apply list_elem_of_further. apply elem_of_app. right. apply elem_of_app. left.
    apply list_elem_of_here.
  - assert (triple (λ w', ai_posts w' = ai_posts w) (modify_existing_app env r d)
              (λ _ w', ai_posts w' = S (ai_posts w))
              (λ _ w', ai_posts w' = S (ai_posts w))) as Htriple.
    { unfold modify_existing_app.
      apply (triple_bind _ _ _ (λ _ w', ai_posts w' = ai_posts w));
        [apply triple_emit_inv|intros _].
      apply (triple_bind _ _ _ (λ _ w', ai_posts w' = ai_posts w)).
      { intros w' Hw'.
        pose proof (get_existing_code_from_github_returns env (rec_repo_url d) w')
          as [files' Hres'].
        rewrite Hres'.
        by rewrite (get_existing_code_from_github_keeps env ai_posts (λ _ _, eq_refl)
                      (λ _, eq_refl) (rec_repo_url d) w'). }
      intros existing_code.
      apply (triple_try _ _ _ (λ _ w', ai_posts w' = S (ai_posts w))).
      - apply (triple_bind _ _ _ (λ _ w', ai_posts w' = S (ai_posts w)));
          [apply ai_post_counts|].
        intros [status_code result]. apply (triple_keeps ai_posts (S (ai_posts w))). repeat keeps_step.
      - intros e. unfold except_Exception. destruct (is_Exception e); cbn; [|done].
        apply (triple_keeps ai_posts (S (ai_posts w))). repeat keeps_step. }
    specialize (Htriple w eq_refl). revert Htriple.
    by destruct (result (modify_existing_app env r d w)).
Qed.

(** ** The notification of round 1 and the record *)

(** What round1_stages returns is what it has stored. *)
Lemma round1_stages_record (env : Env) (r : TaskRequest) (w : World) :
  match result (round1_stages env r w) with
  | inr info =>
      tasks (world (round1_stages env r w))
      = <[task r := mkRoundRecord (repo_url info) (email r) (brief r)]> (tasks w)
  | inl _ => tasks (world (round1_stages env r w)) = tasks w
  end.
Proof.
  unfold round1_stages. run_monad.
  pose proof (generate_app_with_ai_keeps env tasks (λ _ _, eq_refl) (λ _, eq_refl) r w) as H1.
  destruct (generate_app_with_ai env r w) as [evs1 w1 [e|files]]; cbn in *; [done|].
  pose proof (create_github_repository_keeps env tasks (λ _ _, eq_refl) (λ _ _, eq_refl)
                (λ _, eq_refl) r files w1) as H2.
  destruct (create_github_repository env r files w1) as [evs2 w2 [e|info]]; cbn in *;
    [congruence|].
  destruct w2. cbn in *. congruence.
Qed.

(** The event is no notification request, or one of round 1 for the
    request [r] whose repo_url is the address recorded in [final]. *)
Definition tells_the_record (r : TaskRequest) (final : World) (e : Event) : Prop :=
  match e with
  | EvalPost url p =>
      url = evaluation_url r
      ∧ resp_email p = email r ∧ resp_task p = task r ∧ resp_round p = 1%Z
      ∧ resp_nonce p = nonce r
      ∧ tasks final !! task r = Some (mkRoundRecord (resp_repo_url p) (email r) (brief r))
  | _ => True
  end.

(** X21: A notification of round 1 is sent only once the record is stored, and
    says what the record says: in every run of process_round1, cut short or
    not, each notification request goes to the evaluation url of the request
    and carries its email, task and nonce, round 1, and as repo_url the
    address that [tasks] holds for the task when the run is over. *)
Theorem process_round1_notifies_stored_address (env : Env) (r : TaskRequest) (w : World) :
  Forall (tells_the_record r (world (process_round1 env r w)))
    (events (process_round1 env r w)).
Proof.
  apply Forall_forall. intros [| | |url p| | | | |]; try done. cbn [tells_the_record].
  rewrite process_round1_split, bind_events, bind_world.
  pose proof (round1_stages_record env r w) as Hrecord.
  assert (Forall (λ e, is_eval_post e = false) (events (round1_stages env r w))) as Hquiet.
  { apply (obeys_all _ (λ _, True)); [done|].
    apply round1_stages_obeys; done. }
  intros [Hin|Hin]%elem_of_app.
  { rewrite Forall_forall in Hquiet. by specialize (Hquiet _ Hin). }
  destruct (result (round1_stages env r w)) as [e|info]; [by apply elem_of_nil in Hin|].
  set (w1 := world (round1_stages env r w)) in *.
  set (payload := mkTaskResponse (email r) (task r) 1 (nonce r) (repo_url info)
                    (commit_sha info) (pages_url info)).
  assert (Forall (λ e, match e with
                       | EvalPost u q => u = evaluation_url r ∧ q = payload
                       | _ => True
                       end) (events (notify env r 1 info w1))) as Hposts.
  { apply (obeys_all _ (λ _, True)); [done|]. unfold notify.
    apply send_evaluation_obeys; done. }
  rewrite Forall_forall in Hposts. destruct (Hposts _ Hin) as [-> ->].
  cbn [payload resp_email resp_task resp_round resp_nonce resp_repo_url].
  repeat (split; [done|]).
  unfold notify. rewrite send_evaluation_keeps by done.
  by rewrite Hrecord, lookup_insert_eq.
Qed.

(** ** The readme *)

(** An element of a joined list stands between separators, or at an end. *)
Lemma join_item (sep : string) (f : string → string) (l : list string) (x : string) :
  x ∈ l →
  ∃ a b, join sep (map f l) = a +:+ f x +:+ b
         ∧ (a = EmptyString ∨ ∃ a', a = a' +:+ sep)
         ∧ (b = EmptyString ∨ ∃ b', b = sep +:+ b').
Proof.
  induction l as [|y l IH]; [by intros ?%elem_of_nil|].
  intros [->|Hin]%elem_of_cons.
  - destruct l as [|z l].
    + exists EmptyString, EmptyString. cbn. rewrite append_nil_r. by repeat split; left.
    + exists EmptyString, (sep +:+ join sep (map f (z :: l))). cbn [map join].
      split; [done|]. split; [by left|right; by eexists].
  - destruct (IH Hin) as (a & b & Hjoin & Ha & Hb).
    destruct l as [|z l]; [by apply elem_of_nil in Hin|].
    exists (f y +:+ sep +:+ a), b. cbn [map join] in *. rewrite Hjoin.
    split; [by rewrite !append_assoc|]. split; [right|done].
    destruct Ha as [->|[a' ->]].
    + exists (f y). by rewrite append_nil_r.
    + exists (f y +:+ sep +:+ a'). by rewrite !append_assoc.
Qed.

(** X22: generate_readme puts the task id in the heading and the brief after
    "Brief", as they are, and lists every check of the request as an item of
    its own line; generate_updated_readme names both briefs. *)
Theorem readme_contents (brief original_brief task : string) (checks : list string) :
  startswith ("# " +:+ task +:+ nl) (generate_readme brief checks task) = true
  ∧ contains ("**Brief**: " +:+ brief +:+ nl) (generate_readme brief checks task) = true
  ∧ (∀ check, check ∈ checks →
       contains (nl +:+ ("- " +:+ check) +:+ nl) (generate_readme brief checks task) = true)
  ∧ startswith ("# " +:+ task +:+ nl) (generate_updated_readme original_brief brief task)
    = true
  ∧ contains ("**Original Brief**: " +:+ original_brief +:+ nl)
      (generate_updated_readme original_brief brief task) = true
  ∧ contains ("**Modification**: " +:+ brief +:+ nl)
      (generate_updated_readme original_brief brief task) = true.
Proof.
  split; [|split; [|split; [|split; [|split]]]].
  - unfold generate_readme. apply startswith_spec. eexists.
    rewrite !append_assoc. by do 2 f_equal.
  - unfold generate_readme. find_between.
  - intros check Hin. unfold generate_readme.
    destruct (join_item nl (λ check, "- " +:+ check) checks check Hin)
      as (a & b & -> & Ha & Hb).
    cbn beta. set (item := "- " +:+ check).
    destruct Ha as [->|[a' ->]], Hb as [->|[b' ->]];
      rewrite ?append_assoc, ?append_nil_l; find_between.
  - unfold generate_updated_readme. apply startswith_spec. eexists.
    rewrite !append_assoc. by do 2 f_equal.
  - unfold generate_updated_readme. find_between.
  - unfold generate_updated_readme. find_between.
Qed.

(** ** Failures of the publisher *)

Definition is_github (e : Event) : bool :=
  match e with Github _ => true | _ => false end.

(** X23: The block that enables GitHub Pages never fails the publication:
    whatever GitHub answers, and even when there was no file and the loop
    variable is unbound, it returns after one, two or three requests, each
    the creation of a file, and a failed attempt changes nothing. *)
Theorem enable_pages_never_raises (env : Env) (repo : string) (content : option string)
    (w : World) :
  let run := enable_pages env repo content w in
  result run = inr tt
  ∧ length (List.filter is_github (events run)) ≤ 3
  ∧ (content = None →
     List.filter is_github (events run)
     = [Github (GhCreateFile repo ".nojekyll" EmptyString BranchMain)])
  ∧ (github (world run) = github w
     ∨ ∃ path text old,
         github w !! repo = Some old ∧ repo_files old !! path = None
         ∧ github (world run)
           = <[repo := mkRepo (<[path := text]> (repo_files old)) (S (repo_commits old))]>
               (github w)).
Proof.
  cbn zeta. unfold enable_pages, read_content, gh_create_file, gh_request. run_monad.
  destruct w as [tk nw tm gh na ne ng]. cbn.
  destruct content as [c|]; repeat (cbn; break_match); cbn; simplify_eq;
    (split; [done|]); (split; [lia|]); (split; [done|]);
    first [by left | right; by eexists _, _, _].
Qed.

(** create_github_repository when the generated name is taken. *)
Lemma create_github_repository_name_taken (env : Env) (r : TaskRequest) (files : Files)
    (w : World) (old : Repo) :
  token_missing (GITHUB_TOKEN (CONFIG env)) = false →
  github w !! (gh_login env +:+ "/" +:+ generate_repo_name env (task r) (round r) (now w))
  = Some old →
  ∃ evs w1 msg,
    create_github_repository env r files w
    = mkRun evs w1 (inl (Exception ("GitHub operation failed: " +:+ msg)))
    ∧ github w1 = github w
    ∧ List.filter is_github evs
      = [Github (GhCreateRepo (generate_repo_name env (task r) (round r) (now w)))].
Proof.
  intros Htoken Htaken. unfold create_github_repository, gh_create_repo, gh_request.
  run_monad. rewrite Htoken. destruct w as [tk nw tm gh na ne ng]. cbn in Htaken. cbn.
  destruct (gh_fault env ng) as [msg|]; cbn; [by eexists _, _, _|].
  rewrite Htaken. cbn. by eexists _, _, _.
Qed.

(** X24: When the name generate_repo_name gives is already taken, round 1 fails
    with "GitHub operation failed: ..." after the one request that tries to
    create the repository: nothing on GitHub changes, no record is stored
    and no notification is sent. *)
Theorem round1_name_taken (env : Env) (r : TaskRequest) (w : World) :
  token_missing (GITHUB_TOKEN (CONFIG env)) = false → timer w = None →
  (∀ t, is_Some (github w !! (gh_login env +:+ "/"
                              +:+ generate_repo_name env (task r) (round r) t))) →
  let run := process_round1 env r w in
  (∃ msg, result run = inl (Exception ("GitHub operation failed: " +:+ msg)))
  ∧ github (world run) = github w
  ∧ tasks (world run) = tasks w
  ∧ List.filter is_eval_post (events run) = []
  ∧ ∃ t, List.filter is_github (events run)
         = [Github (GhCreateRepo (generate_repo_name env (task r) (round r) t))].
Proof.
  intros Htoken Htimer Htaken run. subst run.
  destruct (generate_app_with_ai_returns env r w Htimer) as [page Hgen].
  pose proof (generate_app_with_ai_keeps env (λ w, (github w, tasks w))
                (λ _ _, eq_refl) (λ _, eq_refl) r w) as Hkeep.
  assert (Forall (λ e, is_github e = false ∧ is_eval_post e = false)
            (events (generate_app_with_ai env r w))) as Hquiet.
  { apply (obeys_all _ (λ _, True)); [done|].
    apply generate_app_with_ai_emits; try done. by intros []. }
  unfold process_round1. run_monad.
  destruct (generate_app_with_ai env r w) as [evs1 w1 res1]. cbn in Hgen, Hkeep, Hquiet.
  subst res1. injection Hkeep as Hgh1 Htk1. cbn.
  destruct (Htaken (now w1)) as [old Hold]. rewrite <- Hgh1 in Hold.
  destruct (create_github_repository_name_taken env r (generated_files r page) w1 old
              Htoken Hold) as (evs2 & w2 & msg & Hrun & Hgh2 & Hreq).
  pose proof (create_github_repository_keeps env tasks (λ _ _, eq_refl) (λ _ _, eq_refl)
                (λ _, eq_refl) r (generated_files r page) w1) as Htk2.
  assert (Forall (λ e, is_eval_post e = false)
            (events (create_github_repository env r (generated_files r page) w1)))
    as Hquiet2.
  { apply (obeys_all _ (λ _, True)); [done|].
    apply create_github_repository_obeys; done. }
  rewrite Hrun in Htk2, Hquiet2 |- *. cbn in Htk2, Hquiet2. cbn.
  assert (List.filter is_github evs1 = [] ∧ List.filter is_eval_post evs1 = []) as [Hg1 Hp1].
  { clear -Hquiet. induction Hquiet as [|e l [He1 He2] _ [IH1 IH2]]; [done|].
    cbn. by rewrite He1, He2. }
  assert (List.filter is_eval_post evs2 = []) as Hp2.
  { clear -Hquiet2. induction Hquiet2 as [|e l He _ IH]; [done|]. cbn. by rewrite He. }
  split; [by eexists|]. split; [congruence|]. split; [congruence|].
  cbn [List.filter is_github is_eval_post].
  rewrite !List.filter_app, Hg1, Hp1, Hp2, Hreq. split; [done|]. by eexists.
Qed.

Lemma round1_name_taken_witness :
  let w := world (process_round1 SampleNames.env_fixed Sample.round1_request Sample.boot) in
  let run := process_round1 SampleNames.env_fixed Sample.round1_request w in
  (∃ msg, result run = inl (Exception ("GitHub operation failed: " +:+ msg)))
  ∧ github (world run) = github w
  ∧ tasks (world run) = tasks w
  ∧ List.filter is_eval_post (events run) = []
  ∧ ∃ t, List.filter is_github (events run)
         = [Github (GhCreateRepo (generate_repo_name SampleNames.env_fixed "t1" 1 t))].
Proof.
  apply (round1_name_taken SampleNames.env_fixed Sample.round1_request
           (world (process_round1 SampleNames.env_fixed Sample.round1_request Sample.boot))).
  - reflexivity.
  - vm_compute. reflexivity.
  - intros t. vm_compute. eexists. reflexivity.
Defined.

(** ** How long the notification takes *)

(** The clock reads between [lo] and [hi]. *)
Definition within (lo hi : nat) (w : World) : Prop := lo ≤ now w ≤ hi.

Lemma eval_post_within (env : Env) (url : string) (response : TaskResponse)
    (limit lo hi : nat) :
  (∀ n, eval_latency env n ≤ limit) →
  triple (within lo hi) (eval_post env url response) (λ _, within lo (hi + limit))
    (λ _, within lo (hi + limit)).
Proof.
  intros Hlimit w Hw. unfold eval_post. run_monad. unfold await.
  destruct w as [tk nw tm gh na ne ng]. unfold within in *. cbn in Hw.
  pose proof (Hlimit ne) as Hne.
  cbn [timer now set_now bump_eval eval_posts].
  destruct tm as [t|]; [destruct (t <=? nw + eval_latency env ne) eqn:Hcut|].
  - apply Nat.leb_le in Hcut. cbn. lia.
  - destruct (eval_server env ne); cbn; lia.
  - destruct (eval_server env ne); cbn; lia.
Qed.

Lemma sleep_within (s : Suspension) (d lo hi : nat) :
  triple (within lo hi) (sleep s d) (λ _, within lo (hi + d)) (λ _, within lo (hi + d)).
Proof.
  intros w Hw. unfold sleep. run_monad. unfold await.
  destruct w as [tk nw tm gh na ne ng]. unfold within in *. cbn in Hw.
  cbn [timer now set_now].
  destruct tm as [t|]; [destruct (t <=? nw + d) eqn:Hcut|]; cbn; try lia.
  apply Nat.leb_le in Hcut. lia.
Qed.

(** The attempts that are followed by a pause when they fail. *)
Definition pauses (attempts : list nat) : nat :=
  length (List.filter (λ attempt, attempt <? 2) attempts).

Lemma send_attempts_within (env : Env) (response : TaskResponse) (url : string)
    (limit lo : nat) (attempts : list nat) :
  (∀ n, eval_latency env n ≤ limit) →
  ∀ hi,
    triple (within lo hi) (send_attempts env response url attempts)
      (λ _, within lo (hi + length attempts * limit + pauses attempts))
      (λ _, within lo (hi + length attempts * limit + pauses attempts)).
Proof.
  intros Hlimit. induction attempts as [|attempt rest IH]; intros hi;
    cbn [send_attempts length].
  - intros w Hw. cbn. unfold within in *. lia.
  - unfold pauses. cbn [List.filter]. fold (pauses rest).
    set (pause := if attempt <? 2 then 1 else 0).
    assert (length (if attempt <? 2 then attempt :: List.filter (λ a, a <? 2) rest
                    else List.filter (λ a, a <? 2) rest) = pause + pauses rest) as ->.
    { unfold pause, pauses. by destruct (attempt <? 2). }
    assert (∀ w, within lo (hi + limit + pause + length rest * limit + pauses rest) w →
                 within lo (hi + S (length rest) * limit + (pause + pauses rest)) w) as Hsum.
    { intros w. unfold within. lia. }
    assert (∀ w, within lo (hi + limit) w →
                 within lo (hi + S (length rest) * limit + (pause + pauses rest)) w) as Hless.
    { intros w. unfold within. lia. }
    apply (triple_bind _ _ _ (λ _, within lo (hi + limit))).
    + apply (triple_try _ _ _ (λ _, within lo (hi + limit))).
      * apply (triple_bind _ _ _ (λ _, within lo (hi + limit)));
          [by apply eval_post_within|].
        intros status_code. destruct (status_code =? 200)%Z;
          (apply (triple_bind _ _ _ (λ _, within lo (hi + limit)));
           [apply triple_log_inv|intros _; apply triple_ret_inv]).
      * intros e. unfold except_Exception. destruct (is_Exception e); cbn; [|by auto].
        apply (triple_bind _ _ _ (λ _, within lo (hi + limit)));
          [apply triple_log_inv|intros _; apply triple_ret_inv].
    + intros [|].
      * eapply triple_weaken;
          [apply (triple_ret_inv (within lo (hi + limit)) (λ _ _, False))|..];
          cbn; [by eauto..|done].
      * apply (triple_bind _ _ _ (λ _, within lo (hi + limit + pause))).
        -- unfold pause. destruct (attempt <? 2).
           ++ apply (triple_bind _ _ _ (λ _, within lo (hi + limit)));
                [apply triple_log_inv|].
              intros _.
              eapply triple_weaken; [apply (sleep_within AwaitRetrySleep 1 lo (hi + limit))|..];
                cbn; [by auto..|].
              intros e w. unfold within. lia.
           ++ eapply triple_weaken;
                [apply (triple_ret_inv (within lo (hi + limit)) (λ _ _, False))|..];
                cbn; [done| |done].
              intros _ w. unfold within. lia.
        -- intros _. eapply triple_weaken; [apply (IH (hi + limit + pause))|..];
             cbn; by eauto.
Qed.

(** X25: If every request to the evaluation url is answered or fails within
    [limit] seconds, send_evaluation is over, one way or the other, at most
    3 * limit + 2 seconds after it started: three requests and the two
    pauses of one second between them.  It never sets the clock back. *)
Theorem send_evaluation_duration (env : Env) (response : TaskResponse) (url : string)
    (limit : nat) (w : World) :
  (∀ n, eval_latency env n ≤ limit) →
  let run := send_evaluation env response url w in
  now w ≤ now (world run) ≤ now w + 3 * limit + 2.
Proof.
  intros Hlimit run. subst run.
  assert (triple (within (now w) (now w)) (send_evaluation env response url)
            (λ _, within (now w) (now w + 3 * limit + 2))
            (λ _, within (now w) (now w + 3 * limit + 2))) as Htriple.
  { unfold send_evaluation.
    apply (triple_bind _ _ _ (λ _, within (now w) (now w))); [apply triple_emit_inv|].
    intros _.
    apply (triple_bind _ _ _ (λ _, within (now w) (now w))); [apply triple_log_inv|].
    intros _.
    eapply triple_weaken;
      [apply (send_attempts_within env response url limit (now w) (seq 0 3) Hlimit (now w))|..];
      cbn; [done|..]; intros ? w'; unfold within; lia. }
  specialize (Htriple w). unfold within in Htriple.
  destruct (result (send_evaluation env response url w)); apply Htriple; lia.
Qed.

Lemma send_evaluation_duration_witness :
  let w := SampleRuns.after_round1 in
  let run := send_evaluation SampleOther.env_ai
               (mkTaskResponse "student@example.com" "t1" 1 "nonce-1"
                  "https://github.com/harshvk25/t1-0" "sha5" "https://harshvk25.github.io/t1-0")
               "http://eval.example/notify" w in
  now w ≤ now (world run) ≤ now w + 3 * 1 + 2.
Proof.
  apply (send_evaluation_duration SampleOther.env_ai). intros n. vm_compute. lia.
Defined.
